(** * fitgirl-downloader: link discovery, filename resolution and the
      streaming download, as a shallow embedding

    The development follows the two source modules:
    - [download.ts]: [extractFilenameFromContentDisposition],
      [ensureDirForFile], [downloadFileWithProgress];
    - [index.ts]: [getDownloadLinks], [getNestedDownloadLink],
      [downloadWithProgressBar], [downloadGame] and the command action.

    JavaScript strings are sequences of UTF-16 code units ([list N]); the
    regular expressions of the source are written out as matchers that
    follow the backtracking order of the ECMAScript semantics; the file
    system, the network and the clock are explicit state and explicit
    inputs. Byte counts and clock values are integers. The rate of a
    progress report is a binary64 number, computed with the IEEE 754
    operations of the Standard Library's [SpecFloat]; percentages and the
    numbers given to the formatters are exact rationals. *)

From stdpp Require Import base option list gmap strings.
From Stdlib Require Import Ascii QArith SpecFloat.
Close Scope Q_scope.

Set Default Proof Using "Type".
Set Warnings "-register-all".

(** ** Strings *)

Abbreviation jsstring := (list N).

Definition code (a : Ascii.ascii) : N := Ascii.N_of_ascii a.
Arguments code a%_char.

(** An ASCII literal as a JavaScript string. *)
Definition u16 (s : string) : jsstring :=
  code <$> String.list_ascii_of_string s.
Arguments u16 s%_string.

Definition is_empty (s : jsstring) : bool :=
  match s with [] => true | _ => false end.

(** [xs.length === 0]. *)
Definition is_nil {A} (xs : list A) : bool :=
  match xs with [] => true | _ => false end.

(** [String.prototype.startsWith]. *)
Fixpoint startsWith (s p : jsstring) : bool :=
  match p, s with
  | [], _ => true
  | a :: p', c :: s' => (a =? c)%N && startsWith s' p'
  | _ :: _, [] => false
  end.

Fixpoint take_while (f : N → bool) (s : jsstring) : jsstring :=
  match s with
  | c :: s' => if f c then c :: take_while f s' else []
  | [] => []
  end.

Fixpoint drop_while (f : N → bool) (s : jsstring) : jsstring :=
  match s with
  | c :: s' => if f c then drop_while f s' else s
  | [] => []
  end.

(** ** Character classes of the regular expressions *)

Definition is_one_of (cs : list N) (c : N) : bool :=
  existsb (N.eqb c) cs.

(** LineTerminator: what [.] refuses. *)
Definition is_line_terminator (c : N) : bool :=
  is_one_of [10; 13; 8232; 8233]%N c.

(** [\s]: WhiteSpace and LineTerminator code points. *)
Definition is_space (c : N) : bool :=
  is_one_of [9; 10; 11; 12; 13; 32; 160; 5760; 8232; 8233; 8239; 8287;
             12288; 65279]%N c
  || ((8192 <=? c) && (c <=? 8202))%N.

(** The apostrophe and the double quote (written DQ in the comments
    below). *)
Definition apostrophe : N := 39.
Definition dquote : N := 34.

Definition is_quote (c : N) : bool :=
  is_one_of [apostrophe; dquote] c.

(** Canonicalize of a case-insensitive pattern without the [u] flag: the
    upper-case mapping, which never sends a code unit above 127 to one
    below 128. Only ASCII pattern characters are compared with it. *)
Definition canonicalize (c : N) : N :=
  if ((97 <=? c) && (c <=? 122))%N then (c - 32)%N else c.

(** A literal matched under the [i] flag at the head of [s]; the rest of
    the input on success. *)
Fixpoint lit_ci (p s : jsstring) : option jsstring :=
  match p, s with
  | [], _ => Some s
  | a :: p', c :: s' =>
      if (canonicalize a =? canonicalize c)%N then lit_ci p' s' else None
  | _ :: _, [] => None
  end.

(** A literal matched case-sensitively. *)
Fixpoint lit (p s : jsstring) : option jsstring :=
  match p, s with
  | [], _ => Some s
  | a :: p', c :: s' => if (a =? c)%N then lit p' s' else None
  | _ :: _, [] => None
  end.

(** [String.prototype.match] with a pattern without the [g] flag: the
    match is attempted at every start index from the left, the end of the
    string included. *)
Fixpoint re_search {A} (at_start : jsstring → option A) (s : jsstring)
  : option A :=
  match at_start s with
  | Some r => Some r
  | None => match s with
            | [] => None
            | _ :: s' => re_search at_start s'
            end
  end.

(** ** Errors and outcomes *)

Inductive Exn :=
  | URIError      (* decodeURIComponent on a malformed sequence *)
  | TypeError     (* new URL on an invalid URL *)
  | AxiosError    (* network failure or non-2xx status *)
  | IOError       (* node:fs failure *)
  | StreamError   (* the response body fails during the pipeline *)
  | PromptError.  (* the prompt is aborted *)

(** A call returns, throws, or ends the process ([process.exit]). *)
Inductive outcome (A : Type) :=
  | Ok (a : A)
  | Throw (e : Exn)
  | Exit (status : Z).
Arguments Ok {A} a.
Arguments Throw {A} e.
Arguments Exit {A} status.

(** ** decodeURIComponent

    ECMA-262 Decode with an empty reserved set. [need] is the number of
    continuation octets still expected and [acc] the octets read so far.
    [None] stands for the URIError. *)

Definition hex_val (c : N) : option N :=
  if ((48 <=? c) && (c <=? 57))%N then Some (c - 48)%N
  else if ((65 <=? c) && (c <=? 70))%N then Some (c - 55)%N
  else if ((97 <=? c) && (c <=? 102))%N then Some (c - 87)%N
  else None.

Definition hex_byte (h1 h2 : N) : option N :=
  a ← hex_val h1; b ← hex_val h2; Some (16 * a + b)%N.

(** Number of leading 1 bits of an octet above 127. *)
Definition leading_ones (b : N) : nat :=
  if (b <? 128)%N then 0
  else if (b <? 192)%N then 1
  else if (b <? 224)%N then 2
  else if (b <? 240)%N then 3
  else if (b <? 248)%N then 4
  else 5.

Definition is_cont (b : N) : bool := ((128 <=? b) && (b <? 192))%N.

(** The code point of a well-formed UTF-8 sequence: no overlong form, no
    surrogate, nothing above U+10FFFF. *)
Definition utf8_code_point (octets : list N) : option N :=
  match octets with
  | [b0; b1] =>
      let v := ((b0 - 192) * 64 + (b1 - 128))%N in
      if is_cont b1 && (128 <=? v)%N then Some v else None
  | [b0; b1; b2] =>
      let v := ((b0 - 224) * 4096 + (b1 - 128) * 64 + (b2 - 128))%N in
      if is_cont b1 && is_cont b2 && (2048 <=? v)%N
         && negb ((55296 <=? v) && (v <=? 57343))%N
      then Some v else None
  | [b0; b1; b2; b3] =>
      let v := ((b0 - 240) * 262144 + (b1 - 128) * 4096
                + (b2 - 128) * 64 + (b3 - 128))%N in
      if is_cont b1 && is_cont b2 && is_cont b3
         && (65536 <=? v)%N && (v <=? 1114111)%N
      then Some v else None
  | _ => None
  end.

Definition utf16_encode (v : N) : jsstring :=
  if (v <? 65536)%N then [v]
  else [55296 + (v - 65536) / 1024; 56320 + (v - 65536) mod 1024]%N.

Fixpoint decode_from (need : nat) (acc : list N) (s : jsstring)
  : option jsstring :=
  match need with
  | O =>
      match s with
      | [] => Some []
      | c :: s1 =>
          if (c =? code "%")%N then
            match s1 with
            | h1 :: h2 :: s3 =>
                match hex_byte h1 h2 with
                | Some b =>
                    match leading_ones b with
                    | 0 => cons b <$> decode_from 0 [] s3
                    | 2 => decode_from 1 [b] s3
                    | 3 => decode_from 2 [b] s3
                    | 4 => decode_from 3 [b] s3
                    | _ => None
                    end
                | None => None
                end
            | _ => None
            end
          else cons c <$> decode_from 0 [] s1
      end
  | S need' =>
      match s with
      | p :: h1 :: h2 :: s3 =>
          if (p =? code "%")%N then
            match hex_byte h1 h2 with
            | Some b =>
                match need' with
                | O =>
                    match utf8_code_point (acc ++ [b]) with
                    | Some v => app (utf16_encode v) <$> decode_from 0 [] s3
                    | None => None
                    end
                | S _ => decode_from need' (acc ++ [b]) s3
                end
            | None => None
            end
          else None
      | _ => None
      end
  end.

Definition decodeURIComponent (s : jsstring) : outcome jsstring :=
  match decode_from 0 [] s with
  | Some r => Ok r
  | None => Throw URIError
  end.

(** ** extractFilenameFromContentDisposition *)

(** [/filename\*=UTF-8''([^;,\s]+)/i] at a fixed start; the result is
    group 1. The class is negated, so the greedy run is the only one. *)
Definition utf8_re_at (s : jsstring) : option jsstring :=
  rest ← lit_ci (u16 "filename*=UTF-8''") s;
  let g := take_while
             (λ c, negb (is_one_of [code ";"; code ","] c || is_space c))
             rest in
  if is_empty g then None else Some g.

(** [.*?\2] after the opening quote [q]: the lazy star stops at the first
    [q] and fails at a line terminator or at the end of the input. *)
Fixpoint lazy_until (q : N) (s : jsstring) : option jsstring :=
  match s with
  | [] => None
  | c :: s' =>
      if (c =? q)%N then Some []
      else if is_line_terminator c then None
      else cons c <$> lazy_until q s'
  end.

(** [(['DQ]).*?\2]: the text matched, both quotes included. *)
Definition quoted_alt (v : jsstring) : option jsstring :=
  match v with
  | q :: v' =>
      if is_quote q then
        body ← lazy_until q v'; Some (q :: body ++ [q])
      else None
  | [] => None
  end.

(** Group 1 of the second pattern: the quoted alternative first, the bare
    run [[^;\n]*] when it fails. *)
Definition filename_value (v : jsstring) : jsstring :=
  match quoted_alt v with
  | Some g => g
  | None => take_while (λ c, negb (is_one_of [code ";"; 10%N] c)) v
  end.

(** [/filename[^;=\n]*=(G)/i] at a fixed start, where the group G is
    [(['DQ]).*?\2|[^;\n]*] and its text is what [filename_value] gives.
    The run
    [[^;=\n]*] excludes [=], so only the longest run can be followed by
    [=]; the second alternative of the group matches the empty string, so
    the group never fails. *)
Definition filename_re_at (s : jsstring) : option jsstring :=
  rest ← lit_ci (u16 "filename") s;
  match drop_while
          (λ c, negb (is_one_of [code ";"; code "="; 10%N] c)) rest with
  | c :: v => if (c =? code "=")%N then Some (filename_value v) else None
  | [] => None
  end.

(** [s.replace(/['DQ]/g, empty)]: every quote character is removed. *)
Definition remove_quotes (s : jsstring) : jsstring :=
  List.filter (λ c, negb (is_quote c)) s.

Definition extractFilenameFromContentDisposition (contentDisposition : jsstring)
  : outcome (option jsstring) :=
  if is_empty contentDisposition then Ok None
  else
    match re_search utf8_re_at contentDisposition with
    | Some g1 =>
        if negb (is_empty g1) then
          match decodeURIComponent g1 with
          | Ok f => Ok (Some f)
          | Throw e => Throw e
          | Exit n => Exit n
          end
        else Ok None
    | None =>
        match re_search filename_re_at contentDisposition with
        | Some g1 =>
            if negb (is_empty g1) then Ok (Some (remove_quotes g1))
            else Ok None
        | None => Ok None
        end
    end.

(** ** node:path (POSIX) *)

Definition slash : N := 47.
Definition is_slash (c : N) : bool := (c =? slash)%N.

(** [s.split(sep)] for a one-character separator. *)
Fixpoint split_on (sep : N) (s : jsstring) : list jsstring :=
  match s with
  | [] => [[]]
  | c :: s' =>
      if (c =? sep)%N then [] :: split_on sep s'
      else match split_on sep s' with
           | seg :: segs => (c :: seg) :: segs
           | [] => [[c]]
           end
  end.

Fixpoint join_with (sep : N) (segs : list jsstring) : jsstring :=
  match segs with
  | [] => []
  | [seg] => seg
  | seg :: segs' => seg ++ sep :: join_with sep segs'
  end.

Definition jseq (a b : jsstring) : bool := bool_decide (a = b).

(** normalizeString: empty and [.] segments are dropped, [..] removes the
    segment before it, or stays when nothing is left to remove and the
    path is relative. [stack] holds the kept segments, last first. *)
Fixpoint normalize_segments (allowAboveRoot : bool)
    (stack : list jsstring) (segs : list jsstring) : list jsstring :=
  match segs with
  | [] => rev stack
  | seg :: segs' =>
      if is_empty seg || jseq seg (u16 ".") then
        normalize_segments allowAboveRoot stack segs'
      else if jseq seg (u16 "..") then
        match stack with
        | top :: below =>
            if jseq top (u16 "..") then
              normalize_segments allowAboveRoot
                (if allowAboveRoot then seg :: stack else stack) segs'
            else normalize_segments allowAboveRoot below segs'
        | [] =>
            normalize_segments allowAboveRoot
              (if allowAboveRoot then [seg] else []) segs'
        end
      else normalize_segments allowAboveRoot (seg :: stack) segs'
  end.

Definition ends_with_slash (p : jsstring) : bool :=
  match rev p with
  | c :: _ => is_slash c
  | [] => false
  end.

Definition is_absolute (p : jsstring) : bool :=
  match p with
  | c :: _ => is_slash c
  | [] => false
  end.

(** [path.normalize]. *)
Definition path_normalize (p : jsstring) : jsstring :=
  if is_empty p then u16 "."
  else
    let r := join_with slash
               (normalize_segments (negb (is_absolute p)) []
                  (split_on slash p)) in
    if is_empty r then
      if is_absolute p then u16 "/"
      else if ends_with_slash p then u16 "./" else u16 "."
    else
      (if is_absolute p then [slash] else [])
      ++ r ++ (if ends_with_slash p then [slash] else []).

(** [path.join(a, b)]: the non-empty arguments joined by a slash, then
    normalised. *)
Definition path_join (a b : jsstring) : jsstring :=
  match a, b with
  | [], [] => u16 "."
  | [], _ => path_normalize b
  | _, [] => path_normalize a
  | _, _ => path_normalize (a ++ slash :: b)
  end.

(** [path.basename(p)]: trailing slashes are skipped, then the last run of
    non-slash characters is taken. *)
Definition path_basename (p : jsstring) : jsstring :=
  rev (take_while (λ c, negb (is_slash c)) (drop_while is_slash (rev p))).

(** [path.dirname(p)]: the scan runs from the end down to index 1, over
    the trailing slashes and the last segment, to the slash before it. *)
Definition path_dirname (p : jsstring) : jsstring :=
  match p with
  | [] => u16 "."
  | c0 :: tl =>
      match drop_while (λ c, negb (is_slash c))
              (drop_while is_slash (rev tl)) with
      | [] => if is_slash c0 then u16 "/" else u16 "."
      | _ :: before =>
          if is_slash c0 && is_empty before then u16 "//"
          else c0 :: rev before
      end
  end.

(** ** The file system

    Entries are keyed by path with the trailing slashes removed; a path
    that ends in a slash names a directory only. Links and concurrent
    writers are outside the model. *)

Inductive Node :=
  | File (content : list N)
  | Dir.

Definition fs_key (p : jsstring) : jsstring :=
  match rev (drop_while is_slash (rev p)) with
  | [] => if is_empty p then [] else [slash]
  | k => k
  end.

(** ** Progress reports (the [DownloadProgress] type) *)

(** A JavaScript number produced by [Number(header)]: the integer of a
    Content-Length that is a decimal number, [NaN] for a header that is
    not a number. *)
Inductive jsnum :=
  | NaN
  | Num (n : Z).

Record DownloadProgress := {
  downloadedBytes : Z;
  totalBytes : option jsnum;     (* absent: undefined *)
  percent : option Q;
  rateBps : option Q;
}.

(** Truthiness of [totalBytes]: undefined, NaN and 0 are falsy. *)
Definition truthy_total (t : option jsnum) : option Z :=
  match t with
  | Some (Num n) => if (n =? 0)%Z then None else Some n
  | _ => None
  end.

(** ** Observable events and the world *)

Inductive Event :=
  | EvRequest (url : jsstring)           (* axios.get was issued *)
  | EvDestroy                            (* res.data.destroy() *)
  | EvData (len : nat)                   (* a body chunk was read *)
  | EvProgress (p : DownloadProgress)    (* onProgress was called *)
  | EvMkdir (dir : jsstring)
  | EvUnlink (path : jsstring)
  | EvOpen (path : jsstring)
  | EvRename (src dst : jsstring).

Record World := {
  fs : gmap (list N) Node;
  trace : list Event;
}.

Definition with_fs (w : World) (m : gmap (list N) Node) : World :=
  {| fs := m; trace := trace w |}.

(** ** The monad of effectful calls *)

Definition M (A : Type) : Type := World → World * outcome A.

Definition ret {A} (a : A) : M A := λ w, (w, Ok a).
Definition throw {A} (e : Exn) : M A := λ w, (w, Throw e).
Definition process_exit {A} (status : Z) : M A := λ w, (w, Exit status).

Definition bind {A B} (m : M A) (k : A → M B) : M B :=
  λ w, match m w with
       | (w', Ok a) => k a w'
       | (w', Throw e) => (w', Throw e)
       | (w', Exit n) => (w', Exit n)
       end.

Notation "'let*' x := m 'in' k" := (bind m (λ x, k))
  (at level 10, x name, m at level 200, k at level 200,
   format "'[v' 'let*'  x  :=  m  'in'  '/' k ']'").
Notation "m ;; k" := (bind m (λ _, k))
  (at level 100, k at level 200, right associativity,
   format "'[v' m  ;;  '/' k ']'").

(** [try { m } catch (e) { h e }]: [process.exit] is not caught. *)
Definition try_catch {A} (m : M A) (h : Exn → M A) : M A :=
  λ w, match m w with
       | (w', Throw e) => h e w'
       | r => r
       end.

Definition lift {A} (o : outcome A) : M A := λ w, (w, o).

Definition emit (e : Event) : M unit :=
  λ w, ({| fs := fs w; trace := trace w ++ [e] |}, Ok tt).

Definition when (b : bool) (m : M unit) : M unit :=
  if b then m else ret tt.

(** ** node:fs *)

(** [stat]: a regular file is not found under a name that ends in a
    slash. *)
Definition fs_stat (m : gmap (list N) Node) (p : jsstring) : option Node :=
  match m !! fs_key p with
  | Some (File c) => if ends_with_slash p then None else Some (File c)
  | r => r
  end.

Definition existsSync (p : jsstring) : M bool :=
  λ w, (w, Ok (bool_decide (is_Some (fs_stat (fs w) p)))).

(** The directory [d] and the directories above it, nearest first. *)
Fixpoint dir_chain (fuel : nat) (d : jsstring) : list jsstring :=
  match fuel with
  | O => [d]
  | S fuel' =>
      if jseq (path_dirname d) d then [d]
      else d :: dir_chain fuel' (path_dirname d)
  end.

Definition is_file_at (m : gmap (list N) Node) (p : jsstring) : bool :=
  match m !! fs_key p with
  | Some (File _) => true
  | _ => false
  end.

Definition add_dir (p : jsstring) (m : gmap (list N) Node)
  : gmap (list N) Node :=
  match m !! fs_key p with
  | None => <[fs_key p := Dir]> m
  | Some _ => m
  end.

(** [fs.mkdirSync(d, { recursive: true })]: fails when a component is a
    regular file, does nothing for the directories that exist. *)
Definition mkdirSync_recursive (d : jsstring) : M unit :=
  λ w,
    let ds := dir_chain (length d) d in
    if existsb (is_file_at (fs w)) ds then (w, Throw IOError)
    else emit (EvMkdir d) (with_fs w (foldr add_dir (fs w) ds)).

(** [fs.unlinkSync]. *)
Definition unlinkSync (p : jsstring) : M unit :=
  λ w,
    match fs_stat (fs w) p with
    | Some (File _) => emit (EvUnlink p) (with_fs w (delete (fs_key p) (fs w)))
    | _ => (w, Throw IOError)
    end.

(** Opening the write stream of [fs.createWriteStream(p)]: the parent must
    be a directory and [p] must not be one; the file is created empty. *)
Definition open_write (p : jsstring) : M unit :=
  λ w,
    match fs_stat (fs w) (path_dirname p), fs w !! fs_key p with
    | Some Dir, Some Dir => (w, Throw IOError)
    | Some Dir, _ =>
        if ends_with_slash p then (w, Throw IOError)
        else emit (EvOpen p) (with_fs w (<[fs_key p := File []]> (fs w)))
    | _, _ => (w, Throw IOError)
    end.

Definition write_chunk (p : jsstring) (bytes : list N) : M unit :=
  λ w,
    match fs w !! fs_key p with
    | Some (File c) =>
        (with_fs w (<[fs_key p := File (c ++ bytes)]> (fs w)), Ok tt)
    | _ => (w, Throw IOError)
    end.

(** [fs.renameSync(src, dst)] for a regular file [src]: refused when
    [dst] is a directory or is spelled with a trailing slash. *)
Definition renameSync (src dst : jsstring) : M unit :=
  λ w,
    match fs_stat (fs w) src with
    | Some (File c) =>
        if ends_with_slash dst then (w, Throw IOError)
        else
          match fs w !! fs_key dst with
          | Some Dir => (w, Throw IOError)
          | _ =>
              emit (EvRename src dst)
                (with_fs w
                   (<[fs_key dst := File c]> (delete (fs_key src) (fs w))))
          end
    | _ => (w, Throw IOError)
    end.

(** ** The environment of a run *)

(** [LinkItem] of index.ts. *)
Record LinkItem := {
  href : jsstring;
  text : jsstring;
}.

(** A streamed response: the two headers the code reads, the clock value
    when the data listener is installed, the chunks delivered with the
    clock value of each data event, and whether the body then fails
    instead of ending. [content_length] is [Number(h)] of the header [h]
    when it is a string. *)
Record Response := {
  content_disposition : option jsstring;
  content_length : option jsnum;
  listen_time : Z;
  chunks : list (Z * list N);
  stream_fails : bool;
}.

(** The tree built by htmlparser2 (domhandler nodes). *)
Inductive DomNode :=
  | TextNode (data : jsstring)
  | CommentNode (data : jsstring)
  | DirectiveNode (data : jsstring)
  | CDataNode (children : list DomNode)
  | ElementNode (name : jsstring) (attribs : gmap (list N) (list N))
      (children : list DomNode).

(** What the platform answers: [None] is a rejected request, a throwing
    URL constructor or an aborted prompt. *)
Record Env := {
  axios_get_stream : jsstring → option Response;
  axios_get_page : jsstring → option jsstring;
  url_pathname : jsstring → option jsstring;          (* new URL(u).pathname *)
  url_href : jsstring → jsstring → option jsstring;   (* new URL(r, base).toString() *)
  parseDocument : jsstring → list DomNode;            (* the children of the root *)
  prompt_input : option jsstring;
  prompt_checkbox : list LinkItem → option (list LinkItem);
  prompt_confirm : option bool;
}.

(** ** The data listener of downloadFileWithProgress *)

(** The three variables the listener closes over. *)
Record Sampler := {
  received : Z;      (* downloadedBytes *)
  lastEmit : Z;
  lastBytes : Z;
}.

Definition quarter : Q := 1 # 4.

(** binary64: an integer as a number, the division (round to nearest,
    ties to even), and the rational that a finite number is. The
    quotients below are finite for byte counts and clock differences
    under 2^1024; an infinity or a NaN has no rational and is sent
    to 0. *)
Definition b64_of_Z (z : Z) : spec_float := binary_normalize 53 1024 z 0 false.

Definition b64_div (x y : spec_float) : spec_float := SFdiv 53 1024 x y.

Definition b64_to_Q (x : spec_float) : Q :=
  match x with
  | S754_finite sign m e =>
      let v := match e with
               | Z.neg k => (Z.pos m # 2 ^ k)%Q
               | _ => inject_Z (Z.pos m * 2 ^ e)
               end in
      if sign then (- v)%Q else v
  | _ => 0%Q
  end.

Definition sign_bit (x : spec_float) : bool :=
  match x with
  | S754_zero s | S754_infinity s | S754_finite s _ _ => s
  | S754_nan => false
  end.

(** One data event at clock value [now]: the new variables, and the
    report handed to [onProgress] when the throttle lets it through.
    [dt] and [rateBps] are the binary64 quotients of the source. The test
    [dt >= 0.25] is decided on the exact quotient: 0.25 is a binary64
    number and rounding to nearest is monotone, so the rounded quotient
    is at least 0.25 exactly when the exact one is. [percent] is the exact
    value of bytes over total times 100, of which the source computes the
    binary64 rounding; for byte counts below 2^53 the rounding compares
    with 0 and with 100 as the exact value does, and the theorems on
    percentages state these comparisons only. *)
Definition on_data (total : option jsnum) (s : Sampler) (now : Z)
    (chunk : list N) : Sampler * option DownloadProgress :=
  let downloaded := (received s + Z.of_nat (length chunk))%Z in
  let elapsed := (now - lastEmit s)%Z in
  let dt := b64_div (b64_of_Z elapsed) (b64_of_Z 1000) in
  if Qle_bool quarter (inject_Z elapsed / inject_Z 1000) then
    let rate := b64_div (b64_of_Z (downloaded - lastBytes s)) dt in
    ({| received := downloaded; lastEmit := now; lastBytes := downloaded |},
     Some {| downloadedBytes := downloaded;
             totalBytes := total;
             percent :=
               match truthy_total total with
               | Some t => Some (inject_Z downloaded / inject_Z t
                                 * inject_Z 100)%Q
               | None => None
               end;
             rateBps := Some (b64_to_Q rate) |})
  else
    ({| received := downloaded; lastEmit := lastEmit s;
        lastBytes := lastBytes s |}, None).

(** The reports of a whole body, each with the clock value of its data
    event, and the variables at the end. *)
Fixpoint sample_all (total : option jsnum) (s : Sampler)
    (cs : list (Z * list N)) : list (Z * DownloadProgress) * Sampler :=
  match cs with
  | [] => ([], s)
  | (now, chunk) :: cs' =>
      let '(s1, r) := on_data total s now chunk in
      let '(rs, s2) := sample_all total s1 cs' in
      (match r with Some p => (now, p) :: rs | None => rs end, s2)
  end.

(** The report after the rename. *)
Definition final_report (total : option jsnum) (downloaded : Z)
  : DownloadProgress :=
  {| downloadedBytes := downloaded;
     totalBytes := total;
     percent := match truthy_total total with
                | Some _ => Some (inject_Z 100)
                | None => None
                end;
     rateBps := None |}.

Section Program.

Variable env : Env.

(** [axios.get(url, { responseType: stream, ... })]. *)
Definition axios_stream (url : jsstring) : M Response :=
  emit (EvRequest url) ;;
  match axios_get_stream env url with
  | Some res => ret res
  | None => throw AxiosError
  end.

(** [axios.get(url, { headers })] of index.ts: the body as a string. *)
Definition axios_page (url : jsstring) : M jsstring :=
  emit (EvRequest url) ;;
  match axios_get_page env url with
  | Some data => ret data
  | None => throw AxiosError
  end.

Definition ensureDirForFile (filePath : jsstring) : M unit :=
  mkdirSync_recursive (path_dirname filePath).

(** [path.basename(new URL(url).pathname)]. *)
Definition url_basename (url : jsstring) : outcome jsstring :=
  match url_pathname env url with
  | Some p => Ok (path_basename p)
  | None => Throw TypeError
  end.

(** The name under which the download is stored: the header name when
    there is a non-empty one, the base name of the URL path otherwise. *)
Definition resolve_filename (header : option jsstring) (url : jsstring)
  : outcome jsstring :=
  match extractFilenameFromContentDisposition (default [] header) with
  | Ok (Some f) => if negb (is_empty f) then Ok f else url_basename url
  | Ok None => url_basename url
  | Throw e => Throw e
  | Exit n => Exit n
  end.

(** The body flowing through the listener and into the write stream. *)
Fixpoint stream_chunks (total : option jsnum) (onProgress : bool)
    (tempPath : jsstring) (s : Sampler) (cs : list (Z * list N))
  : M Sampler :=
  match cs with
  | [] => ret s
  | (now, chunk) :: cs' =>
      emit (EvData (length chunk)) ;;
      match on_data total s now chunk with
      | (s1, r) =>
          match r with
          | Some p => when onProgress (emit (EvProgress p))
          | None => ret tt
          end ;;
          write_chunk tempPath chunk ;;
          stream_chunks total onProgress tempPath s1 cs'
      end
  end.

(** [await pipeline(res.data, fs.createWriteStream(tempPath))] with the
    data listener attached. *)
Definition pipeline (res : Response) (total : option jsnum)
    (onProgress : bool) (tempPath : jsstring) : M Sampler :=
  open_write tempPath ;;
  let* s := stream_chunks total onProgress tempPath
              {| received := 0; lastEmit := listen_time res; lastBytes := 0 |}
              (chunks res) in
  if stream_fails res then throw StreamError else ret s.

Definition temp_suffix : jsstring := u16 ".download".

Definition downloadFileWithProgress (url outputDir : jsstring)
    (onProgress : bool) : M jsstring :=
  let* res := axios_stream url in
  let* filename := lift (resolve_filename (content_disposition res) url) in
  let outputPath := path_join outputDir filename in
  ensureDirForFile outputPath ;;
  let* present := existsSync outputPath in
  if present then
    emit EvDestroy ;;
    ret outputPath
  else
    let tempPath := outputPath ++ temp_suffix in
    let* stale := existsSync tempPath in
    when stale (unlinkSync tempPath) ;;
    let totalBytes := content_length res in
    let* s := pipeline res totalBytes onProgress tempPath in
    renameSync tempPath outputPath ;;
    when onProgress (emit (EvProgress (final_report totalBytes (received s)))) ;;
    ret outputPath.

End Program.

(** ** index.ts *)

Definition HOST_PREFIX : jsstring := u16 "https://fuckingfast.co".

(** domutils [findAll] with the test of getDownloadLinks (an element
    named [a]): the matching elements in document order, an element
    before its descendants. *)
Definition is_anchor (name : jsstring) : bool := jseq name (u16 "a").

Fixpoint findAll_anchors (n : DomNode) : list DomNode :=
  match n with
  | ElementNode name attribs children =>
      (if is_anchor name then [n] else [])
      ++ flat_map findAll_anchors children
  | CDataNode children => flat_map findAll_anchors children
  | _ => []
  end.

(** domutils [textContent]: the text of the descendants, comments
    excluded. *)
Fixpoint textContent (n : DomNode) : jsstring :=
  match n with
  | TextNode data => data
  | ElementNode _ _ children => flat_map textContent children
  | CDataNode children => flat_map textContent children
  | _ => []
  end.

(** [String.prototype.trim]. *)
Definition trim (s : jsstring) : jsstring :=
  rev (drop_while is_space (rev (drop_while is_space s))).

(** [x.attribs?.href]. *)
Definition attr_href (n : DomNode) : option jsstring :=
  match n with
  | ElementNode _ attribs _ => attribs !! u16 "href"
  | _ => None
  end.

(** The filter of getDownloadLinks: a non-empty href that starts with the
    prefix. *)
Definition href_matches (hrefPrefix : jsstring) (a : DomNode) : bool :=
  match attr_href a with
  | Some h => negb (is_empty h) && startsWith h hrefPrefix
  | None => false
  end.

(** The insertion-ordered [Map] used for the deduplication. *)
Definition map_has (k : jsstring) (m : list (jsstring * LinkItem)) : bool :=
  existsb (λ kv, jseq kv.1 k) m.

Definition map_set (k : jsstring) (v : LinkItem)
    (m : list (jsstring * LinkItem)) : list (jsstring * LinkItem) :=
  if map_has k m
  then (λ kv, if jseq kv.1 k then (k, v) else kv) <$> m
  else m ++ [(k, v)].

Definition dedup_step (m : list (jsstring * LinkItem)) (it : LinkItem)
  : list (jsstring * LinkItem) :=
  if negb (map_has (href it) m) then map_set (href it) it m else m.

Definition dedup_links (items : list LinkItem) : list LinkItem :=
  (fold_left dedup_step items []).*2.

Section Cli.

Variable env : Env.

(** The callback of [.map]: null for an anchor without href, a throw when
    the URL constructor refuses the href. *)
Definition link_of_anchor (url : jsstring) (a : DomNode)
  : outcome (option LinkItem) :=
  match attr_href a with
  | None => Ok None
  | Some rawHref =>
      if is_empty rawHref then Ok None
      else match url_href env rawHref url with
           | Some h => Ok (Some {| href := h; text := trim (textContent a) |})
           | None => Throw TypeError
           end
  end.

(** [anchors.map(f)] with a callback that may throw. *)
Fixpoint map_anchors (url : jsstring) (anchors : list DomNode)
  : outcome (list (option LinkItem)) :=
  match anchors with
  | [] => Ok []
  | a :: anchors' =>
      match link_of_anchor url a with
      | Ok it =>
          match map_anchors url anchors' with
          | Ok its => Ok (it :: its)
          | Throw e => Throw e
          | Exit n => Exit n
          end
      | Throw e => Throw e
      | Exit n => Exit n
      end
  end.

Definition getDownloadLinks (url hrefPrefix : jsstring) : M (list LinkItem) :=
  let* data := axios_page env url in
  let dom := parseDocument env data in
  let anchors := flat_map findAll_anchors dom in
  let* mapped :=
    lift (map_anchors url (List.filter (href_matches hrefPrefix) anchors)) in
  let items := omap id mapped in
  ret (dedup_links items).

(** [/window\.open\(\s*['DQ]([^'DQ]+)['DQ]\s*\)/] at a fixed start; the
    result is group 1. Every class excludes the character that must
    follow its run, so the longest runs are the only ones. *)
Definition window_open_at (s : jsstring) : option jsstring :=
  r ← lit (u16 "window.open(") s;
  match drop_while is_space r with
  | q :: r1 =>
      if is_quote q then
        let g := take_while (λ c, negb (is_quote c)) r1 in
        if is_empty g then None
        else match drop_while (λ c, negb (is_quote c)) r1 with
             | _ :: r2 =>
                 match drop_while is_space r2 with
                 | c :: _ => if (c =? code ")")%N then Some g else None
                 | [] => None
                 end
             | [] => None
             end
      else None
  | [] => None
  end.

Definition getNestedDownloadLink (url : jsstring) : M (option jsstring) :=
  let* data := axios_page env url in
  ret (re_search window_open_at data).

(** The progress bar is presentation; what remains is the download with a
    callback, and the rethrow of its error. *)
Definition downloadWithProgressBar (url outputDir : jsstring) : M unit :=
  try_catch
    (downloadFileWithProgress env url outputDir true ;; ret tt)
    (λ e, throw e).

(** The body of the for loop of downloadGame for one selected link: the
    two counters after it. *)
Definition process_link (outputDir : jsstring) (dLink : LinkItem)
    (counts : nat * nat) : M (nat * nat) :=
  let '(successCount, failCount) := counts in
  try_catch
    (let* nLink := getNestedDownloadLink (href dLink) in
     match nLink with
     | None => ret (successCount, S failCount)
     | Some n =>
         if is_empty n then ret (successCount, S failCount)
         else
           downloadWithProgressBar n outputDir ;;
           ret (S successCount, failCount)
     end)
    (λ e, ret (successCount, S failCount)).

Fixpoint process_links (outputDir : jsstring) (links : list LinkItem)
    (counts : nat * nat) : M (nat * nat) :=
  match links with
  | [] => ret counts
  | dLink :: rest =>
      let* counts' := process_link outputDir dLink counts in
      process_links outputDir rest counts'
  end.

Definition select_links (skipPrompt : bool) (dLinks : list LinkItem)
  : M (list LinkItem) :=
  if skipPrompt then ret dLinks
  else
    match prompt_checkbox env dLinks with
    | None => throw PromptError
    | Some selected =>
        if is_nil selected then process_exit 0 else ret selected
    end.

Definition confirm_start (skipPrompt : bool) : M unit :=
  if negb skipPrompt then
    match prompt_confirm env with
    | None => throw PromptError
    | Some shouldProceed =>
        if negb shouldProceed then process_exit 0 else ret tt
    end
  else ret tt.

Definition downloadGame (url outputDir : jsstring) (skipPrompt : bool)
  : M unit :=
  let* dLinks :=
    try_catch (getDownloadLinks url HOST_PREFIX) (λ e, process_exit 1) in
  if is_nil dLinks then process_exit 0
  else
    let* selectedLinks := select_links skipPrompt dLinks in
    confirm_start skipPrompt ;;
    let* counts := process_links outputDir selectedLinks (0, 0) in
    if 0 <? counts.2 then process_exit 1 else ret tt.

(** The action of the command: the URL argument, the option [-o] and the
    flag [-y]. *)
Definition action (url : option jsstring) (output : jsstring) (yes : bool)
  : M unit :=
  try_catch
    (match url with
     | Some u =>
         if negb (is_empty u) then downloadGame u output yes
         else match prompt_input env with
              | Some t => downloadGame t output yes
              | None => throw PromptError
              end
     | None =>
         match prompt_input env with
         | Some t => downloadGame t output yes
         | None => throw PromptError
         end
     end)
    (λ e, process_exit 1).

End Cli.

(** The status with which the process ends: that of [process.exit], or 0
    when the action returns and nothing is left to run. *)
Definition exit_status {A} (r : outcome A) : Z :=
  match r with
  | Exit n => n
  | Ok _ => 0
  | Throw _ => 1
  end.

(** ** Derived descriptions used in the statements *)

(** The events of the body: every chunk read, and the report that follows
    it when the throttle lets one through and a callback was given. *)
Fixpoint chunk_events (total : option jsnum) (onProgress : bool)
    (s : Sampler) (cs : list (Z * list N)) : list Event :=
  match cs with
  | [] => []
  | (now, chunk) :: cs' =>
      EvData (length chunk)
      :: match (on_data total s now chunk).2 with
         | Some p => if onProgress then [EvProgress p] else []
         | None => []
         end
      ++ chunk_events total onProgress (on_data total s now chunk).1 cs'
  end.

Definition initial_sampler (res : Response) : Sampler :=
  {| received := 0; lastEmit := listen_time res; lastBytes := 0 |}.

Definition body_bytes (cs : list (Z * list N)) : list N :=
  flat_map snd cs.

(** The events a call added to the trace. *)
Definition new_events (w w' : World) : list Event :=
  drop (length (trace w)) (trace w').

Definition is_request (e : Event) : bool :=
  match e with EvRequest _ => true | _ => false end.

Definition is_progress (e : Event) : bool :=
  match e with EvProgress _ => true | _ => false end.

Definition is_rename (e : Event) : bool :=
  match e with EvRename _ _ => true | _ => false end.

Definition count_events (f : Event → bool) (evs : list Event) : nat :=
  length (List.filter f evs).

(** A path lies inside a directory when it continues the directory name
    after a slash. *)
Definition inside_dir (dir p : jsstring) : bool :=
  startsWith p (dir ++ [slash]).

(** [bytes] bytes in [ms] milliseconds as a rate in bytes per second, in
    the arithmetic of the source: the milliseconds are divided by 1000,
    the bytes by that quotient, each division rounded to binary64. *)
Definition rate_of (bytes ms : Z) : Q :=
  b64_to_Q (b64_div (b64_of_Z bytes) (b64_div (b64_of_Z ms) (b64_of_Z 1000))).

(** Successive reports are well paced from the clock value [t_prev] and
    the byte count [b_prev] of the previous one: at least 250 ms later,
    the rate is the bytes since then over the seconds since then, and the
    byte count does not decrease. *)
Fixpoint well_paced (t_prev b_prev : Z) (rs : list (Z * DownloadProgress))
  : Prop :=
  match rs with
  | [] => True
  | (t, p) :: rs' =>
      (250 <= t - t_prev)%Z
      ∧ rateBps p = Some (rate_of (downloadedBytes p - b_prev) (t - t_prev))
      ∧ (b_prev <= downloadedBytes p)%Z
      ∧ well_paced t (downloadedBytes p) rs'
  end.

(** The non-empty pieces of a path between slashes. *)
Definition nonempty_segments (p : jsstring) : list jsstring :=
  List.filter (λ seg, negb (is_empty seg)) (split_on slash p).

(** The last non-empty piece between slashes, the empty string when
    there is none. *)
Definition last_path_segment (p : jsstring) : jsstring :=
  default [] (last (nonempty_segments p)).

(** The last path segment in the words of the specification: the piece
    after the last slash, which is empty for a path that ends in a
    slash. *)
Definition url_last_segment (p : jsstring) : jsstring :=
  default [] (last (split_on slash p)).

(** [it] is the first item of [items] with its href. *)
Definition first_with_href (items : list LinkItem) (it : LinkItem) : Prop :=
  ∃ before after,
    items = before ++ it :: after ∧ href it ∉ href <$> before.

(** ** A fragment of the URL parser for the examples

    Absolute URLs with an authority and without query, fragment, dot
    segments or characters that the parser rewrites are left as they are
    (an empty path becomes a slash); a reference that starts with a slash
    is resolved against the origin of the base. Other references are
    outside the fragment and are answered by [None]; the examples use
    none. *)

Fixpoint split_authority (u : jsstring) : option (jsstring * jsstring) :=
  match u with
  | [] => None
  | c :: u' =>
      match lit (u16 "://") u with
      | Some rest =>
          Some (u16 "://" ++ take_while (λ c, negb (is_slash c)) rest,
                drop_while (λ c, negb (is_slash c)) rest)
      | None =>
          match split_authority u' with
          | Some (origin, path) => Some (c :: origin, path)
          | None => None
          end
      end
  end.

Definition plain_pathname (u : jsstring) : option jsstring :=
  match split_authority u with
  | Some (_, path) => Some (if is_empty path then [slash] else path)
  | None => None
  end.

Definition plain_href (raw base : jsstring) : option jsstring :=
  match split_authority raw with
  | Some (origin, path) =>
      Some (origin ++ (if is_empty path then [slash] else path))
  | None =>
      match split_authority base with
      | Some (origin, _) => if is_absolute raw then Some (origin ++ raw) else None
      | None => None
      end
  end.

(** An environment from a stream table, a page table and a parser. *)
Definition plain_env (streams : jsstring → option Response)
    (pages : jsstring → option jsstring)
    (parse : jsstring → list DomNode) : Env :=
  {| axios_get_stream := streams;
     axios_get_page := pages;
     url_pathname := plain_pathname;
     url_href := plain_href;
     parseDocument := parse;
     prompt_input := None;
     prompt_checkbox := λ links, Some links;
     prompt_confirm := Some true |}.

Definition empty_world : World := {| fs := ∅; trace := [] |}.

(** A header [attachment; filename=Qname Q] with the quote [q]. *)
Definition attachment_header (q : N) (name : jsstring) : jsstring :=
  u16 "attachment; filename=" ++ q :: name ++ [q].

(** ** Example data *)

Definition game_url : jsstring := u16 "https://dl.example.test/files/game.zip".
Definition downloads : jsstring := u16 "downloads".

Definition three_chunks : list (Z * list N) :=
  [(1100%Z, [1; 2; 3]%N); (1300%Z, [4; 5]%N); (1400%Z, [6]%N)].

(** A six-byte file announced as [game.zip], listened to from clock value
    1000; [fails] says whether the body breaks after the three chunks. *)
Definition game_response (fails : bool) : Response :=
  {| content_disposition := Some (attachment_header dquote (u16 "game.zip"));
     content_length := Some (Num 6);
     listen_time := 1000;
     chunks := three_chunks;
     stream_fails := fails |}.

Definition game_env (fails : bool) : Env :=
  plain_env
    (λ u, if jseq u game_url then Some (game_response fails) else None)
    (λ _, None) (λ _, []).

Definition game_failed_run : World * outcome jsstring :=
  downloadFileWithProgress (game_env true) game_url downloads true empty_world.

Definition game_first_run : World * outcome jsstring :=
  downloadFileWithProgress (game_env false) game_url downloads true
    empty_world.

Definition game_second_run : World * outcome jsstring :=
  downloadFileWithProgress (game_env false) game_url downloads true
    game_first_run.1.

(** A URL whose path ends in a slash. *)
Definition trailing_slash_url : jsstring :=
  u16 "https://dl.example.test/files/game/".

(** An empty file whose length the server announces as 0. *)
Definition empty_url : jsstring := u16 "https://dl.example.test/files/empty.bin".

Definition empty_file_response : Response :=
  {| content_disposition := None;
     content_length := Some (Num 0);
     listen_time := 1000;
     chunks := [];
     stream_fails := false |}.

Definition empty_file_env : Env :=
  plain_env
    (λ u, if jseq u empty_url then Some empty_file_response else None)
    (λ _, None) (λ _, []).

Definition empty_file_run : World * outcome jsstring :=
  downloadFileWithProgress empty_file_env empty_url downloads true
    empty_world.

(** A server that names the file with dot-dot segments. *)
Definition traversal_url : jsstring := u16 "https://dl.example.test/get".
Definition home_downloads : jsstring := u16 "/home/user/Downloads".
Definition traversal_name : jsstring := u16 "../../outside/evil.bin".

Definition traversal_response : Response :=
  {| content_disposition := Some (attachment_header dquote traversal_name);
     content_length := Some (Num 3);
     listen_time := 0;
     chunks := [(10%Z, [7; 7; 7]%N)];
     stream_fails := false |}.

Definition traversal_env : Env :=
  plain_env
    (λ u, if jseq u traversal_url then Some traversal_response else None)
    (λ _, None) (λ _, []).

Definition traversal_run : World * outcome jsstring :=
  downloadFileWithProgress traversal_env traversal_url home_downloads false
    empty_world.

(** Headers of the filename examples. The capital letter EF of the
    Cyrillic alphabet is the code unit 1060. *)
Definition cyrillic_ef : N := 1060.

Definition utf8_header : jsstring := u16 "filename*=UTF-8''%D0%A4.rar".

Definition utf8_attachment_header : jsstring :=
  u16 "attachment; filename*=UTF-8''%D0%A4.rar".

(** Both parameters, the plain one first. *)
Definition both_parameters_header : jsstring :=
  attachment_header dquote (u16 "plain.rar")
  ++ u16 "; filename*=UTF-8''%D0%A4.rar".

(** A [filename*] value that is not percent-encoded UTF-8, after a plain
    parameter that the second rule would accept. *)
Definition malformed_header : jsstring :=
  attachment_header dquote (u16 "ok.rar") ++ u16 "; filename*=UTF-8''%ZZ.rar".

Definition truncated_escape_header : jsstring := u16 "filename*=UTF-8''%".

(** ** Deduplication in the words of the specification *)

(** The items whose href was not seen before, in their order. *)
Fixpoint first_occurrences (seen : list jsstring) (items : list LinkItem)
  : list LinkItem :=
  match items with
  | [] => []
  | it :: rest =>
      if bool_decide (href it ∈ seen) then first_occurrences seen rest
      else it :: first_occurrences (seen ++ [href it]) rest
  end.

(** An anchor and the item made of it: the raw href is not empty, the
    href of the item is its resolution against the page URL, the text is
    the trimmed text of the anchor. *)
Definition item_of_anchor (env : Env) (url : jsstring) (a : DomNode)
    (it : LinkItem) : Prop :=
  ∃ raw, attr_href a = Some raw ∧ raw ≠ []
         ∧ url_href env raw url = Some (href it)
         ∧ text it = trim (textContent a).

(** ** The page of the end-to-end scenario *)

Definition repack_url : jsstring := u16 "https://example.test/repack/".

Definition anchor (target label : jsstring) : DomNode :=
  ElementNode (u16 "a") {[ u16 "href" := target ]} [TextNode label].

Definition repack_dom : list DomNode :=
  [ DirectiveNode (u16 "!doctype html");
    ElementNode (u16 "html") ∅
      [ ElementNode (u16 "body") ∅
          [ ElementNode (u16 "p") ∅
              [ anchor (u16 "https://fuckingfast.co/a") (u16 " Part 1 ") ];
            CommentNode (u16 " mirror ");
            anchor (u16 "https://fuckingfast.co/a") (u16 "Part 1 again");
            ElementNode (u16 "div") ∅
              [ anchor (u16 "https://fuckingfast.co/b") (u16 "Part 2");
                anchor (u16 "/local/page") (u16 "Local") ] ] ] ].

Definition repack_env : Env :=
  plain_env (λ _, None)
    (λ u, if jseq u repack_url then Some (u16 "<!doctype html>...") else None)
    (λ _, repack_dom).

Definition repack_links : list LinkItem :=
  [ {| href := u16 "https://fuckingfast.co/a"; text := u16 "Part 1" |};
    {| href := u16 "https://fuckingfast.co/b"; text := u16 "Part 2" |} ].

(** A page with one anchor whose href is empty, searched with the empty
    prefix. *)
Definition empty_href_env : Env :=
  plain_env (λ _, None) (λ _, Some (u16 "<a href>here</a>"))
    (λ _, [anchor [] (u16 "here")]).

(** A page with one anchor whose port number the URL constructor
    rejects. *)
Definition bad_port_href : jsstring := u16 "https://fuckingfast.co:99999/x".

Definition bad_port_env : Env :=
  {| axios_get_stream := λ _, None;
     axios_get_page := λ _, Some (u16 "<a href=...>x</a>");
     url_pathname := plain_pathname;
     url_href := λ raw base,
       if jseq raw bad_port_href then None else plain_href raw base;
     parseDocument := λ _, [anchor bad_port_href (u16 "x")];
     prompt_input := None;
     prompt_checkbox := λ links, Some links;
     prompt_confirm := Some true |}.

(** ** A run of the command

    The page of the scenario; the page behind [/a] opens the game file in
    a script, the page behind [/b] has no such call. *)

Definition link_a : jsstring := u16 "https://fuckingfast.co/a".
Definition link_b : jsstring := u16 "https://fuckingfast.co/b".

Definition script_page : jsstring :=
  u16 "<script>function download() { window.open( "
  ++ dquote :: game_url ++ dquote :: u16 " ) }</script>".

Definition cli_env : Env :=
  {| axios_get_stream :=
       λ u, if jseq u game_url then Some (game_response false) else None;
     axios_get_page :=
       λ u, if jseq u repack_url then Some (u16 "<!doctype html>...")
            else if jseq u link_a then Some script_page
            else if jseq u link_b then Some (u16 "<html>moved</html>")
            else None;
     url_pathname := plain_pathname;
     url_href := plain_href;
     parseDocument := λ _, repack_dom;
     prompt_input := None;
     prompt_checkbox := λ links, Some links;
     prompt_confirm := Some true |}.

Definition cli_run : World * outcome unit :=
  action cli_env (Some repack_url) downloads false empty_world.

(** The same command when the first page cannot be fetched. *)
Definition offline_env : Env :=
  plain_env (λ _, None) (λ _, None) (λ _, []).

Definition offline_run : World * outcome unit :=
  action offline_env (Some repack_url) downloads true empty_world.

(** ** Further example data *)

(** The example file asked for while the server cannot be reached. *)
Definition game_offline_run : World * outcome jsstring :=
  downloadFileWithProgress offline_env game_url downloads true empty_world.

(** The only report during the transfer of the example file: five of the
    six bytes, 300 ms after the listener was installed. *)
Definition game_report : DownloadProgress :=
  {| downloadedBytes := 5; totalBytes := Some (Num 6);
     percent := Some (500 # 6)%Q;
     rateBps := Some (4691249611844267 # 281474976710656)%Q |}.

(** An extended parameter without escapes. *)
Definition plain_extended_header : jsstring :=
  u16 "attachment; filename*=UTF-8''game.zip".

(** The environment with other answers to the three prompts. *)
Definition with_prompts (env : Env) (answer : option jsstring)
    (selection : list LinkItem → option (list LinkItem))
    (go : option bool) : Env :=
  {| axios_get_stream := axios_get_stream env;
     axios_get_page := axios_get_page env;
     url_pathname := url_pathname env;
     url_href := url_href env;
     parseDocument := parseDocument env;
     prompt_input := answer;
     prompt_checkbox := selection;
     prompt_confirm := go |}.

(** The command of the scenario when the confirmation is declined. *)
Definition declining_env : Env :=
  with_prompts cli_env None (λ links, Some links) (Some false).

(** The same with every prompt aborted. *)
Definition aborting_env : Env :=
  with_prompts cli_env None (λ _, None) None.

(** The same with every link selected and the confirmation aborted. *)
Definition abort_confirm_env : Env :=
  with_prompts cli_env None (λ links, Some links) None.

(** The first link of the scenario. *)
Definition first_link : LinkItem :=
  {| href := link_a; text := u16 "Part 1" |}.

(** ** The byte formatters

    [formatBytes] of index.ts and [fmtBytes], [fmtRate] of download.ts.
    A finite JavaScript number is the rational that it is: the division
    of a finite number that is at least 1024 by 1024 is exact in binary
    floating point. [formatBytes] is given the finite numbers of a
    report; [fmtBytes] and [fmtRate] take any number, NaN and the
    infinities included. [Number.prototype.toFixed] on finite numbers is
    an argument. *)

(** A JavaScript number. *)
Inductive jsreal :=
  | RNaN
  | RInf (negative : bool)
  | RFin (q : Q).

(** [v >= 1024]. *)
Definition at_least_1024 (v : jsreal) : bool :=
  match v with
  | RFin q => Qle_bool 1024 q
  | RInf negative => negb negative
  | RNaN => false
  end.

(** [v / 1024]. *)
Definition div_1024 (v : jsreal) : jsreal :=
  match v with
  | RFin q => RFin (q / 1024)
  | _ => v
  end.

(** The truth value of a number in a condition: NaN and 0 are falsy. *)
Definition is_truthy (v : jsreal) : bool :=
  match v with
  | RFin q => negb (Qeq_bool q 0)
  | RInf _ => true
  | RNaN => false
  end.

Definition units : list jsstring :=
  [u16 "B"; u16 "KB"; u16 "MB"; u16 "GB"; u16 "TB"].

(** [units[i]] inside a template literal: an index beyond the table gives
    [undefined], printed as that word. *)
Definition unit_at (i : nat) : jsstring :=
  default (u16 "undefined") (units !! i).

(** [while (size >= 1024 && i < units.length - 1) { size /= 1024; i++; }]
    with [left] for [units.length - 1 - i], the turns that the second test
    still allows. *)
Fixpoint scale_loop (left : nat) (size : Q) (i : nat) : Q * nat :=
  match left with
  | O => (size, i)
  | S left' =>
      if Qle_bool 1024 size then scale_loop left' (size / 1024) (S i)
      else (size, i)
  end.

Section Formatters.

Variable toFixed : Q → nat → jsstring.

Definition formatBytes (bytes : Q) : jsstring :=
  let '(size, i) := scale_loop (length units - 1) bytes 0 in
  toFixed size 2 ++ u16 " " ++ unit_at i.

(** The loop of fmtBytes on any number. *)
Fixpoint scale_loop_real (left : nat) (v : jsreal) (i : nat) : jsreal * nat :=
  match left with
  | O => (v, i)
  | S left' =>
      if at_least_1024 v then scale_loop_real left' (div_1024 v) (S i)
      else (v, i)
  end.

(** [v.toFixed(f)] on any number: a number that is not finite is printed
    by [Number::toString]. *)
Definition toFixed_real (v : jsreal) (f : nat) : jsstring :=
  match v with
  | RFin q => toFixed q f
  | RNaN => u16 "NaN"
  | RInf false => u16 "Infinity"
  | RInf true => u16 "-Infinity"
  end.

Definition fmtBytes (n : jsreal) : jsstring :=
  let '(v, i) := scale_loop_real (length units - 1) n 0 in
  toFixed_real v (if (i =? 0)%nat then 0 else 2) ++ u16 " " ++ unit_at i.

(** [bps ? fmtBytes(bps) + DQ/sDQ : empty]: an absent rate, NaN and the
    rate 0 are falsy. *)
Definition fmtRate (bps : option jsreal) : jsstring :=
  match bps with
  | Some r => if is_truthy r then fmtBytes r ++ u16 "/s" else []
  | None => []
  end.

End Formatters.

(** [toFixed] for a number below 10^21 in absolute value (ECMA-262,
    Number.prototype.toFixed, the branch without exponent): the integer
    nearest to x * 10^f, the larger of two, printed with [f] digits after
    the point. Used for the examples only. *)
Fixpoint digits_of_uint (u : Decimal.uint) : jsstring :=
  match u with
  | Decimal.Nil => []
  | Decimal.D0 u' => 48%N :: digits_of_uint u'
  | Decimal.D1 u' => 49%N :: digits_of_uint u'
  | Decimal.D2 u' => 50%N :: digits_of_uint u'
  | Decimal.D3 u' => 51%N :: digits_of_uint u'
  | Decimal.D4 u' => 52%N :: digits_of_uint u'
  | Decimal.D5 u' => 53%N :: digits_of_uint u'
  | Decimal.D6 u' => 54%N :: digits_of_uint u'
  | Decimal.D7 u' => 55%N :: digits_of_uint u'
  | Decimal.D8 u' => 56%N :: digits_of_uint u'
  | Decimal.D9 u' => 57%N :: digits_of_uint u'
  end.

Definition toFixed_decimal (x : Q) (f : nat) : jsstring :=
  let a := (Z.abs (Qnum x) # Qden x)%Q in
  let y := (a * inject_Z (10 ^ Z.of_nat f) + (1 # 2))%Q in
  let n := (Qnum y / Z.pos (Qden y))%Z in
  let m := digits_of_uint (N.to_uint (Z.to_N n)) in
  let m := replicate (S f - length m) 48%N ++ m in
  let k := length m - f in
  (if (Qnum x <? 0)%Z then u16 "-" else [])
  ++ (if (f =? 0)%nat then m else take k m ++ u16 "." ++ drop k m).

(** ** The progress bar and the prompt for the URL *)

(** What the callback of downloadWithProgressBar gives to [bar.update]:
    the value [percent ?? 0] and the three labels. *)
Record BarUpdate := {
  bar_value : Q;
  downloaded : jsstring;
  fileSize : jsstring;
  speed : jsstring;
}.

Definition bar_update (toFixed : Q → nat → jsstring) (p : DownloadProgress)
  : BarUpdate :=
  {| bar_value := default 0%Q (percent p);
     downloaded := formatBytes toFixed (inject_Z (downloadedBytes p));
     fileSize :=
       match truthy_total (totalBytes p) with
       | Some t => formatBytes toFixed (inject_Z t)
       | None => u16 "Unknown"
       end;
     speed :=
       match rateBps p with
       | Some r => if Qeq_bool r 0 then u16 "0 B/s"
                   else formatBytes toFixed r ++ u16 "/s"
       | None => u16 "0 B/s"
       end |}.

(** The [validate] callback of the prompt for the URL: [true] or the
    message shown. *)
Inductive Validation :=
  | Valid
  | Invalid (message : jsstring).

Definition validate (env : Env) (value : jsstring) : Validation :=
  if is_empty (trim value) then Invalid (u16 "URL is required")
  else match url_pathname env value with
       | Some _ => Valid
       | None => Invalid (u16 "Please enter a valid URL")
       end.

(** * Properties *)

(** ** The models on small inputs *)

(** The name of the parameter is matched without regard to case, the
    bare value runs to the next semicolon. *)
Example bare_token_upper_case :
  extractFilenameFromContentDisposition
    (u16 "attachment; FILENAME=report.pdf; size=1")
  = Ok (Some (u16 "report.pdf")).
Proof. vm_compute. reflexivity. Qed.

(** A quote that is never closed: the quoted alternative fails, the bare
    run takes the quote, the replacement removes it. *)
Example unterminated_quote :
  extractFilenameFromContentDisposition
    (u16 "attachment; filename=" ++ dquote :: u16 "abc.bin")
  = Ok (Some (u16 "abc.bin")).
Proof. vm_compute. reflexivity. Qed.

(** Characters between the name and the equals sign are skipped, the
    value keeps its leading space. *)
Example space_before_equals :
  extractFilenameFromContentDisposition (u16 "inline; filename = x.txt")
  = Ok (Some (u16 " x.txt")).
Proof. vm_compute. reflexivity. Qed.

(** Two quotes with nothing between them: the empty string, which the
    caller treats as no name. *)
Example empty_quoted_name :
  extractFilenameFromContentDisposition
    (u16 "attachment; filename=" ++ [dquote; dquote])
  = Ok (Some [])
  ∧ resolve_filename (game_env false)
      (Some (u16 "attachment; filename=" ++ [dquote; dquote])) game_url
    = Ok (u16 "game.zip").
Proof. vm_compute. done. Qed.

Example no_parameter :
  extractFilenameFromContentDisposition (u16 "attachment") = Ok None
  ∧ extractFilenameFromContentDisposition (u16 "attachment; filename=")
    = Ok None
  ∧ extractFilenameFromContentDisposition [] = Ok None.
Proof. vm_compute. done. Qed.

(** decodeURIComponent: a four-byte sequence becomes a surrogate pair;
    overlong forms, encoded surrogates and lone continuation bytes are
    refused. *)
Example decode_examples :
  decodeURIComponent (u16 "%F0%9F%98%80a%41") = Ok [55357; 56832; 97; 65]%N
  ∧ decodeURIComponent (u16 "100%25") = Ok (u16 "100%")
  ∧ decodeURIComponent (u16 "%C0%80") = Throw URIError
  ∧ decodeURIComponent (u16 "%ED%A0%80") = Throw URIError
  ∧ decodeURIComponent (u16 "%80") = Throw URIError
  ∧ decodeURIComponent (u16 "%E0%A4%A") = Throw URIError.
Proof. vm_compute. done. Qed.

Example path_join_examples :
  path_join (u16 "out") (u16 "a.rar") = u16 "out/a.rar"
  ∧ path_join (u16 "/home/u/Downloads") (u16 "../../etc/x") = u16 "/home/etc/x"
  ∧ path_join (u16 "./a//b/") (u16 "c/./d/") = u16 "a/b/c/d/"
  ∧ path_join (u16 "a") (u16 "../..") = u16 ".."
  ∧ path_join (u16 "/") (u16 "..") = u16 "/"
  ∧ path_join (u16 "out/") [] = u16 "out/"
  ∧ path_join [] [] = u16 ".".
Proof. vm_compute. done. Qed.

Example path_dirname_examples :
  path_dirname (u16 "/a/b") = u16 "/a"
  ∧ path_dirname (u16 "a") = u16 "."
  ∧ path_dirname (u16 "/a") = u16 "/"
  ∧ path_dirname (u16 "a/b/") = u16 "a"
  ∧ path_dirname (u16 "//a") = u16 "//"
  ∧ path_dirname (u16 "/") = u16 "/".
Proof. vm_compute. done. Qed.

Example path_basename_examples :
  path_basename (u16 "/files/game.zip") = u16 "game.zip"
  ∧ path_basename (u16 "/dir/") = u16 "dir"
  ∧ path_basename (u16 "/") = [].
Proof. vm_compute. done. Qed.

(** The redirect of a nested page: either kind of quote, spaces inside
    the parentheses, the first call of the page. *)
Example window_open_examples :
  re_search window_open_at script_page = Some game_url
  ∧ re_search window_open_at (u16 "x window.open('https://a.test/f') y")
    = Some (u16 "https://a.test/f")
  ∧ re_search window_open_at (u16 "window.open(url)") = None
  ∧ re_search window_open_at (u16 "window.open('')") = None.
Proof. vm_compute. done. Qed.

(** The sampler on the chunks of the example: the first chunk comes 100
    ms after the listener and is not reported; the second comes 300 ms
    after it and is, with 5 bytes in 0.3 s. *)
Example sampler_example :
  (sample_all (Some (Num 6)) (initial_sampler (game_response false))
     three_chunks).1
  = [(1300%Z,
      {| downloadedBytes := 5; totalBytes := Some (Num 6);
         percent := Some (500 # 6)%Q;
         rateBps := Some (4691249611844267 # 281474976710656)%Q |})].
Proof. vm_compute. reflexivity. Qed.

(** The rate of 5 bytes in 300 ms is the binary64 number
    16.666666666666668, not 50/3; a rate that is a binary64 number comes
    out exactly. *)
Example rate_of_examples :
  rate_of 5 300 = (4691249611844267 # 281474976710656)%Q
  ∧ ¬ (rate_of 5 300 == 50 # 3)%Q
  ∧ (rate_of 1024 250 == 4096)%Q
  ∧ (rate_of 0 1000 == 0)%Q.
Proof. vm_compute. split_and!; done. Qed.

(** ** The monad *)

Lemma bind_Ok {A B} (m : M A) (k : A → M B) w w1 a :
  m w = (w1, Ok a) → bind m k w = k a w1.
Proof. intros H. unfold bind. by rewrite H. Qed.

Lemma bind_inv {A B} (m : M A) (k : A → M B) w w' r :
  bind m k w = (w', r) →
  (∃ w1 a, m w = (w1, Ok a) ∧ k a w1 = (w', r))
  ∨ (∃ e, m w = (w', Throw e) ∧ r = Throw e)
  ∨ (∃ n, m w = (w', Exit n) ∧ r = Exit n).
Proof.
  unfold bind. destruct (m w) as [w1 [a|e|n]]; intros H.
  - left. eauto.
  - right. left. inversion H. eauto.
  - right. right. inversion H. eauto.
Qed.

(** ** Paths and keys *)

Lemma drop_while_length f s : length (drop_while f s) ≤ length s.
Proof. induction s as [|c s IH]; simpl; [lia|]. destruct (f c); simpl; lia. Qed.

Lemma fs_key_length p : length (fs_key p) ≤ length p.
Proof.
  unfold fs_key.
  pose proof (drop_while_length is_slash (rev p)) as H.
  rewrite length_rev in H.
  destruct (rev (drop_while is_slash (rev p))) as [|c k] eqn:E.
  - destruct p; simpl; lia.
  - rewrite <- E, length_rev. lia.
Qed.

Lemma fs_key_snoc s c : is_slash c = false → fs_key (s ++ [c]) = s ++ [c].
Proof.
  intros Hc. unfold fs_key. rewrite List.rev_app_distr. simpl. rewrite Hc.
  change (c :: rev s) with (rev [c] ++ rev s).
  rewrite <- List.rev_app_distr, List.rev_involutive.
  by destruct s.
Qed.

Lemma ends_with_slash_snoc s c : ends_with_slash (s ++ [c]) = is_slash c.
Proof. unfold ends_with_slash. by rewrite List.rev_app_distr. Qed.

Lemma temp_suffix_snoc p :
  p ++ temp_suffix = (p ++ u16 ".downloa") ++ [code "d"].
Proof. by rewrite <- app_assoc. Qed.

Lemma fs_key_temp p : fs_key (p ++ temp_suffix) = p ++ temp_suffix.
Proof. rewrite temp_suffix_snoc. by apply fs_key_snoc. Qed.

Lemma temp_no_slash p : ends_with_slash (p ++ temp_suffix) = false.
Proof. rewrite temp_suffix_snoc. by rewrite ends_with_slash_snoc. Qed.

Lemma fs_key_temp_ne p : fs_key (p ++ temp_suffix) ≠ fs_key p.
Proof.
  rewrite fs_key_temp. intros H.
  pose proof (fs_key_length p) as Hl. rewrite <- H in Hl.
  rewrite length_app in Hl. simpl in Hl. lia.
Qed.

Lemma fs_stat_temp m p :
  fs_stat m (p ++ temp_suffix) = m !! (p ++ temp_suffix).
Proof.
  unfold fs_stat. rewrite fs_key_temp, temp_no_slash.
  by destruct (m !! (p ++ temp_suffix)) as [[]|].
Qed.

(** ** The primitives *)

Lemma emit_eq e w :
  emit e w = ({| fs := fs w; trace := trace w ++ [e] |}, Ok tt).
Proof. reflexivity. Qed.

Lemma when_inv b (m : M unit) w w' r :
  when b m w = (w', r) →
  (b = true ∧ m w = (w', r)) ∨ (b = false ∧ w' = w ∧ r = Ok tt).
Proof. destruct b; simpl; intros H; [by left|right]. by inversion H. Qed.

Lemma mkdir_inv d w w' r :
  mkdirSync_recursive d w = (w', r) →
  (r = Throw IOError ∧ w' = w)
  ∨ (r = Ok tt
     ∧ existsb (is_file_at (fs w)) (dir_chain (length d) d) = false
     ∧ fs w' = foldr add_dir (fs w) (dir_chain (length d) d)
     ∧ trace w' = trace w ++ [EvMkdir d]).
Proof.
  unfold mkdirSync_recursive.
  destruct (existsb _ _) eqn:E; intros H; inversion H; subst; auto 10.
Qed.

Lemma unlink_inv p w w' r :
  unlinkSync p w = (w', r) →
  (r = Throw IOError ∧ w' = w)
  ∨ (r = Ok tt ∧ (∃ c, fs_stat (fs w) p = Some (File c))
     ∧ fs w' = delete (fs_key p) (fs w)
     ∧ trace w' = trace w ++ [EvUnlink p]).
Proof.
  unfold unlinkSync.
  destruct (fs_stat (fs w) p) as [[c|]|] eqn:E; intros H; inversion H; subst;
    eauto 10.
Qed.

Lemma open_inv p w w' r :
  open_write p w = (w', r) →
  (r = Throw IOError ∧ w' = w)
  ∨ (r = Ok tt ∧ fs w !! fs_key p ≠ Some Dir ∧ ends_with_slash p = false
     ∧ fs w' = <[fs_key p := File []]> (fs w)
     ∧ trace w' = trace w ++ [EvOpen p]).
Proof.
  unfold open_write.
  destruct (fs_stat (fs w) (path_dirname p)) as [[c|]|];
    try (intros H; inversion H; subst; by auto).
  destruct (fs w !! fs_key p) as [[c|]|] eqn:E;
    destruct (ends_with_slash p) eqn:E2;
    intros H; inversion H; subst; auto 10; right; repeat split; auto; congruence.
Qed.

Lemma rename_inv src dst w w' r :
  renameSync src dst w = (w', r) →
  (r = Throw IOError ∧ w' = w)
  ∨ (r = Ok tt ∧ ends_with_slash dst = false
     ∧ fs w !! fs_key dst ≠ Some Dir
     ∧ (∃ c, fs_stat (fs w) src = Some (File c)
           ∧ fs w' = <[fs_key dst := File c]> (delete (fs_key src) (fs w)))
     ∧ trace w' = trace w ++ [EvRename src dst]).
Proof.
  unfold renameSync.
  destruct (fs_stat (fs w) src) as [[c|]|] eqn:E;
    try (intros H; inversion H; subst; by auto).
  destruct (ends_with_slash dst) eqn:E2;
    try (intros H; inversion H; subst; by auto).
  destruct (fs w !! fs_key dst) as [[c'|]|] eqn:E3;
    intros H; inversion H; subst; auto; right; repeat split; eauto; congruence.
Qed.

Lemma stream_chunks_spec total cb temp cs : ∀ s w c,
  fs w !! fs_key temp = Some (File c) →
  stream_chunks total cb temp s cs w
  = ({| fs := <[fs_key temp := File (c ++ body_bytes cs)]> (fs w);
        trace := trace w ++ chunk_events total cb s cs |},
     Ok (sample_all total s cs).2).
Proof.
  induction cs as [|[now chunk] cs IH]; intros s w c Hc.
  - simpl. unfold ret. rewrite !app_nil_r. rewrite insert_id by done.
    by destruct w.
  - cbn [stream_chunks chunk_events sample_all body_bytes flat_map].
    destruct (on_data total s now chunk) as [s1 r] eqn:E.
    destruct (sample_all total s1 cs) as [rs s2] eqn:E2.
    unfold bind, emit, write_chunk, when, ret, with_fs.
    destruct r as [p|]; [destruct cb|]; cbn [fs trace fst snd];
      rewrite Hc;
      (rewrite (IH s1 _ (c ++ chunk));
         [|cbn [fs]; by rewrite lookup_insert_eq]);
      cbn [fs trace]; rewrite insert_insert_eq, E2;
      cbn [fst snd]; rewrite <- !app_assoc; reflexivity.
Qed.

(** ** Directories created by mkdir *)

Lemma add_dir_lookup a m k :
  add_dir a m !! k = m !! k ∨ (m !! k = None ∧ add_dir a m !! k = Some Dir).
Proof.
  unfold add_dir. destruct (m !! fs_key a) eqn:E; [by left|].
  destruct (decide (fs_key a = k)) as [<-|Hne].
  - right. by rewrite lookup_insert_eq.
  - left. by rewrite lookup_insert_ne.
Qed.

Lemma add_dirs_lookup ds m k :
  foldr add_dir m ds !! k = m !! k
  ∨ (m !! k = None ∧ foldr add_dir m ds !! k = Some Dir).
Proof.
  induction ds as [|a ds IH]; simpl; [by left|].
  destruct (add_dir_lookup a (foldr add_dir m ds) k) as [H|[H1 H2]].
  - rewrite H. exact IH.
  - destruct IH as [IH|[_ IH]]; [|congruence].
    right. split; [congruence|done].
Qed.

Lemma add_dirs_id ds m :
  (∀ d, d ∈ ds → m !! fs_key d = Some Dir) → foldr add_dir m ds = m.
Proof.
  induction ds as [|a ds IH]; simpl; intros H; [done|].
  rewrite IH by (intros d Hd; apply H; by right).
  unfold add_dir. rewrite (H a) by left. done.
Qed.

Lemma add_dir_self a m :
  add_dir a m !! fs_key a = Some Dir ∨ ∃ c, m !! fs_key a = Some (File c).
Proof.
  unfold add_dir. destruct (m !! fs_key a) as [[c|]|] eqn:E; eauto.
  left. by rewrite lookup_insert_eq.
Qed.

Lemma add_dirs_dir ds m d :
  d ∈ ds → is_file_at m d = false →
  foldr add_dir m ds !! fs_key d = Some Dir.
Proof.
  intros Hd Hf.
  assert (Hnf : ∀ c, m !! fs_key d ≠ Some (File c)).
  { intros c Hc. unfold is_file_at in Hf. by rewrite Hc in Hf. }
  induction ds as [|a ds IH]; [by apply elem_of_nil in Hd|].
  simpl. apply elem_of_cons in Hd as [Heq|Hd].
  - subst a. destruct (add_dir_self d (foldr add_dir m ds)) as [H|[c H]]; [done|].
    destruct (add_dirs_lookup ds m (fs_key d)) as [H'|[_ H']].
    + rewrite H' in H. by apply Hnf in H.
    + congruence.
  - specialize (IH Hd).
    destruct (add_dir_lookup a (foldr add_dir m ds) (fs_key d)) as [H|[H _]];
      congruence.
Qed.

Lemma existsb_false_elem {A} (f : A → bool) (l : list A) x :
  existsb f l = false → x ∈ l → f x = false.
Proof.
  induction l as [|a l IH]; simpl; intros H Hx; [by apply elem_of_nil in Hx|].
  apply orb_false_iff in H as [H1 H2].
  apply elem_of_cons in Hx as [->|Hx]; auto.
Qed.

Lemma existsb_false_intro {A} (f : A → bool) (l : list A) :
  (∀ x, x ∈ l → f x = false) → existsb f l = false.
Proof.
  induction l as [|a l IH]; simpl; intros H; [done|].
  rewrite (H a) by left. simpl. apply IH. intros x Hx. apply H. by right.
Qed.

(** ** The runs of downloadFileWithProgress *)

Section DownloadRuns.

Variable env : Env.

Lemma axios_stream_eq url w :
  axios_stream env url w
  = ({| fs := fs w; trace := trace w ++ [EvRequest url] |},
     match axios_get_stream env url with
     | Some res => Ok res
     | None => Throw AxiosError
     end).
Proof.
  unfold axios_stream, bind. rewrite emit_eq.
  by destruct (axios_get_stream env url).
Qed.

Lemma pipeline_inv res total cb temp w w' r :
  pipeline res total cb (temp ++ temp_suffix) w = (w', r) →
  let tp := temp ++ temp_suffix in
  (r = Throw IOError ∧ w' = w)
  ∨ (fs w !! tp ≠ Some Dir
     ∧ fs w' = <[tp := File (body_bytes (chunks res))]> (fs w)
     ∧ trace w' = trace w ++ [EvOpen tp]
                  ++ chunk_events total cb (initial_sampler res) (chunks res)
     ∧ r = if stream_fails res then Throw StreamError
           else Ok (sample_all total (initial_sampler res) (chunks res)).2).
Proof.
  intros H tp. unfold pipeline in H.
  apply bind_inv in H as [(w1 & [] & H1 & H)|[(e & H1 & ->)|(n & H1 & ->)]].
  - apply open_inv in H1 as [[? _]|(_ & Hnd & _ & Hfs & Htr)]; [done|].
    rewrite fs_key_temp in Hnd, Hfs. right.
    unfold bind in H.
    rewrite (stream_chunks_spec _ _ _ _ _ _ []) in H
      by (rewrite fs_key_temp, Hfs; apply lookup_insert_eq).
    rewrite fs_key_temp in H. simpl in H.
    rewrite Hfs, insert_insert_eq, Htr, <- app_assoc in H.
    fold (initial_sampler res) in H.
    destruct (stream_fails res); inversion H; subst; auto.
  - apply open_inv in H1 as [[He ->]|(? & _)]; [inversion He; by left|done].
  - apply open_inv in H1 as [[? _]|(? & _)]; done.
Qed.

Lemma download_inv url dir cb w w' r res filename :
  downloadFileWithProgress env url dir cb w = (w', r) →
  axios_get_stream env url = Some res →
  resolve_filename env (content_disposition res) url = Ok filename →
  let out := path_join dir filename in
  let temp := out ++ temp_suffix in
  let d := path_dirname out in
  let chain := dir_chain (length d) d in
  let fm := foldr add_dir (fs w) chain in
  let stale := if bool_decide (is_Some (fm !! temp)) then [EvUnlink temp] else [] in
  let body := body_bytes (chunks res) in
  let total := content_length res in
  let s_end := (sample_all total (initial_sampler res) (chunks res)).2 in
  let begun := trace w ++ [EvRequest url; EvMkdir d] in
  let streamed :=
    begun ++ stale ++ [EvOpen temp]
    ++ chunk_events total cb (initial_sampler res) (chunks res) in
  let fin := if cb then [EvProgress (final_report total (received s_end))]
             else [] in
  (r = Throw IOError ∧ fs w' = fs w ∧ trace w' = trace w ++ [EvRequest url])
  ∨ (existsb (is_file_at (fs w)) chain = false
     ∧ ((is_Some (fs_stat fm out) ∧ r = Ok out ∧ fs w' = fm
         ∧ trace w' = begun ++ [EvDestroy])
        ∨ (fs_stat fm out = None
           ∧ ((r = Throw IOError ∧ fs w' = fm ∧ trace w' = begun)
              ∨ (r = Throw IOError ∧ fs w' = delete temp fm
                 ∧ trace w' = begun ++ stale)
              ∨ (fm !! temp ≠ Some Dir
                 ∧ ((stream_fails res = true ∧ r = Throw StreamError
                     ∧ fs w' = <[temp := File body]> fm
                     ∧ trace w' = streamed)
                    ∨ (stream_fails res = false
                       ∧ ((r = Throw IOError
                           ∧ fs w' = <[temp := File body]> fm
                           ∧ trace w' = streamed)
                          ∨ (r = Ok out ∧ ends_with_slash out = false
                             ∧ fm !! fs_key out = None
                             ∧ fs w'
                               = <[fs_key out := File body]> (delete temp fm)
                             ∧ trace w'
                               = streamed ++ [EvRename temp out] ++ fin))))))))).
Proof.
  intros H Hres Hname out temp d chain fm stale body total s_end begun
    streamed fin.
  unfold downloadFileWithProgress in H.
  unfold bind at 1 in H. rewrite axios_stream_eq, Hres in H.
  unfold bind at 1 in H. unfold lift in H. rewrite Hname in H.
  fold out in H. fold temp in H.
  apply bind_inv in H as [(wm & [] & Hm & H)|[(e & Hm & ->)|(n & Hm & ->)]];
    unfold ensureDirForFile in Hm; fold d in Hm;
    apply mkdir_inv in Hm as [[Hr Hw]|(Hr & Hnf & Hfs & Htr)];
    try discriminate; cbn [fs trace] in *.
  2:{ left. inversion Hr. subst w'. auto. }
  fold chain in Hnf, Hfs. fold fm in Hfs.
  rewrite <- app_assoc in Htr. simpl in Htr. fold begun in Htr.
  right. split; [done|].
  unfold bind at 1, existsSync at 1 in H. rewrite Hfs in H.
  destruct (bool_decide (is_Some (fs_stat fm out))) eqn:Hex.
  { apply bool_decide_eq_true in Hex. left.
    unfold bind, ret in H. rewrite emit_eq in H. inversion H; subst.
    simpl. by rewrite Htr. }
  apply bool_decide_eq_false in Hex. right.
  assert (Hnone : fs_stat fm out = None).
  { destruct (fs_stat fm out); [|done]. exfalso. apply Hex. eauto. }
  split; [done|].
  unfold bind at 1, existsSync at 1 in H. rewrite Hfs in H.
  assert (Htemp : ∀ m, fs_stat m temp = m !! temp)
    by (intros m; apply fs_stat_temp).
  assert (Hktemp : fs_key temp = temp) by apply fs_key_temp.
  rewrite Htemp in H.
  (* the stale temporary file *)
  apply bind_inv in H as [(wu & [] & Hu & H)|[(e & Hu & ->)|(n & Hu & ->)]].
  - assert (Hwu : fm !! temp ≠ Some Dir ∧ fs wu = delete temp fm
                  ∧ trace wu = begun ++ stale).
    { apply when_inv in Hu as [[Hb Hu]|(Hb & -> & _)].
      - apply unlink_inv in Hu as [[? _]|(_ & [c Hc] & Hd & Ht)]; [done|].
        rewrite Hfs in Hc, Hd. rewrite Htemp in Hc. rewrite Hktemp in Hd.
        unfold stale. rewrite Hb.
        rewrite Hc. split_and!; [done|done|by rewrite Ht, Htr].
      - unfold stale. rewrite Hb, app_nil_r.
        apply bool_decide_eq_false in Hb.
        assert (fm !! temp = None) as Hn.
        { destruct (fm !! temp); [|done]. exfalso. apply Hb. eauto. }
        rewrite Hn. split_and!; [done| |done].
        rewrite Hfs. symmetry. by apply delete_id. }
    destruct Hwu as (Hnd & Hfu & Htu).
    apply bind_inv in H as [(wc & s & Hp & H)|[(e & Hp & ->)|(n & Hp & ->)]];
      apply (pipeline_inv res _ cb out) in Hp
        as [[Hr' ->]|(Hnd' & Hfc & Htc & Hr')];
      try (fold temp in Hfc, Htc, Hnd'); try discriminate.
    + (* the stream completed *)
      right. right. split; [done|].
      destruct (stream_fails res) eqn:Hsf; [discriminate|].
      inversion Hr'; subst s. right. split; [done|].
      rewrite Hfu, insert_delete_eq in Hfc.
      rewrite Htu, <- !app_assoc in Htc. fold streamed in Htc.
      apply bind_inv in H as [(wr & [] & Hrn & H)|[(e & Hrn & ->)|(n & Hrn & ->)]];
        apply rename_inv in Hrn
          as [[Hr'' ->]|(Hok & Hsl & Hnd2 & (c & Hc & Hfr) & Htrr)];
        try discriminate.
      * right.
        rewrite Htemp in Hc. rewrite Hktemp in Hfr.
        rewrite Hfc, lookup_insert_eq in Hc. inversion Hc; subst c.
        rewrite Hfc, delete_insert_eq in Hfr.
        assert (Hko : fm !! fs_key out = None).
        { unfold fs_stat in Hnone. rewrite Hsl in Hnone.
          by destruct (fm !! fs_key out) as [[]|]. }
        apply bind_inv in H as [(wf & [] & Hf & H)|[(e & Hf & ->)|(n & Hf & ->)]].
        -- unfold ret in H. inversion H; subst wf r. clear H.
           assert (Hwf : fs w' = fs wr ∧ trace w' = trace wr ++ fin).
           { unfold fin. apply when_inv in Hf as [[-> Hf]|(-> & -> & _)].
             - rewrite emit_eq in Hf. by inversion Hf.
             - by rewrite app_nil_r. }
           destruct Hwf as [Hwf1 Hwf2].
           split_and!; [done|done|done|by rewrite Hwf1, Hfr|].
           rewrite Hwf2, Htrr, Htc. symmetry. apply app_assoc.
        -- apply when_inv in Hf as [[_ Hf]|(_ & _ & ?)];
             [rewrite emit_eq in Hf; by inversion Hf|done].
        -- apply when_inv in Hf as [[_ Hf]|(_ & _ & ?)];
             [rewrite emit_eq in Hf; by inversion Hf|done].
      * left. by inversion Hr''.
    + (* the pipeline refused to open the file *)
      right. left. inversion Hr'. auto.
    + (* the stream failed *)
      right. right. split; [done|]. left.
      destruct (stream_fails res) eqn:Hsf; [|discriminate].
      inversion Hr'; subst.
      rewrite Hfu, insert_delete_eq in Hfc.
      rewrite Htu, <- !app_assoc in Htc. auto.
    + destruct (stream_fails res); discriminate.
  - apply when_inv in Hu as [[Hb Hu]|(_ & _ & ?)]; [|done].
    apply unlink_inv in Hu as [[Hr' ->]|(? & _)]; [|done].
    left. inversion Hr'. auto.
  - apply when_inv in Hu as [[Hb Hu]|(_ & _ & ?)]; [|done].
    apply unlink_inv in Hu as [[? _]|(? & _)]; done.
Qed.

End DownloadRuns.

(** ** The throttle *)

Lemma throttle_open_iff z :
  Qle_bool quarter (inject_Z z / inject_Z 1000) = true ↔ (250 <= z)%Z.
Proof.
  rewrite Qle_bool_iff. unfold Qle, quarter, Qdiv, Qmult, Qinv, inject_Z.
  simpl. lia.
Qed.

Lemma on_data_received total s now chunk :
  received (on_data total s now chunk).1
  = (received s + Z.of_nat (length chunk))%Z.
Proof. unfold on_data. by destruct (Qle_bool _ _). Qed.

Lemma sample_all_paced total cs : ∀ s,
  (lastBytes s <= received s)%Z →
  well_paced (lastEmit s) (lastBytes s) (sample_all total s cs).1.
Proof.
  induction cs as [|[now chunk] cs IH]; intros s Hs; [done|].
  cbn [sample_all]. unfold on_data.
  destruct (Qle_bool quarter _) eqn:Hq.
  - apply throttle_open_iff in Hq.
    match goal with |- context [sample_all total ?s1 cs] =>
      specialize (IH s1); destruct (sample_all total s1 cs) as [rs s2] end.
    cbn [fst snd received lastEmit lastBytes] in *.
    split_and!; cbn [downloadedBytes rateBps]; [done|done|lia|apply IH; lia].
  - match goal with |- context [sample_all total ?s1 cs] =>
      specialize (IH s1); destruct (sample_all total s1 cs) as [rs s2] end.
    cbn [fst snd received lastEmit lastBytes] in *. apply IH. lia.
Qed.

Lemma sample_all_bounded total cs : ∀ s,
  (received s <= received (sample_all total s cs).2)%Z
  ∧ ∀ t p, (t, p) ∈ (sample_all total s cs).1 →
      (received s <= downloadedBytes p
       <= received (sample_all total s cs).2)%Z.
Proof.
  induction cs as [|[now chunk] cs IH]; intros s.
  - simpl. split; [lia|]. intros t p Hp. by apply elem_of_nil in Hp.
  - cbn [sample_all].
    pose proof (on_data_received total s now chunk) as Hrec.
    destruct (on_data total s now chunk) as [s1 r] eqn:E.
    specialize (IH s1). destruct (sample_all total s1 cs) as [rs s2].
    cbn [fst snd] in *. destruct IH as [IH1 IH2].
    split; [lia|]. intros t p Hp.
    assert (Hrs : ∀ t p, (t, p) ∈ rs →
              (received s <= downloadedBytes p <= received s2)%Z).
    { intros t' p' H'. specialize (IH2 t' p' H'). lia. }
    destruct r as [p0|]; [|by eapply Hrs].
    apply elem_of_cons in Hp as [Heq|Hp]; [|by eapply Hrs].
    inversion Heq; subst.
    unfold on_data in E. destruct (Qle_bool _ _); inversion E; subst.
    cbn [downloadedBytes received] in *. lia.
Qed.


Lemma chunk_events_reports total cs : ∀ s,
  List.filter is_progress (chunk_events total true s cs)
  = (λ tp, EvProgress tp.2) <$> (sample_all total s cs).1.
Proof.
  induction cs as [|[now chunk] cs IH]; intros s; [done|].
  cbn [chunk_events sample_all].
  destruct (on_data total s now chunk) as [s1 r].
  specialize (IH s1). destruct (sample_all total s1 cs) as [rs s2].
  cbn [fst snd] in *.
  destruct r as [p|]; simpl; by rewrite IH.
Qed.

Lemma chunk_events_silent total cs : ∀ s,
  List.filter is_progress (chunk_events total false s cs) = [].
Proof.
  induction cs as [|[now chunk] cs IH]; intros s; [done|].
  cbn [chunk_events].
  destruct (on_data total s now chunk) as [s1 r].
  cbn [fst snd]. destruct r as [p|]; simpl; by rewrite IH.
Qed.







(** ** Events of a run *)

Lemma new_events_app w w' evs :
  trace w' = trace w ++ evs → new_events w w' = evs.
Proof. intros H. unfold new_events. rewrite H. apply drop_app_length. Qed.

Lemma count_events_app f xs ys :
  count_events f (xs ++ ys) = count_events f xs + count_events f ys.
Proof. unfold count_events. by rewrite List.filter_app, length_app. Qed.

Lemma chunk_events_no_rename total cb cs : ∀ s,
  count_events is_rename (chunk_events total cb s cs) = 0.
Proof.
  induction cs as [|[now chunk] cs IH]; intros s; [done|].
  cbn [chunk_events].
  change (EvData (length chunk) :: ?l) with ([EvData (length chunk)] ++ l).
  rewrite !count_events_app, IH.
  by destruct (on_data total s now chunk).2 as [p|]; [destruct cb|].
Qed.

Section DownloadOutcomes.

Variable env : Env.

Lemma download_resolved url dir cb w w' r :
  downloadFileWithProgress env url dir cb w = (w', r) →
  (∃ res filename,
      axios_get_stream env url = Some res
      ∧ resolve_filename env (content_disposition res) url = Ok filename)
  ∨ ((r = Throw AxiosError ∨ r = Throw URIError ∨ r = Throw TypeError)
     ∧ fs w' = fs w ∧ trace w' = trace w ++ [EvRequest url]).
Proof.
  unfold downloadFileWithProgress. unfold bind at 1.
  rewrite axios_stream_eq.
  destruct (axios_get_stream env url) as [res|] eqn:Hres.
  2:{ intros H. inversion H. right. auto. }
  unfold bind at 1, lift.
  destruct (resolve_filename env (content_disposition res) url)
    as [filename|e|n] eqn:Hname.
  - intros _. left. eauto.
  - intros H. inversion H. right. split; [|done].
    unfold resolve_filename, url_basename in Hname.
    destruct (extractFilenameFromContentDisposition _) as [[f|]|e'|n] eqn:E.
    + destruct (negb (is_empty f)); [done|].
      destruct (url_pathname env url); inversion Hname; auto.
    + destruct (url_pathname env url); inversion Hname; auto.
    + inversion Hname; subst.
      unfold extractFilenameFromContentDisposition in E.
      destruct (is_empty _); [done|].
      destruct (re_search utf8_re_at _) as [g|].
      * destruct (negb (is_empty g)); [|done].
        unfold decodeURIComponent in E.
        destruct (decode_from 0 [] g); inversion E; auto.
      * destruct (re_search filename_re_at _) as [g|]; [|done].
        by destruct (negb (is_empty g)).
    + done.
  - exfalso.
    unfold resolve_filename, url_basename in Hname.
    destruct (extractFilenameFromContentDisposition _) as [[f|]|e'|n'] eqn:E.
    + destruct (negb (is_empty f)); [done|].
      by destruct (url_pathname env url).
    + by destruct (url_pathname env url).
    + done.
    + unfold extractFilenameFromContentDisposition in E.
      destruct (is_empty _); [done|].
      destruct (re_search utf8_re_at _) as [g|].
      * destruct (negb (is_empty g)); [|done].
        unfold decodeURIComponent in E.
        by destruct (decode_from 0 [] g).
      * destruct (re_search filename_re_at _) as [g|]; [|done].
        by destruct (negb (is_empty g)).
Qed.

End DownloadOutcomes.

Section DownloadProperties.

Variable env : Env.

(** C1. A run whose body stream fails leaves nothing under the final
    name: the file system has no entry at [outputDir/filename], the
    temporary file holds the bytes received, and no rename was made. A
    rename is made only by a run whose stream completed and which returns
    the final path. *)
Theorem stream_failure_never_publishes url outputDir onProgress w w' r
    res filename :
  downloadFileWithProgress env url outputDir onProgress w = (w', r) →
  axios_get_stream env url = Some res →
  resolve_filename env (content_disposition res) url = Ok filename →
  let outputPath := path_join outputDir filename in
  (r = Throw StreamError →
     fs_stat (fs w') outputPath = None
     ∧ fs w' !! (outputPath ++ temp_suffix)
       = Some (File (body_bytes (chunks res)))
     ∧ count_events is_rename (new_events w w') = 0)
  ∧ (count_events is_rename (new_events w w') ≠ 0 →
     stream_fails res = false ∧ r = Ok outputPath).
Proof.
  intros H Hres Hname out.
  pose proof (download_inv env _ _ _ _ _ _ _ _ H Hres Hname) as Hinv.
  cbv zeta in Hinv. fold out in Hinv.
  set (temp := out ++ temp_suffix) in *.
  set (d := path_dirname out) in *.
  set (fm := foldr add_dir (fs w) (dir_chain (length d) d)) in *.
  assert (Hstale : count_events is_rename
            (if bool_decide (is_Some (fm !! temp)) then [EvUnlink temp] else [])
          = 0) by (by destruct (bool_decide _)).
  destruct Hinv as [(-> & Hfs & Htr)|(Hnf & [(Hex & -> & Hfs & Htr)|(Hnone & Hinv)])].
  - rewrite (new_events_app _ _ _ Htr). split; [done|]. by intros [].
  - rewrite <- app_assoc in Htr.
    rewrite (new_events_app _ _ _ Htr). split; [done|]. by intros [].
  - destruct Hinv as [(-> & Hfs & Htr)|[(-> & Hfs & Htr)|(Hnd & Hinv)]].
    + rewrite (new_events_app _ _ _ Htr). split; [done|]. by intros [].
    + rewrite <- app_assoc in Htr. rewrite (new_events_app _ _ _ Htr).
      rewrite count_events_app, Hstale. split; [done|]. by intros [].
    + assert (Hstreamed : ∀ tr,
        tr = (trace w ++ [EvRequest url; EvMkdir d]) ++
             (if bool_decide (is_Some (fm !! temp)) then [EvUnlink temp] else [])
             ++ [EvOpen temp]
             ++ chunk_events (content_length res) onProgress
                  (initial_sampler res) (chunks res) →
        ∃ evs, tr = trace w ++ evs ∧ count_events is_rename evs = 0).
      { intros tr ->. eexists. split; [by rewrite <- !app_assoc|].
        rewrite !count_events_app, Hstale, chunk_events_no_rename. done. }
      destruct Hinv as [(Hsf & -> & Hfs & Htr)
                       |(Hsf & [(-> & Hfs & Htr)|(-> & Hsl & Hko & Hfs & Htr)])].
      * apply Hstreamed in Htr as (evs & Htr & Hcount).
        rewrite (new_events_app _ _ _ Htr). split; [|by rewrite Hcount].
        intros _. split_and!; [|by rewrite Hfs, lookup_insert_eq|done].
        unfold fs_stat. rewrite Hfs, lookup_insert_ne
          by (unfold temp; rewrite <- (fs_key_temp out); apply fs_key_temp_ne).
        exact Hnone.
      * apply Hstreamed in Htr as (evs & Htr & Hcount).
        rewrite (new_events_app _ _ _ Htr). split; [done|by rewrite Hcount].
      * split; [done|]. intros _. done.
Qed.

(** A run that finds the file in place: the request, the mkdir, the
    destroy, and nothing else. *)
Lemma download_skip url outputDir onProgress w res filename :
  axios_get_stream env url = Some res →
  resolve_filename env (content_disposition res) url = Ok filename →
  let out := path_join outputDir filename in
  let d := path_dirname out in
  (∀ a, a ∈ dir_chain (length d) d → fs w !! fs_key a = Some Dir) →
  is_Some (fs_stat (fs w) out) →
  downloadFileWithProgress env url outputDir onProgress w
  = ({| fs := fs w;
        trace := trace w ++ [EvRequest url; EvMkdir d; EvDestroy] |},
     Ok out).
Proof.
  intros Hres Hname out d Hdirs Hex.
  unfold downloadFileWithProgress.
  unfold bind at 1. rewrite axios_stream_eq, Hres.
  unfold bind at 1, lift. rewrite Hname. fold out.
  unfold bind at 1, ensureDirForFile, mkdirSync_recursive. fold d.
  cbn [fs trace].
  rewrite existsb_false_intro.
  2:{ intros a Ha. unfold is_file_at. by rewrite (Hdirs a Ha). }
  rewrite emit_eq. cbn [fs trace with_fs].
  rewrite add_dirs_id by done.
  unfold bind at 1, existsSync. cbn [fs].
  rewrite bool_decide_eq_true_2 by done.
  unfold bind, ret. rewrite emit_eq. cbn [fs trace].
  by rewrite <- !app_assoc.
Qed.

(** C2 (amended). After a call that returned a path, a second call for
    the same URL and directory issues the request again, reads no body,
    reports no progress, leaves every file as it is and returns the same
    path. *)
Theorem second_call_refetches_and_skips url outputDir cb1 cb2 w w1 p :
  downloadFileWithProgress env url outputDir cb1 w = (w1, Ok p) →
  ∃ w2,
    downloadFileWithProgress env url outputDir cb2 w1 = (w2, Ok p)
    ∧ fs w2 = fs w1
    ∧ new_events w1 w2 = [EvRequest url; EvMkdir (path_dirname p); EvDestroy].
Proof.
  intros H.
  destruct (download_resolved env _ _ _ _ _ _ H)
    as [(res & filename & Hres & Hname)|[[?|[?|?]] _]]; try discriminate.
  pose proof (download_inv env _ _ _ _ _ _ _ _ H Hres Hname) as Hinv.
  cbv zeta in Hinv.
  set (out := path_join outputDir filename) in *.
  set (temp := out ++ temp_suffix) in *.
  set (d := path_dirname out) in *.
  set (chain := dir_chain (length d) d) in *.
  set (fm := foldr add_dir (fs w) chain) in *.
  assert (Hgoal : p = out
            ∧ (∀ a, a ∈ chain → fs w1 !! fs_key a = Some Dir)
            ∧ is_Some (fs_stat (fs w1) out)).
  { destruct Hinv as [(? & _)|(Hnf & Hinv)]; [discriminate|].
    assert (Hdirs : ∀ a, a ∈ chain → fm !! fs_key a = Some Dir).
    { intros a Ha. apply add_dirs_dir; [done|].
      by apply (existsb_false_elem _ chain). }
    destruct Hinv as [(Hex & Hr & Hfs & _)|(Hnone & Hinv)].
    - inversion Hr. rewrite Hfs. auto.
    - destruct Hinv as [(? & _)|[(? & _)|(Hnd & Hinv)]]; try discriminate.
      destruct Hinv as [(_ & ? & _)|(_ & [(? & _)|(Hr & Hsl & Hko & Hfs & _)])];
        try discriminate.
      inversion Hr. split; [done|]. rewrite Hfs. split.
      + intros a Ha. specialize (Hdirs a Ha).
        rewrite lookup_insert_ne by congruence.
        rewrite lookup_delete_ne by congruence. done.
      + unfold fs_stat. rewrite lookup_insert_eq, Hsl. eauto. }
  destruct Hgoal as (-> & Hdirs & Hex).
  eexists. split; [by apply (download_skip _ _ _ _ res filename)|].
  split; [done|]. by apply new_events_app.
Qed.

End DownloadProperties.

(** The failed transfer of the example: three chunks, then the error. *)
Lemma stream_failure_never_publishes_witness :
  fs_stat (fs game_failed_run.1) (u16 "downloads/game.zip") = None
  ∧ fs game_failed_run.1 !! u16 "downloads/game.zip.download"
    = Some (File [1; 2; 3; 4; 5; 6]%N)
  ∧ count_events is_rename (new_events empty_world game_failed_run.1) = 0.
Proof.
  refine (proj1 (stream_failure_never_publishes (game_env true) game_url
            downloads true empty_world game_failed_run.1 (Throw StreamError)
            (game_response true) (u16 "game.zip") _ _ _) _).
  - vm_compute. reflexivity.
  - vm_compute. reflexivity.
  - vm_compute. reflexivity.
  - reflexivity.
Defined.

(** The example file, downloaded and asked for again. *)
Lemma second_call_refetches_and_skips_witness :
  game_first_run.2 = Ok (u16 "downloads/game.zip")
  ∧ ∃ w2,
      downloadFileWithProgress (game_env false) game_url downloads true
        game_first_run.1
      = (w2, Ok (u16 "downloads/game.zip"))
      ∧ fs w2 = fs game_first_run.1
      ∧ new_events game_first_run.1 w2
        = [EvRequest game_url; EvMkdir (path_dirname (u16 "downloads/game.zip"));
           EvDestroy].
Proof.
  split; [vm_compute; reflexivity|].
  apply (second_call_refetches_and_skips (game_env false) game_url downloads
           true true empty_world game_first_run.1 (u16 "downloads/game.zip")).
  vm_compute. reflexivity.
Defined.

(** C2, as stated, fails: two calls for the same URL and directory issue
    two requests, not one. *)
Lemma two_calls_fetch_twice :
  game_first_run.2 = Ok (u16 "downloads/game.zip")
  ∧ game_second_run.2 = Ok (u16 "downloads/game.zip")
  ∧ count_events is_request (new_events empty_world game_second_run.1) = 2
  ∧ count_events is_request (new_events empty_world game_second_run.1) ≠ 1.
Proof. vm_compute. repeat split; discriminate. Qed.

Section Reports.
Variable env : Env.

(** The callbacks of a call that returned: none when the file was in
    place; otherwise the reports of the body, then the rename, then the
    final report, which carries no rate and the percentage 100 when
    [totalBytes] is truthy. *)
Lemma reports_of_a_completed_run url outputDir w w' p res filename :
  downloadFileWithProgress env url outputDir true w = (w', Ok p) →
  axios_get_stream env url = Some res →
  resolve_filename env (content_disposition res) url = Ok filename →
  let total := content_length res in
  let s0 := initial_sampler res in
  List.filter is_progress (new_events w w') = []
  ∨ ∃ evs,
      new_events w w'
      = evs ++ [EvRename (p ++ temp_suffix) p;
                EvProgress (final_report total
                              (received (sample_all total s0 (chunks res)).2))]
      ∧ List.filter is_progress evs
        = (λ tp, EvProgress tp.2) <$> (sample_all total s0 (chunks res)).1.
Proof.
  intros H Hres Hname total s0.
  pose proof (download_inv env _ _ _ _ _ _ _ _ H Hres Hname) as Hinv.
  cbv zeta in Hinv.
  destruct Hinv as [(? & _)|(Hnf & [(Hex & Hr & Hfs & Htr)|(Hnone & Hinv)])];
    [discriminate| |].
  - left. rewrite <- app_assoc in Htr. by rewrite (new_events_app _ _ _ Htr).
  - destruct Hinv as [(? & _)|[(? & _)|(Hnd & Hinv)]]; try discriminate.
    destruct Hinv as [(_ & ? & _)|(_ & [(? & _)|(Hr & Hsl & Hko & Hfs & Htr)])];
      try discriminate.
    inversion Hr; subst p. right.
    rewrite <- !app_assoc in Htr. apply new_events_app in Htr.
    set (out := path_join outputDir filename) in *.
    set (temp := out ++ temp_suffix) in *.
    set (stale := if bool_decide _ then [EvUnlink temp] else []) in *.
    exists ([EvRequest url; EvMkdir (path_dirname out)] ++ stale
            ++ [EvOpen temp]
            ++ chunk_events total true s0 (chunks res)).
    split.
    + rewrite Htr. cbn [app]. by rewrite <- !app_assoc.
    + cbn [app List.filter is_progress].
      rewrite List.filter_app. cbn [List.filter is_progress].
      rewrite chunk_events_reports.
      assert (List.filter is_progress stale = []) as ->
        by (unfold stale; by destruct (bool_decide _)).
      done.
Qed.

Lemma final_report_fields total n :
  rateBps (final_report total n) = None
  ∧ downloadedBytes (final_report total n) = n
  ∧ totalBytes (final_report total n) = total
  ∧ percent (final_report total n)
    = match truthy_total total with
      | Some _ => Some (inject_Z 100)
      | None => None
      end.
Proof. done. Qed.

(** The returned path is the join of the directory and the resolved
    name. *)
Lemma download_returns_join url outputDir onProgress w w' p res filename :
  downloadFileWithProgress env url outputDir onProgress w = (w', Ok p) →
  axios_get_stream env url = Some res →
  resolve_filename env (content_disposition res) url = Ok filename →
  p = path_join outputDir filename.
Proof.
  intros H Hres Hname.
  pose proof (download_inv env _ _ _ _ _ _ _ _ H Hres Hname) as Hinv.
  cbv zeta in Hinv.
  destruct Hinv as [(? & _)|(Hnf & [(Hex & Hr & _)|(Hnone & Hinv)])];
    [discriminate|by inversion Hr|].
  destruct Hinv as [(? & _)|[(? & _)|(Hnd & Hinv)]]; try discriminate.
  destruct Hinv as [(_ & ? & _)|(_ & [(? & _)|(Hr & _)])]; try discriminate.
  by inversion Hr.
Qed.

End Reports.

(** C6, failing input. For an empty file announced with length 0 the
    download succeeds and makes one callback, after the rename, whose
    [totalBytes] is the known length 0 and whose [percent] is absent. *)
Theorem final_report_of_empty_file_has_no_percent :
  empty_file_run.2 = Ok (u16 "downloads/empty.bin")
  ∧ new_events empty_world empty_file_run.1
    = [EvRequest empty_url;
       EvMkdir downloads;
       EvOpen (u16 "downloads/empty.bin.download");
       EvRename (u16 "downloads/empty.bin.download") (u16 "downloads/empty.bin");
       EvProgress {| downloadedBytes := 0; totalBytes := Some (Num 0);
                     percent := None; rateBps := None |}].
Proof. vm_compute. done. Qed.

(** C10. The destination is the join of the output directory and the
    resolved name, whatever the name: a header that names the file
    [../../outside/evil.bin] makes the call write and return
    [/home/outside/evil.bin], which is not inside [/home/user/Downloads]. *)
Theorem destination_is_not_confined :
  (∀ env url outputDir onProgress w w' p res filename,
     downloadFileWithProgress env url outputDir onProgress w = (w', Ok p) →
     axios_get_stream env url = Some res →
     resolve_filename env (content_disposition res) url = Ok filename →
     p = path_join outputDir filename)
  ∧ resolve_filename traversal_env (content_disposition traversal_response)
      traversal_url = Ok traversal_name
  ∧ traversal_run.2 = Ok (u16 "/home/outside/evil.bin")
  ∧ fs traversal_run.1 !! u16 "/home/outside/evil.bin"
    = Some (File [7; 7; 7]%N)
  ∧ inside_dir home_downloads (u16 "/home/outside/evil.bin") = false.
Proof.
  split; [exact download_returns_join|]. vm_compute. done.
Qed.

(** The returned path of the example is the join. *)
Lemma destination_is_not_confined_witness :
  traversal_run.2 = Ok (u16 "/home/outside/evil.bin")
  ∧ u16 "/home/outside/evil.bin" = path_join home_downloads traversal_name.
Proof.
  split; [vm_compute; reflexivity|].
  apply (proj1 destination_is_not_confined traversal_env traversal_url
           home_downloads false empty_world traversal_run.1
           (u16 "/home/outside/evil.bin") traversal_response traversal_name);
    vm_compute; reflexivity.
Defined.

(** ** Splitting a path *)

Lemma split_on_nonempty sep s : split_on sep s ≠ [].
Proof. induction s as [|c s IH]; simpl; [done|]. destruct (c =? sep)%N; [done|]. by destruct (split_on sep s). Qed.

Lemma split_on_app sep a b :
  split_on sep (a ++ sep :: b) = split_on sep a ++ split_on sep b.
Proof.
  induction a as [|c a IH]; simpl.
  - by rewrite N.eqb_refl.
  - destruct (c =? sep)%N; rewrite IH; [done|].
    pose proof (split_on_nonempty sep a).
    by destruct (split_on sep a).
Qed.

Lemma split_on_free sep s :
  Forall (λ c, (c =? sep)%N = false) s → split_on sep s = [s].
Proof.
  induction 1 as [|c s Hc _ IH]; simpl; [done|]. by rewrite Hc, IH.
Qed.

Lemma take_drop_while f s : take_while f s ++ drop_while f s = s.
Proof. induction s as [|c s IH]; simpl; [done|]. destruct (f c); simpl; by rewrite ?IH. Qed.

Lemma take_while_Forall f s : Forall (λ c, f c = true) (take_while f s).
Proof.
  induction s as [|c s IH]; simpl; [constructor|].
  destruct (f c) eqn:E; constructor; auto.
Qed.

Lemma drop_while_head f s c r : drop_while f s = c :: r → f c = false.
Proof.
  induction s as [|a s IH]; simpl; [done|].
  destruct (f a) eqn:E; [auto|]. intros H. by inversion H; subst.
Qed.

Lemma take_while_all f s : Forall (λ c, f c = true) s → take_while f s = s.
Proof. induction 1 as [|c s Hc _ IH]; simpl; [done|]. by rewrite Hc, IH. Qed.

(** Trailing slashes add no segment. *)
Lemma nonempty_segments_trailing p t :
  Forall (λ c, is_slash c = true) t →
  nonempty_segments (p ++ t) = nonempty_segments p.
Proof.
  intros Ht. revert p. induction Ht as [|c t Hc _ IH]; intros p.
  - by rewrite app_nil_r.
  - unfold is_slash in Hc. apply N.eqb_eq in Hc. subst c.
    replace (p ++ slash :: t) with ((p ++ [slash]) ++ t)
      by (by rewrite <- app_assoc).
    rewrite IH. unfold nonempty_segments.
    rewrite split_on_app. simpl. rewrite List.filter_app. simpl.
    by rewrite app_nil_r.
Qed.

Lemma rev_Forall {A} (P : A → Prop) l : Forall P l → Forall P (rev l).
Proof. intros H. apply Forall_forall. intros x Hx. rewrite Forall_forall in H. apply H. apply list_elem_of_In. apply list_elem_of_In, in_rev in Hx. done. Qed.

(** The base name is the last non-empty segment. *)
Lemma path_basename_last_segment p :
  path_basename p = last_path_segment p.
Proof.
  unfold path_basename, last_path_segment.
  pose proof (take_drop_while is_slash (rev p)) as Hsplit.
  set (t := take_while is_slash (rev p)) in *.
  set (q := drop_while is_slash (rev p)) in *.
  assert (Hp : p = rev q ++ rev t).
  { rewrite <- List.rev_app_distr, Hsplit. by rewrite List.rev_involutive. }
  rewrite Hp at 1.
  rewrite nonempty_segments_trailing
    by (apply rev_Forall, take_while_Forall).
  pose proof (take_drop_while (λ c, negb (is_slash c)) q) as Hq.
  set (seg := take_while (λ c, negb (is_slash c)) q) in *.
  set (before := drop_while (λ c, negb (is_slash c)) q) in *.
  assert (Hseg : Forall (λ c, (c =? slash)%N = false) (rev seg)).
  { apply rev_Forall. eapply Forall_impl; [apply take_while_Forall|].
    intros c Hc. simpl in Hc. unfold is_slash in Hc.
    by destruct (c =? slash)%N. }
  destruct q as [|c0 q0] eqn:Eq.
  { subst seg. simpl. done. }
  assert (Hc0 : is_slash c0 = false).
  { unfold q in Eq. by apply drop_while_head in Eq. }
  assert (Hne : seg ≠ []).
  { unfold seg. simpl. by rewrite Hc0. }
  rewrite <- Hq, List.rev_app_distr.
  assert (Hlast : ∀ pre, last (List.filter (λ s, negb (is_empty s))
                                 (pre ++ [rev seg])) = Some (rev seg)).
  { intros pre. rewrite List.filter_app. simpl.
    destruct (rev seg) eqn:E.
    - exfalso. apply Hne. apply (f_equal (@rev N)) in E.
      by rewrite List.rev_involutive in E.
    - simpl. by rewrite last_snoc. }
  destruct before as [|b before'] eqn:Eb.
  - simpl. unfold nonempty_segments. rewrite split_on_free by done.
    change [rev seg] with ([] ++ [rev seg]). by rewrite Hlast.
  - assert (Hb : b = slash).
    { unfold before in Eb. apply drop_while_head in Eb.
      unfold is_slash in Eb. apply negb_false_iff, N.eqb_eq in Eb. done. }
    subst b. simpl. rewrite <- app_assoc. simpl.
    unfold nonempty_segments. rewrite split_on_app.
    rewrite (split_on_free _ (rev seg)) by done.
    by rewrite Hlast.
Qed.


(** ** Filename resolution *)

Lemma remove_quotes_clean s : Forall (λ c, is_quote c = false) (remove_quotes s).
Proof.
  unfold remove_quotes. apply Forall_forall. intros c Hc.
  apply list_elem_of_In, filter_In in Hc as [_ Hc].
  by apply negb_true_iff in Hc.
Qed.

Lemma lazy_until_closing q name rest :
  q ∉ name → Forall (λ c, is_line_terminator c = false) name →
  lazy_until q (name ++ q :: rest) = Some name.
Proof.
  intros Hq Hlt. induction Hlt as [|c name Hc _ IH]; simpl.
  - by rewrite N.eqb_refl.
  - apply not_elem_of_cons in Hq as [Hne Hq].
    destruct (c =? q)%N eqn:E; [apply N.eqb_eq in E; congruence|].
    rewrite Hc. by rewrite IH.
Qed.

(** The outcomes of the extraction: rule 1 when its pattern matches, rule
    2 otherwise; the only throw is the URIError of rule 1. *)
Lemma extract_cases cd :
  extractFilenameFromContentDisposition cd
  = if is_empty cd then Ok None
    else match re_search utf8_re_at cd with
         | Some g =>
             if negb (is_empty g) then
               match decode_from 0 [] g with
               | Some f => Ok (Some f)
               | None => Throw URIError
               end
             else Ok None
         | None =>
             match re_search filename_re_at cd with
             | Some g => if negb (is_empty g) then Ok (Some (remove_quotes g))
                         else Ok None
             | None => Ok None
             end
         end.
Proof.
  unfold extractFilenameFromContentDisposition, decodeURIComponent.
  destruct (is_empty cd); [done|].
  destruct (re_search utf8_re_at cd) as [g|]; [|done].
  destruct (negb (is_empty g)); [|done].
  by destruct (decode_from 0 [] g).
Qed.

(** The piece after the last separator. *)
Lemma last_split_on sep s :
  last (split_on sep s)
  = Some (rev (take_while (λ c, negb (c =? sep)%N) (rev s))).
Proof.
  pose proof (take_drop_while (λ c, negb (c =? sep)%N) (rev s)) as Hs.
  pose proof (take_while_Forall (λ c, negb (c =? sep)%N) (rev s)) as Ht.
  set (t := take_while _ (rev s)) in *.
  assert (Hfree : Forall (λ c, (c =? sep)%N = false) (rev t)).
  { apply rev_Forall. eapply Forall_impl; [exact Ht|].
    intros c Hc. simpl in Hc. by destruct (c =? sep)%N. }
  destruct (drop_while _ (rev s)) as [|c d] eqn:Hd.
  - rewrite app_nil_r in Hs.
    assert (Hst : s = rev t) by (by rewrite Hs, List.rev_involutive).
    rewrite Hst at 1. by rewrite (split_on_free _ _ Hfree).
  - apply drop_while_head in Hd. apply negb_false_iff, N.eqb_eq in Hd.
    subst c.
    assert (Hst : s = rev d ++ sep :: rev t).
    { apply (f_equal (@rev N)) in Hs.
      rewrite List.rev_involutive, List.rev_app_distr in Hs.
      simpl in Hs. by rewrite <- app_assoc in Hs. }
    rewrite Hst at 1. rewrite split_on_app, (split_on_free _ _ Hfree).
    by rewrite last_snoc.
Qed.

Lemma last_segment_without_trailing_slash p :
  ends_with_slash p = false → last_path_segment p = url_last_segment p.
Proof.
  intros Hp. rewrite <- path_basename_last_segment.
  unfold path_basename, url_last_segment. rewrite last_split_on.
  cbn [default]. unfold ends_with_slash in Hp.
  destruct (rev p) as [|c r]; [done|].
  cbn [drop_while]. by rewrite Hp.
Qed.

Lemma utf16_encode_nonempty v : utf16_encode v ≠ [].
Proof. unfold utf16_encode. by destruct (v <? 65536)%N. Qed.

Lemma fmap_cons_nonempty (b : N) (o : option jsstring) r :
  cons b <$> o = Some r → r ≠ [].
Proof. destruct o; simpl; intros H; [|done]. by inversion H. Qed.

Lemma fmap_app_nonempty (a : jsstring) (o : option jsstring) r :
  a ≠ [] → app a <$> o = Some r → r ≠ [].
Proof.
  destruct o; simpl; intros Ha H; [|done]. inversion H.
  intros Hr. by apply app_eq_nil in Hr as [? _].
Qed.

(** Decoding yields a code unit for every character or escape sequence
    consumed: only the empty string decodes to the empty string. *)
Lemma decode_from_nonempty n : ∀ s need acc r,
  length s ≤ n →
  decode_from need acc s = Some r →
  r ≠ [] ∨ (need = 0 ∧ s = []).
Proof.
  induction n as [|n IH]; intros s need acc r Hlen H.
  - destruct s; [|simpl in Hlen; lia].
    destruct need; simpl in H; [by right|done].
  - destruct need as [|need'].
    + destruct s as [|c s1]; [by right|]. left. cbn [decode_from] in H.
      destruct (c =? code "%")%N.
      * destruct s1 as [|h1 [|h2 s3]]; try done.
        destruct (hex_byte h1 h2) as [b|]; [|done].
        simpl in Hlen.
        destruct (leading_ones b) as [|[|[|[|[|k]]]]]; try done.
        -- by apply fmap_cons_nonempty in H.
        -- destruct (IH s3 1 [b] r ltac:(lia) H) as [?|[? _]]; done.
        -- destruct (IH s3 2 [b] r ltac:(lia) H) as [?|[? _]]; done.
        -- destruct (IH s3 3 [b] r ltac:(lia) H) as [?|[? _]]; done.
      * by apply fmap_cons_nonempty in H.
    + left.
      destruct s as [|p [|h1 [|h2 s3]]]; cbn [decode_from] in H; try done.
      destruct (p =? code "%")%N; [|done].
      destruct (hex_byte h1 h2) as [b|]; [|done].
      simpl in Hlen.
      destruct need' as [|need''].
      * destruct (utf8_code_point _) as [v|]; [|done].
        apply fmap_app_nonempty in H; [done|].
        apply utf16_encode_nonempty.
      * destruct (IH s3 (S need'') (acc ++ [b]) r ltac:(lia) H) as [?|[? _]];
          done.
Qed.

Lemma decode_nonempty g f :
  is_empty g = false → decode_from 0 [] g = Some f → is_empty f = false.
Proof.
  intros Hg H.
  destruct (decode_from_nonempty (length g) g 0 [] f ltac:(lia) H)
    as [Hf|[_ ->]]; [|done].
  by destruct f.
Qed.

Lemma utf8_re_at_nonempty t g : utf8_re_at t = Some g → is_empty g = false.
Proof.
  unfold utf8_re_at.
  destruct (lit_ci _ t) as [rest|]; cbn [mbind option_bind]; [|done].
  destruct (is_empty (take_while _ rest)) eqn:E; [done|].
  intros H. by inversion H; subst.
Qed.

Lemma utf8_search_nonempty cd g :
  re_search utf8_re_at cd = Some g →
  is_empty cd = false ∧ is_empty g = false.
Proof.
  intros H. split.
  - destruct cd; [|done]. cbn [re_search] in H.
    destruct (utf8_re_at []) eqn:E; [|done]. by vm_compute in E.
  - induction cd as [|c cd IH]; cbn [re_search] in H.
    + destruct (utf8_re_at []) eqn:E; [|done].
      inversion H; subst. by apply utf8_re_at_nonempty in E.
    + destruct (utf8_re_at (c :: cd)) eqn:E; [|by apply IH].
      inversion H; subst. by apply utf8_re_at_nonempty in E.
Qed.

(** C3, as stated, fails for a URL whose path ends in a slash: the last
    path segment is empty, and the file is named after the segment
    before the slash. *)
Lemma trailing_slash_names_the_directory :
  url_pathname (game_env false) trailing_slash_url
  = Some (u16 "/files/game/")
  ∧ url_last_segment (u16 "/files/game/") = []
  ∧ resolve_filename (game_env false) None trailing_slash_url
    = Ok (u16 "game")
  ∧ resolve_filename (game_env false) None trailing_slash_url
    ≠ Ok (url_last_segment (u16 "/files/game/")).
Proof. vm_compute. split_and!; done. Qed.

(** C3 (amended). The resolved name, rule by rule. The examples of the
    specification resolve as stated, whatever the URL. A value matched by
    the first rule is decoded and is the name, also when a plain parameter
    precedes it; without a match of the first rule the value of the plain
    parameter without its quotes is the name, when it is not empty; in
    the remaining cases, and without a header, the name is the base name
    of the URL path: its last non-empty segment, which is the last path
    segment exactly when the path does not end in a slash, trailing
    slashes being ignored. *)
Theorem filename_resolution_rules :
  (∀ env url,
     resolve_filename env (Some utf8_header) url
     = Ok (cyrillic_ef :: u16 ".rar")
     ∧ resolve_filename env (Some utf8_attachment_header) url
       = Ok (cyrillic_ef :: u16 ".rar")
     ∧ resolve_filename env (Some both_parameters_header) url
       = Ok (cyrillic_ef :: u16 ".rar")
     ∧ resolve_filename env
         (Some (attachment_header dquote (u16 "game.zip"))) url
       = Ok (u16 "game.zip"))
  ∧ (∀ env url h g f,
       re_search utf8_re_at h = Some g →
       decode_from 0 [] g = Some f →
       resolve_filename env (Some h) url = Ok f)
  ∧ (∀ env url h g,
       re_search utf8_re_at h = None →
       re_search filename_re_at h = Some g →
       remove_quotes g ≠ [] →
       resolve_filename env (Some h) url = Ok (remove_quotes g))
  ∧ (∀ env url h,
       re_search utf8_re_at h = None →
       re_search filename_re_at h = None
       ∨ (∃ g, re_search filename_re_at h = Some g ∧ remove_quotes g = []) →
       resolve_filename env (Some h) url = resolve_filename env None url)
  ∧ (∀ env url,
       resolve_filename env None url
       = match url_pathname env url with
         | Some p => Ok (last_path_segment p)
         | None => Throw TypeError
         end)
  ∧ (∀ p, ends_with_slash p = false →
          last_path_segment p = url_last_segment p)
  ∧ (∀ p t, Forall (λ c, is_slash c = true) t →
            last_path_segment (p ++ t) = last_path_segment p)
  ∧ resolve_filename (game_env false) None game_url = Ok (u16 "game.zip").
Proof.
  assert (Hheader : ∀ env url h f,
            extractFilenameFromContentDisposition h = Ok (Some f) →
            is_empty f = false →
            resolve_filename env (Some h) url = Ok f).
  { intros env url h f Hh Hf. unfold resolve_filename.
    change (default [] (Some h)) with h. by rewrite Hh, Hf. }
  split_and!.
  - intros env url. split_and!; apply Hheader; vm_compute; reflexivity.
  - intros env url h g f Hg Hf.
    destruct (utf8_search_nonempty h g Hg) as [Hh Hgne].
    apply Hheader; [|by apply (decode_nonempty g)].
    by rewrite extract_cases, Hh, Hg, Hgne, Hf.
  - intros env url h g Hu Hg Hne.
    assert (Hgne : is_empty g = false) by (by destruct g).
    apply Hheader; [|by destruct (remove_quotes g)].
    destruct h as [|c h]; [by vm_compute in Hg|].
    by rewrite extract_cases, Hu, Hg, Hgne.
  - intros env url h Hu Hno. unfold resolve_filename.
    change (default [] (Some h)) with h.
    change (default [] None) with (@nil N).
    rewrite !extract_cases, Hu. cbn [is_empty].
    destruct (is_empty h); [done|].
    destruct Hno as [->|(g & -> & Hg)]; [done|].
    destruct (is_empty g); [done|]. cbn [negb]. by rewrite Hg.
  - intros env url. unfold resolve_filename, url_basename. simpl.
    destruct (url_pathname env url); [|done].
    by rewrite path_basename_last_segment.
  - apply last_segment_without_trailing_slash.
  - intros p t Ht. unfold last_path_segment.
    by rewrite nonempty_segments_trailing.
  - vm_compute. reflexivity.
Qed.

(** C5, as stated, fails: a [filename*] value that is not valid
    percent-encoding makes the extraction throw; the plain parameter of
    the same header, which the second rule would accept, and the URL are
    not consulted. *)
Lemma malformed_extended_parameter_throws :
  extractFilenameFromContentDisposition truncated_escape_header
    = Throw URIError
  ∧ extractFilenameFromContentDisposition malformed_header = Throw URIError
  ∧ re_search filename_re_at malformed_header
    = Some (dquote :: u16 "ok.rar" ++ [dquote])
  ∧ resolve_filename (game_env false) (Some malformed_header) game_url
    = Throw URIError.
Proof. vm_compute. done. Qed.

(** C5 (amended). The extraction never ends the process. When the first
    rule matches, its value decides alone: the result is the decoded
    value, and a value that does not decode makes the extraction throw
    the URIError, the second rule and the URL not being consulted, so
    that the resolution of the file name throws as well. This is the only
    throw: a header that the first rule does not match never throws, the
    second rule is tried, and the result is a name or no match. *)
Theorem extraction_throws_only_on_decoding cd :
  (∀ n, extractFilenameFromContentDisposition cd ≠ Exit n)
  ∧ (∀ g, re_search utf8_re_at cd = Some g →
       extractFilenameFromContentDisposition cd
       = match decode_from 0 [] g with
         | Some f => Ok (Some f)
         | None => Throw URIError
         end)
  ∧ (∀ g env url,
       re_search utf8_re_at cd = Some g → decode_from 0 [] g = None →
       extractFilenameFromContentDisposition cd = Throw URIError
       ∧ resolve_filename env (Some cd) url = Throw URIError)
  ∧ (∀ e, extractFilenameFromContentDisposition cd = Throw e →
       e = URIError
       ∧ ∃ g, re_search utf8_re_at cd = Some g ∧ decode_from 0 [] g = None)
  ∧ (re_search utf8_re_at cd = None →
       extractFilenameFromContentDisposition cd
       = match re_search filename_re_at cd with
         | Some g => if negb (is_empty g) then Ok (Some (remove_quotes g))
                     else Ok None
         | None => Ok None
         end).
Proof.
  assert (Hmatch : ∀ g, re_search utf8_re_at cd = Some g →
            extractFilenameFromContentDisposition cd
            = match decode_from 0 [] g with
              | Some f => Ok (Some f)
              | None => Throw URIError
              end).
  { intros g Hg. rewrite extract_cases.
    destruct (utf8_search_nonempty cd g Hg) as [-> Hne].
    by rewrite Hg, Hne. }
  split; [|split; [exact Hmatch|split]].
  - rewrite extract_cases.
    destruct (is_empty cd); [done|].
    destruct (re_search utf8_re_at cd) as [g|].
    + destruct (negb (is_empty g)); [|done].
      by destruct (decode_from 0 [] g).
    + destruct (re_search filename_re_at cd) as [g|]; [|done].
      by destruct (negb (is_empty g)).
  - intros g env url Hg Hdec.
    assert (Hthrow : extractFilenameFromContentDisposition cd
                     = Throw URIError)
      by (by rewrite (Hmatch g Hg), Hdec).
    split; [done|]. unfold resolve_filename.
    change (default [] (Some cd)) with cd. by rewrite Hthrow.
  - rewrite extract_cases.
    destruct (is_empty cd) eqn:Hcd.
    { split; [done|]. intros _. destruct cd; [done|discriminate]. }
    destruct (re_search utf8_re_at cd) as [g|].
    + destruct (negb (is_empty g)); [|by split].
      destruct (decode_from 0 [] g) eqn:E; [by split|].
      split; [|done]. intros e He. inversion He. eauto.
    + split; [|done]. intros e He.
      destruct (re_search filename_re_at cd) as [g|]; [|done].
      by destruct (negb (is_empty g)).
Qed.

(** The throw of the malformed example comes from the first rule, whose
    value does not decode. *)
Lemma extraction_throws_only_on_decoding_witness :
  re_search utf8_re_at malformed_header = Some (u16 "%ZZ.rar")
  ∧ decode_from 0 [] (u16 "%ZZ.rar") = None
  ∧ extractFilenameFromContentDisposition malformed_header = Throw URIError
  ∧ resolve_filename (game_env false) (Some malformed_header) game_url
    = Throw URIError.
Proof.
  split; [vm_compute; reflexivity|]. split; [vm_compute; reflexivity|].
  apply (proj1 (proj2 (proj2
           (extraction_throws_only_on_decoding malformed_header)))
           (u16 "%ZZ.rar") (game_env false) game_url).
  - vm_compute. reflexivity.
  - vm_compute. reflexivity.
Defined.

(** C8, as stated, fails: an apostrophe inside a quoted name is removed
    with the surrounding quotes. *)
Lemma interior_apostrophe_is_removed :
  extractFilenameFromContentDisposition
    (attachment_header dquote (u16 "it's.zip"))
  = Ok (Some (u16 "its.zip"))
  ∧ extractFilenameFromContentDisposition
      (attachment_header dquote (u16 "it's.zip"))
    ≠ Ok (Some (u16 "it's.zip")).
Proof. vm_compute. split; [reflexivity|discriminate]. Qed.

Lemma filename_value_quoted q name :
  is_quote q = true → q ∉ name →
  Forall (λ c, is_line_terminator c = false) name →
  filename_value (q :: name ++ [q]) = q :: name ++ [q].
Proof.
  intros Hq Hin Hlt. unfold filename_value, quoted_alt.
  rewrite Hq. by rewrite lazy_until_closing.
Qed.

Lemma lit_ci_refl p r : lit_ci p (p ++ r) = Some r.
Proof. induction p as [|a p IH]; simpl; [done|]. by rewrite N.eqb_refl. Qed.

Lemma filename_re_at_head c s :
  (canonicalize (code "f") =? canonicalize c)%N = false →
  filename_re_at (c :: s) = None.
Proof.
  intros H. unfold filename_re_at.
  change (u16 "filename") with (code "f" :: u16 "ilename").
  cbn [lit_ci]. by rewrite H.
Qed.

Lemma re_search_skip_heads pre rest :
  Forall (λ c, (canonicalize (code "f") =? canonicalize c)%N = false) pre →
  re_search filename_re_at (pre ++ rest) = re_search filename_re_at rest.
Proof.
  induction 1 as [|c pre Hc _ IH]; [done|].
  cbn [app re_search]. by rewrite filename_re_at_head.
Qed.

Lemma filename_re_at_parameter v :
  filename_re_at (u16 "filename=" ++ v) = Some (filename_value v).
Proof.
  unfold filename_re_at.
  change (u16 "filename=" ++ v) with (u16 "filename" ++ 61%N :: v).
  rewrite lit_ci_refl. reflexivity.
Qed.

Lemma attachment_search v :
  re_search filename_re_at (u16 "attachment; filename=" ++ v)
  = Some (filename_value v).
Proof.
  change (u16 "attachment; filename=" ++ v)
    with (u16 "attachment; " ++ u16 "filename=" ++ v).
  rewrite re_search_skip_heads by (vm_compute; repeat constructor).
  destruct (u16 "filename=" ++ v) as [|c0 s0] eqn:E; [discriminate|].
  cbn [re_search]. by rewrite <- E, filename_re_at_parameter.
Qed.

(** C8 (amended). When the first rule does not match, a name taken from
    the [filename=] parameter is the matched value with every quote and
    apostrophe removed, the interior ones included: for a value between
    two quotes [q] the result is the text between them without its quote
    characters, and for a bare value it is the run up to the next
    semicolon without its quote characters. *)
Theorem filename_parameter_drops_every_quote cd :
  re_search utf8_re_at cd = None →
  (∀ f, extractFilenameFromContentDisposition cd = Ok (Some f) →
        Forall (λ c, is_quote c = false) f
        ∧ ∃ g, re_search filename_re_at cd = Some g ∧ f = remove_quotes g)
  ∧ (∀ q name,
       cd = attachment_header q name →
       is_quote q = true → q ∉ name →
       Forall (λ c, is_line_terminator c = false) name →
       extractFilenameFromContentDisposition cd
       = Ok (Some (remove_quotes name)))
  ∧ (∀ v,
       cd = u16 "attachment; filename=" ++ v →
       quoted_alt v = None →
       extractFilenameFromContentDisposition cd
       = match take_while (λ c, negb (is_one_of [code ";"; 10%N] c)) v with
         | [] => Ok None
         | token => Ok (Some (remove_quotes token))
         end).
Proof.
  intros Hno. split_and!.
  - intros f. rewrite extract_cases, Hno.
    destruct (is_empty cd); [done|].
    destruct (re_search filename_re_at cd) as [g|]; [|done].
    destruct (negb (is_empty g)); [|done].
    intros H. inversion H. split; [apply remove_quotes_clean|eauto].
  - intros q name -> Hq Hin Hlt.
    rewrite extract_cases, Hno. unfold attachment_header.
    rewrite attachment_search, filename_value_quoted by done.
    simpl. f_equal. f_equal. unfold remove_quotes.
    simpl. rewrite Hq. simpl. rewrite List.filter_app. simpl.
    rewrite Hq. simpl. by rewrite app_nil_r.
  - intros v -> Hq.
    rewrite extract_cases, Hno, attachment_search.
    unfold filename_value. rewrite Hq.
    by destruct (take_while _ v).
Qed.

(** The quoted name with an apostrophe. *)
Lemma filename_parameter_drops_every_quote_witness :
  re_search utf8_re_at (attachment_header dquote (u16 "it's.zip")) = None
  ∧ extractFilenameFromContentDisposition
      (attachment_header dquote (u16 "it's.zip"))
    = Ok (Some (remove_quotes (u16 "it's.zip")))
  ∧ remove_quotes (u16 "it's.zip") = u16 "its.zip".
Proof.
  split; [vm_compute; reflexivity|]. split; [|vm_compute; reflexivity].
  apply (proj1 (proj2 (filename_parameter_drops_every_quote
                  (attachment_header dquote (u16 "it's.zip"))
                  ltac:(vm_compute; reflexivity)))
           dquote (u16 "it's.zip")).
  - reflexivity.
  - reflexivity.
  - vm_compute. intros H. repeat (apply elem_of_cons in H as [H|H]; [discriminate|]).
    by apply elem_of_nil in H.
  - vm_compute. repeat constructor.
Defined.

(** ** Link discovery *)

Lemma startsWith_prefix s p : startsWith s p = true ↔ ∃ r, s = p ++ r.
Proof.
  revert p. induction s as [|c s IH]; intros [|a p]; simpl.
  - split; [intros _; by exists []|done].
  - split; [done|]. by intros [r Hr].
  - split; [intros _; by exists (c :: s)|done].
  - rewrite andb_true_iff, N.eqb_eq, IH. split.
    + intros [-> [r ->]]. eauto.
    + intros [r Hr]. inversion Hr. eauto.
Qed.

Lemma href_matches_spec prefix a :
  href_matches prefix a = true
  ↔ ∃ raw, attr_href a = Some raw ∧ raw ≠ [] ∧ startsWith raw prefix = true.
Proof.
  unfold href_matches. destruct (attr_href a) as [h|].
  - rewrite andb_true_iff, negb_true_iff. split.
    + intros [H1 H2]. exists h. split_and!; [done| |done]. by intros ->.
    + intros (raw & Hraw & Hne & Hs). inversion Hraw; subst.
      split; [by destruct raw|done].
  - split; [done|]. by intros (raw & ? & _).
Qed.

Lemma map_has_elem k m : map_has k m = true ↔ k ∈ m.*1.
Proof.
  unfold map_has. induction m as [|[k' v] m IH]; simpl.
  - split; [done|]. intros H. by apply elem_of_nil in H.
  - rewrite orb_true_iff, IH, elem_of_cons. unfold jseq.
    rewrite bool_decide_eq_true. split; (intros [H|H]; [left|right]); done.
Qed.

Lemma dedup_fold items : ∀ m,
  fold_left dedup_step items m
  = m ++ ((λ it, (href it, it)) <$> first_occurrences (m.*1) items).
Proof.
  induction items as [|it items IH]; intros m; simpl.
  - by rewrite app_nil_r.
  - unfold dedup_step at 2. unfold map_set.
    destruct (map_has (href it) m) eqn:E; simpl.
    + apply map_has_elem in E. rewrite bool_decide_eq_true_2 by done.
      apply IH.
    + assert (href it ∉ m.*1) as Hn.
      { intros H. apply map_has_elem in H. congruence. }
      rewrite bool_decide_eq_false_2 by done.
      rewrite IH, fmap_app. simpl. by rewrite <- app_assoc.
Qed.

Lemma dedup_links_first_occurrences items :
  dedup_links items = first_occurrences [] items.
Proof.
  unfold dedup_links. rewrite dedup_fold. simpl.
  rewrite <- list_fmap_compose. apply list_fmap_id.
Qed.

Lemma first_occurrences_fresh items : ∀ seen it,
  it ∈ first_occurrences seen items → href it ∉ seen.
Proof.
  induction items as [|x items IH]; intros seen it; simpl.
  - intros H. by apply elem_of_nil in H.
  - case_bool_decide as Hx; [apply IH|].
    intros H. apply elem_of_cons in H as [->|H]; [done|].
    apply IH in H. intros Hs. apply H. apply elem_of_app. by left.
Qed.

Lemma first_occurrences_NoDup items : ∀ seen,
  NoDup (href <$> first_occurrences seen items).
Proof.
  induction items as [|x items IH]; intros seen; simpl; [constructor|].
  case_bool_decide as Hx; [apply IH|].
  simpl. constructor; [|apply IH].
  intros H. apply list_elem_of_fmap in H as (it & Heq & Hit).
  apply first_occurrences_fresh in Hit. apply Hit.
  apply elem_of_app. right. rewrite <- Heq. by left.
Qed.

Lemma first_occurrences_sublist items : ∀ seen,
  sublist (first_occurrences seen items) items.
Proof.
  induction items as [|x items IH]; intros seen; simpl; [constructor|].
  case_bool_decide; [by apply sublist_cons|by apply sublist_skip].
Qed.

Lemma first_occurrences_complete items : ∀ seen it,
  it ∈ items →
  href it ∈ seen ∨ href it ∈ href <$> first_occurrences seen items.
Proof.
  induction items as [|x items IH]; intros seen it Hit.
  - by apply elem_of_nil in Hit.
  - simpl. apply elem_of_cons in Hit as [->|Hit].
    + case_bool_decide; [by left|]. right. simpl. by left.
    + case_bool_decide as Hx; [by apply IH|].
      destruct (IH (seen ++ [href x]) it Hit) as [H|H].
      * apply elem_of_app in H as [H|H]; [by left|].
        apply list_elem_of_singleton in H. right. simpl. rewrite H. by left.
      * right. simpl. by right.
Qed.

Lemma first_occurrences_first items : ∀ seen it,
  it ∈ first_occurrences seen items →
  ∃ before after,
    items = before ++ it :: after ∧ href it ∉ href <$> before.
Proof.
  induction items as [|x items IH]; intros seen it; simpl.
  - intros H. by apply elem_of_nil in H.
  - case_bool_decide as Hx.
    + intros H. pose proof (first_occurrences_fresh _ _ _ H) as Hf.
      destruct (IH _ _ H) as (before & after & -> & Hb).
      exists (x :: before), after. split; [done|].
      simpl. apply not_elem_of_cons. split; [|done]. congruence.
    + intros H. apply elem_of_cons in H as [->|H].
      * exists [], items. split; [done|]. simpl. apply not_elem_of_nil.
      * pose proof (first_occurrences_fresh _ _ _ H) as Hf.
        destruct (IH _ _ H) as (before & after & -> & Hb).
        exists (x :: before), after. split; [done|].
        simpl. apply not_elem_of_cons. split; [|done].
        intros Heq. apply Hf. apply elem_of_app. right. rewrite Heq. by left.
Qed.

Section Links.

Variable env : Env.

Lemma map_anchors_items url anchors : ∀ items,
  map_anchors env url anchors = Ok (Some <$> items) →
  Forall2 (item_of_anchor env url) anchors items.
Proof.
  induction anchors as [|a anchors IH]; intros items; simpl.
  - destruct items; [constructor|done].
  - unfold link_of_anchor.
    destruct (attr_href a) as [raw|] eqn:Hraw.
    + destruct (is_empty raw) eqn:Hempty.
      * destruct (map_anchors env url anchors); [|done..].
        by destruct items.
      * destruct (url_href env raw url) as [h|] eqn:Hh; [|done].
        destruct (map_anchors env url anchors) as [its| |]; [|done..].
        destruct items as [|it items]; [done|]. simpl.
        intros H. inversion H; subst. constructor; [|by apply IH].
        exists raw. split_and!; [done| |done|done]. by intros ->.
    + destruct (map_anchors env url anchors); [|done..].
      by destruct items.
Qed.

Lemma map_anchors_total url prefix anchors :
  Forall (λ a, href_matches prefix a = true) anchors →
  (∀ a raw, a ∈ anchors → attr_href a = Some raw →
            is_Some (url_href env raw url)) →
  ∃ items, map_anchors env url anchors = Ok (Some <$> items).
Proof.
  induction 1 as [|a anchors Ha _ IH]; intros Hres.
  - by exists [].
  - destruct IH as [items Hitems].
    { intros a' raw Ha'. apply Hres. by right. }
    apply href_matches_spec in Ha as (raw & Hraw & Hne & _).
    destruct (Hres a raw ltac:(by left) Hraw) as [h Hh].
    exists ({| href := h; text := trim (textContent a) |} :: items).
    simpl. unfold link_of_anchor. rewrite Hraw.
    destruct raw; [done|]. simpl. by rewrite Hh, Hitems.
Qed.

Lemma map_anchors_throws url anchors a raw :
  a ∈ anchors → attr_href a = Some raw → raw ≠ [] →
  url_href env raw url = None →
  map_anchors env url anchors = Throw TypeError.
Proof.
  intros Ha Hraw Hne Hnone.
  induction anchors as [|a0 anchors IH]; [by apply elem_of_nil in Ha|].
  cbn [map_anchors].
  apply elem_of_cons in Ha as [<-|Ha].
  - unfold link_of_anchor. rewrite Hraw.
    destruct raw; [done|]. cbn [is_empty]. by rewrite Hnone.
  - rewrite (IH Ha). unfold link_of_anchor.
    destruct (attr_href a0) as [r0|]; [|done].
    destruct (is_empty r0); [done|].
    by destruct (url_href env r0 url).
Qed.

Lemma getDownloadLinks_throws url prefix w data a raw :
  axios_get_page env url = Some data →
  a ∈ List.filter (href_matches prefix)
        (flat_map findAll_anchors (parseDocument env data)) →
  attr_href a = Some raw →
  url_href env raw url = None →
  (getDownloadLinks env url prefix w).2 = Throw TypeError.
Proof.
  intros Hdata Ha Hraw Hnone.
  assert (raw ≠ []) as Hne.
  { apply list_elem_of_In, filter_In in Ha as [_ Ha].
    apply href_matches_spec in Ha as (raw' & Hraw' & Hne & _). congruence. }
  pose proof (map_anchors_throws url _ a raw Ha Hraw Hne Hnone) as Hthrow.
  unfold getDownloadLinks, axios_page.
  unfold bind, lift, ret. by rewrite emit_eq, Hdata, Hthrow.
Qed.

Lemma omap_id_Some {A} (l : list A) : omap id (Some <$> l) = l.
Proof. induction l as [|x l IH]; [done|]. simpl. f_equal. exact IH. Qed.

Lemma getDownloadLinks_eq url prefix w data items :
  axios_get_page env url = Some data →
  map_anchors env url
    (List.filter (href_matches prefix)
       (flat_map findAll_anchors (parseDocument env data)))
  = Ok (Some <$> items) →
  getDownloadLinks env url prefix w
  = ({| fs := fs w; trace := trace w ++ [EvRequest url] |},
     Ok (dedup_links items)).
Proof.
  intros Hdata Hitems. unfold getDownloadLinks, axios_page.
  unfold bind, lift, ret. rewrite emit_eq, Hdata, Hitems.
  by rewrite omap_id_Some.
Qed.

End Links.

(** C4, as stated, fails: an anchor whose raw href is empty starts with
    the empty prefix and is not returned; and an href that the URL
    constructor rejects makes the call throw instead of returning. *)
Lemma empty_href_is_not_returned :
  attr_href (anchor [] (u16 "here")) = Some []
  ∧ startsWith [] [] = true
  ∧ (getDownloadLinks empty_href_env repack_url [] empty_world).2 = Ok []
  ∧ startsWith bad_port_href HOST_PREFIX = true
  ∧ (getDownloadLinks bad_port_env repack_url HOST_PREFIX empty_world).2
    = Throw TypeError.
Proof. vm_compute. done. Qed.

(** C4 (amended). Among the anchors of the page in document order, those
    with a non-empty raw href that starts with the prefix are kept; when
    the URL constructor accepts each of them against the page URL, the
    call returns their items deduplicated by resolved href: no href
    twice, the order of the page, every kept anchor represented, each
    returned item the first one with its href; when it rejects one of
    them the call throws. For the page of the scenario the result is the
    items for [/a] and [/b], in that order. *)
Theorem discovered_links_are_first_occurrences :
  (∀ env url prefix w data,
     let anchors := flat_map findAll_anchors (parseDocument env data) in
     let kept := List.filter (href_matches prefix) anchors in
     axios_get_page env url = Some data →
     (∀ a, a ∈ kept ↔
           a ∈ anchors
           ∧ ∃ raw, attr_href a = Some raw ∧ raw ≠ []
                    ∧ startsWith raw prefix = true)
     ∧ ((∀ a raw, a ∈ kept → attr_href a = Some raw →
                  is_Some (url_href env raw url)) →
        ∃ items,
          Forall2 (item_of_anchor env url) kept items
          ∧ (getDownloadLinks env url prefix w).2 = Ok (dedup_links items)
          ∧ NoDup (href <$> dedup_links items)
          ∧ sublist (dedup_links items) items
          ∧ (∀ it, it ∈ items → href it ∈ href <$> dedup_links items)
          ∧ (∀ it, it ∈ dedup_links items → first_with_href items it))
     ∧ (∀ a raw, a ∈ kept → attr_href a = Some raw →
                 url_href env raw url = None →
                 (getDownloadLinks env url prefix w).2 = Throw TypeError))
  ∧ (getDownloadLinks repack_env repack_url HOST_PREFIX empty_world).2
    = Ok repack_links.
Proof.
  split; [|vm_compute; reflexivity].
  intros env url prefix w data anchors kept Hdata.
  split_and!.
  - intros a. unfold kept.
    rewrite <- href_matches_spec, !list_elem_of_In, filter_In. done.
  - intros Hres.
    destruct (map_anchors_total env url prefix kept) as [items Hitems];
      [|done|].
    { apply Forall_forall. intros a Ha.
      by apply list_elem_of_In, filter_In in Ha as [_ Ha]. }
    exists items. rewrite dedup_links_first_occurrences. split_and!.
    + by apply map_anchors_items.
    + rewrite (getDownloadLinks_eq env url prefix w data items) by done.
      by rewrite dedup_links_first_occurrences.
    + apply first_occurrences_NoDup.
    + apply first_occurrences_sublist.
    + intros it Hit.
      destruct (first_occurrences_complete items [] it Hit) as [H|H]; [|done].
      by apply elem_of_nil in H.
    + intros it Hit. by apply first_occurrences_first in Hit.
  - intros a raw Ha Hraw Hnone.
    by apply (getDownloadLinks_throws env url prefix w data a raw).
Qed.

(** The page of the scenario: three kept anchors, two links. *)
Lemma discovered_links_are_first_occurrences_witness :
  axios_get_page repack_env repack_url = Some (u16 "<!doctype html>...")
  ∧ ∃ items,
      Forall2 (item_of_anchor repack_env repack_url)
        [ anchor link_a (u16 " Part 1 ");
          anchor link_a (u16 "Part 1 again");
          anchor link_b (u16 "Part 2") ]
        items
      ∧ (getDownloadLinks repack_env repack_url HOST_PREFIX empty_world).2
        = Ok (dedup_links items)
      ∧ NoDup (href <$> dedup_links items)
      ∧ sublist (dedup_links items) items
      ∧ (∀ it, it ∈ items → href it ∈ href <$> dedup_links items)
      ∧ (∀ it, it ∈ dedup_links items → first_with_href items it).
Proof.
  split; [reflexivity|].
  apply (proj1 (proj2 (proj1 discovered_links_are_first_occurrences
           repack_env repack_url HOST_PREFIX empty_world
           (u16 "<!doctype html>...") eq_refl))).
  intros a raw Ha Hraw.
  change (a ∈ [ anchor link_a (u16 " Part 1 ");
                anchor link_a (u16 "Part 1 again");
                anchor link_b (u16 "Part 2") ]) in Ha.
  repeat (apply elem_of_cons in Ha as [->|Ha]);
    [| | |by apply elem_of_nil in Ha];
    vm_compute in Hraw; inversion Hraw; subst raw; vm_compute; eauto.
Defined.

(** ** The command *)

Section Command.

Variable env : Env.

Lemma download_never_exits url outputDir cb w w' n :
  downloadFileWithProgress env url outputDir cb w ≠ (w', Exit n).
Proof.
  intros H.
  destruct (download_resolved env _ _ _ _ _ _ H)
    as [(res & filename & Hres & Hname)|[[?|[?|?]] _]]; try discriminate.
  pose proof (download_inv env _ _ _ _ _ _ _ _ H Hres Hname) as Hinv.
  cbv zeta in Hinv.
  destruct Hinv as [(? & _)|(_ & [(_ & ? & _)|(_ & Hinv)])];
    try discriminate.
  destruct Hinv as [(? & _)|[(? & _)|(_ & Hinv)]]; try discriminate.
  destruct Hinv as [(_ & ? & _)|(_ & [(? & _)|(? & _)])]; discriminate.
Qed.

Lemma getNestedDownloadLink_eq url w :
  getNestedDownloadLink env url w
  = ({| fs := fs w; trace := trace w ++ [EvRequest url] |},
     match axios_get_page env url with
     | Some data => Ok (re_search window_open_at data)
     | None => Throw AxiosError
     end).
Proof.
  unfold getNestedDownloadLink, axios_page, bind, ret. rewrite emit_eq.
  by destruct (axios_get_page env url).
Qed.

Lemma window_open_at_nonempty s g : window_open_at s = Some g → g ≠ [].
Proof.
  unfold window_open_at.
  destruct (lit _ s) as [r|]; cbn [mbind option_bind]; [|done].
  destruct (drop_while is_space r) as [|q r1]; [done|].
  destruct (is_quote q); [|done].
  destruct (take_while _ r1) as [|c g'] eqn:E; cbn [is_empty]; [done|].
  destruct (drop_while _ r1) as [|q2 r2]; [done|].
  destruct (drop_while is_space r2) as [|c' r3]; [done|].
  destruct (c' =? code ")")%N; [|done]. intros H. by inversion H.
Qed.

Lemma re_search_window_open_nonempty data g :
  re_search window_open_at data = Some g → g ≠ [].
Proof.
  induction data as [|c data IH]; cbn [re_search].
  - destruct (window_open_at []) eqn:E; [|done].
    intros H. inversion H; subst. by apply window_open_at_nonempty in E.
  - destruct (window_open_at (c :: data)) eqn:E; [|done].
    intros H. inversion H; subst. by apply window_open_at_nonempty in E.
Qed.

Lemma downloadWithProgressBar_eq url outputDir w :
  downloadWithProgressBar env url outputDir w
  = match downloadFileWithProgress env url outputDir true w with
    | (w', Ok _) => (w', Ok tt)
    | (w', Throw e) => (w', Throw e)
    | (w', Exit n) => (w', Exit n)
    end.
Proof.
  unfold downloadWithProgressBar, try_catch, bind, ret, throw.
  by destruct (downloadFileWithProgress env url outputDir true w)
    as [w' [p|e|n]].
Qed.

(** One turn of the loop, by what happens to the link. *)
Lemma process_link_cases outputDir dLink s f w :
  let w1 := {| fs := fs w; trace := trace w ++ [EvRequest (href dLink)] |} in
  process_link env outputDir dLink (s, f) w
  = match axios_get_page env (href dLink) with
    | None => (w1, Ok (s, S f))
    | Some data =>
        match re_search window_open_at data with
        | None => (w1, Ok (s, S f))
        | Some n =>
            match downloadFileWithProgress env n outputDir true w1 with
            | (w2, Ok _) => (w2, Ok (S s, f))
            | (w2, _) => (w2, Ok (s, S f))
            end
        end
    end.
Proof.
  intros w1. unfold process_link, try_catch.
  unfold bind at 1. rewrite getNestedDownloadLink_eq. fold w1.
  destruct (axios_get_page env (href dLink)) as [data|]; [|done].
  destruct (re_search window_open_at data) as [n|] eqn:E; [|done].
  apply re_search_window_open_nonempty in E.
  destruct n as [|c n]; [done|]. simpl.
  unfold bind. rewrite downloadWithProgressBar_eq.
  destruct (downloadFileWithProgress env (c :: n) outputDir true w1)
    as [w2 [p|e|k]] eqn:Hd; try done.
  by apply download_never_exits in Hd.
Qed.

Lemma process_link_total outputDir dLink s f w :
  ∃ w', process_link env outputDir dLink (s, f) w = (w', Ok (S s, f))
        ∨ process_link env outputDir dLink (s, f) w = (w', Ok (s, S f)).
Proof.
  rewrite process_link_cases. cbv zeta.
  destruct (axios_get_page env (href dLink)) as [data|]; [|eauto].
  destruct (re_search window_open_at data) as [n|]; [|eauto].
  destruct (downloadFileWithProgress _ _ _ _ _) as [w2 [p|e|k]]; eauto.
Qed.

Lemma process_links_total outputDir links : ∀ s f w,
  ∃ w' s' f',
    process_links env outputDir links (s, f) w = (w', Ok (s', f'))
    ∧ s' + f' = s + f + length links ∧ s ≤ s' ∧ f ≤ f'.
Proof.
  induction links as [|dLink links IH]; intros s f w.
  - exists w, s, f. simpl. split; [done|lia].
  - cbn [process_links]. unfold bind.
    destruct (process_link_total outputDir dLink s f w) as [w1 [H|H]];
      rewrite H.
    + destruct (IH (S s) f w1) as (w' & s' & f' & -> & Hsum & Hs & Hf).
      exists w', s', f'. split; [done|]. simpl. lia.
    + destruct (IH s (S f) w1) as (w' & s' & f' & -> & Hsum & Hs & Hf).
      exists w', s', f'. split; [done|]. simpl. lia.
Qed.

Lemma getDownloadLinks_offline url prefix w :
  axios_get_page env url = None →
  getDownloadLinks env url prefix w
  = ({| fs := fs w; trace := trace w ++ [EvRequest url] |}, Throw AxiosError).
Proof.
  intros H. unfold getDownloadLinks, axios_page, bind. rewrite emit_eq.
  by rewrite H.
Qed.

Lemma downloadGame_fatal url outputDir skip w w1 e :
  getDownloadLinks env url HOST_PREFIX w = (w1, Throw e) →
  downloadGame env url outputDir skip w = (w1, Exit 1).
Proof.
  intros H. unfold downloadGame, bind, try_catch. by rewrite H.
Qed.

(** A run that reaches the loop: the counters of the loop decide how the
    call ends. *)
Lemma downloadGame_loop url outputDir skip w w1 dLinks selected :
  getDownloadLinks env url HOST_PREFIX w = (w1, Ok dLinks) →
  dLinks ≠ [] →
  (skip = true ∧ selected = dLinks
   ∨ skip = false ∧ prompt_checkbox env dLinks = Some selected
     ∧ selected ≠ [] ∧ prompt_confirm env = Some true) →
  ∃ w2 s f,
    process_links env outputDir selected (0, 0) w1 = (w2, Ok (s, f))
    ∧ s + f = length selected
    ∧ downloadGame env url outputDir skip w
      = (w2, if 0 <? f then Exit 1 else Ok tt).
Proof.
  intros Hlinks Hne Hsel.
  destruct (process_links_total outputDir selected 0 0 w1)
    as (w2 & s & f & Hloop & Hsum & _ & _).
  exists w2, s, f. split; [done|]. split; [lia|].
  unfold downloadGame. unfold bind at 1. unfold try_catch.
  rewrite Hlinks. destruct dLinks as [|d0 dLinks]; [done|].
  cbn [is_nil].
  destruct Hsel as [[-> ->]|(-> & Hcb & Hsne & Hcf)].
  - unfold bind at 1. cbn [select_links]. unfold ret at 1.
    unfold bind at 1. cbn [confirm_start negb]. unfold ret at 1.
    unfold bind. rewrite Hloop. cbn [snd]. by destruct (0 <? f).
  - unfold bind at 1. cbn [select_links]. rewrite Hcb.
    destruct selected as [|s0 selected]; [done|]. cbn [is_nil].
    unfold ret at 1.
    unfold bind at 1. cbn [confirm_start negb]. rewrite Hcf.
    cbn [negb]. unfold ret at 1.
    unfold bind. rewrite Hloop. cbn [snd]. by destruct (0 <? f).
Qed.

(** The ways in which downloadGame ends once the links are fetched. *)
Lemma downloadGame_ends url outputDir skip w w1 dLinks :
  getDownloadLinks env url HOST_PREFIX w = (w1, Ok dLinks) →
  let run := downloadGame env url outputDir skip w in
  (dLinks = [] ∧ run = (w1, Exit 0))
  ∨ (dLinks ≠ [] ∧ skip = false
     ∧ (prompt_checkbox env dLinks = None ∧ run = (w1, Throw PromptError)
        ∨ prompt_checkbox env dLinks = Some [] ∧ run = (w1, Exit 0)
        ∨ ∃ selected,
            prompt_checkbox env dLinks = Some selected ∧ selected ≠ []
            ∧ (prompt_confirm env = None ∧ run = (w1, Throw PromptError)
               ∨ prompt_confirm env = Some false ∧ run = (w1, Exit 0))))
  ∨ (∃ selected w2 s f,
       dLinks ≠ []
       ∧ (skip = true ∧ selected = dLinks
          ∨ skip = false ∧ prompt_checkbox env dLinks = Some selected
            ∧ selected ≠ [] ∧ prompt_confirm env = Some true)
       ∧ process_links env outputDir selected (0, 0) w1 = (w2, Ok (s, f))
       ∧ s + f = length selected
       ∧ run = (w2, if 0 <? f then Exit 1 else Ok tt)).
Proof.
  intros Hl run.
  destruct dLinks as [|d0 dLinks].
  { left. split; [done|]. unfold run, downloadGame, bind, try_catch.
    by rewrite Hl. }
  assert (Hloop : ∀ selected,
            skip = true ∧ selected = d0 :: dLinks
            ∨ skip = false ∧ prompt_checkbox env (d0 :: dLinks) = Some selected
              ∧ selected ≠ [] ∧ prompt_confirm env = Some true →
            ∃ selected w2 s f,
              d0 :: dLinks ≠ []
              ∧ (skip = true ∧ selected = d0 :: dLinks
                 ∨ skip = false
                   ∧ prompt_checkbox env (d0 :: dLinks) = Some selected
                   ∧ selected ≠ [] ∧ prompt_confirm env = Some true)
              ∧ process_links env outputDir selected (0, 0) w1
                = (w2, Ok (s, f))
              ∧ s + f = length selected
              ∧ run = (w2, if 0 <? f then Exit 1 else Ok tt)).
  { intros selected Hsel.
    destruct (downloadGame_loop url outputDir skip w w1 (d0 :: dLinks)
                selected Hl ltac:(done) Hsel)
      as (w2 & s & f & Hp & Hsum & Hrun).
    by exists selected, w2, s, f. }
  destruct skip.
  { right. right. apply (Hloop (d0 :: dLinks)). by left. }
  destruct (prompt_checkbox env (d0 :: dLinks)) as [selected|] eqn:Hcb.
  2:{ right. left. split_and!; [done|done|]. left. split; [done|].
      unfold run, downloadGame. unfold bind at 1. unfold try_catch.
      rewrite Hl. cbn [is_nil]. unfold bind, select_links. by rewrite Hcb. }
  destruct selected as [|s0 selected].
  { right. left. split_and!; [done|done|]. right. left. split; [done|].
    unfold run, downloadGame. unfold bind at 1. unfold try_catch.
    rewrite Hl. cbn [is_nil]. unfold bind, select_links. by rewrite Hcb. }
  destruct (prompt_confirm env) as [[]|] eqn:Hcf.
  - right. right. apply (Hloop (s0 :: selected)). right. done.
  - right. left. split_and!; [done|done|]. right. right.
    exists (s0 :: selected). split_and!; [done|done|]. right. split; [done|].
    unfold run, downloadGame. unfold bind at 1. unfold try_catch.
    rewrite Hl. cbn [is_nil]. unfold bind at 1. unfold select_links.
    rewrite Hcb. cbn [is_nil]. unfold ret at 1.
    unfold bind, confirm_start. cbn [negb]. by rewrite Hcf.
  - right. left. split_and!; [done|done|]. right. right.
    exists (s0 :: selected). split_and!; [done|done|]. left. split; [done|].
    unfold run, downloadGame. unfold bind at 1. unfold try_catch.
    rewrite Hl. cbn [is_nil]. unfold bind at 1. unfold select_links.
    rewrite Hcb. cbn [is_nil]. unfold ret at 1.
    unfold bind, confirm_start. cbn [negb]. by rewrite Hcf.
Qed.

End Command.

(** C9, as stated, fails: with the links fetched and all of them
    selected, an aborted confirmation ends the process with status 1
    although no link was processed and no failure counted. *)
Lemma aborted_confirmation_exits_nonzero :
  (getDownloadLinks abort_confirm_env repack_url HOST_PREFIX empty_world).2
  = Ok repack_links
  ∧ prompt_checkbox abort_confirm_env repack_links = Some repack_links
  ∧ prompt_confirm abort_confirm_env = None
  ∧ action abort_confirm_env (Some repack_url) downloads false empty_world
    = ((getDownloadLinks abort_confirm_env repack_url HOST_PREFIX
          empty_world).1, Exit 1)
  ∧ new_events empty_world
      (action abort_confirm_env (Some repack_url) downloads false
         empty_world).1
    = [EvRequest repack_url]
  ∧ exit_status
      (action abort_confirm_env (Some repack_url) downloads false
         empty_world).2 ≠ 0%Z.
Proof. vm_compute. split_and!; done. Qed.

(** C9 (amended). In the loop over the selected links, a nested page that
    cannot be fetched, a nested page without the redirect, and a download
    that throws each add one to the failure counter and the loop goes on
    with the next link; a call that fails to get the links of the first
    page ends the process with status 1 before any link is processed.
    Once the links are fetched, the command ends in one of three ways:
    with status 0 and no link processed when there is no link, the
    selection is empty or the confirmation declined; with status 1 and no
    link processed, no failure being counted, when the selection or the
    confirmation is aborted; and otherwise after the loop over the
    selected links, every one of them counted once, with a non-zero
    status exactly when the failure counter is not zero. *)
Theorem cli_counts_failures_and_sets_status (env : Env) :
  (∀ outputDir dLink s f w,
     let w1 := {| fs := fs w; trace := trace w ++ [EvRequest (href dLink)] |} in
     (axios_get_page env (href dLink) = None →
        process_link env outputDir dLink (s, f) w = (w1, Ok (s, S f)))
     ∧ (∀ data, axios_get_page env (href dLink) = Some data →
          re_search window_open_at data = None →
          process_link env outputDir dLink (s, f) w = (w1, Ok (s, S f)))
     ∧ (∀ data n w2 e, axios_get_page env (href dLink) = Some data →
          re_search window_open_at data = Some n →
          downloadFileWithProgress env n outputDir true w1 = (w2, Throw e) →
          process_link env outputDir dLink (s, f) w = (w2, Ok (s, S f)))
     ∧ (∀ data n w2 p, axios_get_page env (href dLink) = Some data →
          re_search window_open_at data = Some n →
          downloadFileWithProgress env n outputDir true w1 = (w2, Ok p) →
          process_link env outputDir dLink (s, f) w = (w2, Ok (S s, f))))
  ∧ (∀ outputDir dLink rest counts w, ∃ w1 counts',
       process_link env outputDir dLink counts w = (w1, Ok counts')
       ∧ process_links env outputDir (dLink :: rest) counts w
         = process_links env outputDir rest counts' w1)
  ∧ (∀ url outputDir skip w,
       axios_get_page env url = None →
       downloadGame env url outputDir skip w
       = ({| fs := fs w; trace := trace w ++ [EvRequest url] |}, Exit 1))
  ∧ (∀ url outputDir skip w w1 e,
       getDownloadLinks env url HOST_PREFIX w = (w1, Throw e) →
       downloadGame env url outputDir skip w = (w1, Exit 1))
  ∧ (∀ url outputDir skip w w1 dLinks,
       getDownloadLinks env url HOST_PREFIX w = (w1, Ok dLinks) →
       url ≠ [] →
       let run := action env (Some url) outputDir skip w in
       (dLinks = [] ∧ run = (w1, Exit 0))
       ∨ (dLinks ≠ [] ∧ skip = false
          ∧ (prompt_checkbox env dLinks = None ∧ run = (w1, Exit 1)
             ∨ prompt_checkbox env dLinks = Some [] ∧ run = (w1, Exit 0)
             ∨ ∃ selected,
                 prompt_checkbox env dLinks = Some selected ∧ selected ≠ []
                 ∧ (prompt_confirm env = None ∧ run = (w1, Exit 1)
                    ∨ prompt_confirm env = Some false
                      ∧ run = (w1, Exit 0))))
       ∨ (∃ selected w2 s f,
            dLinks ≠ []
            ∧ (skip = true ∧ selected = dLinks
               ∨ skip = false ∧ prompt_checkbox env dLinks = Some selected
                 ∧ selected ≠ [] ∧ prompt_confirm env = Some true)
            ∧ process_links env outputDir selected (0, 0) w1
              = (w2, Ok (s, f))
            ∧ s + f = length selected
            ∧ run = (w2, if 0 <? f then Exit 1 else Ok tt)
            ∧ (exit_status run.2 ≠ 0%Z ↔ f ≠ 0))).
Proof.
  split_and!.
  - intros outputDir dLink s f w w1.
    pose proof (process_link_cases env outputDir dLink s f w) as Hc.
    cbv zeta in Hc. fold w1 in Hc. split_and!.
    + intros H. by rewrite Hc, H.
    + intros data H1 H2. by rewrite Hc, H1, H2.
    + intros data n w2 e H1 H2 H3. by rewrite Hc, H1, H2, H3.
    + intros data n w2 p H1 H2 H3. by rewrite Hc, H1, H2, H3.
  - intros outputDir dLink rest [s f] w.
    destruct (process_link_total env outputDir dLink s f w) as [w1 [H|H]];
      eexists w1, _; (split; [exact H|]);
      cbn [process_links]; unfold bind; by rewrite H.
  - intros url outputDir skip w H.
    apply (downloadGame_fatal env _ _ _ _ _ AxiosError).
    by apply getDownloadLinks_offline.
  - intros url outputDir skip w w1 e. apply downloadGame_fatal.
  - intros url outputDir skip w w1 dLinks Hl Hurl run.
    assert (Hrun : run = match downloadGame env url outputDir skip w with
                         | (w', Throw _) => (w', Exit 1)
                         | r => r
                         end).
    { unfold run, action, try_catch. destruct url as [|c url]; [done|].
      cbn [is_empty negb].
      by destruct (downloadGame env (c :: url) outputDir skip w)
        as [w' [[]|e|n]]. }
    pose proof (downloadGame_ends env url outputDir skip w w1 dLinks Hl)
      as Hends.
    cbv zeta in Hends.
    destruct Hends as [[Hd Hg]|[(Hd & Hs & Hg)|Hg]].
    + left. split; [done|]. by rewrite Hrun, Hg.
    + right. left. split_and!; [done|done|].
      destruct Hg as [[Hcb Hg]|[[Hcb Hg]|(selected & Hcb & Hne & Hg)]].
      * left. split; [done|]. by rewrite Hrun, Hg.
      * right. left. split; [done|]. by rewrite Hrun, Hg.
      * right. right. exists selected. split_and!; [done|done|].
        destruct Hg as [[Hcf Hg]|[Hcf Hg]].
        -- left. split; [done|]. by rewrite Hrun, Hg.
        -- right. split; [done|]. by rewrite Hrun, Hg.
    + right. right.
      destruct Hg as (selected & w2 & s & f & Hd & Hsel & Hp & Hsum & Hg).
      exists selected, w2, s, f.
      assert (Hr : run = (w2, if 0 <? f then Exit 1 else Ok tt)).
      { rewrite Hrun, Hg. by destruct (0 <? f). }
      split_and!; try done.
      rewrite Hr. cbn [snd].
      destruct f as [|f]; simpl; split; intros H; done || lia.
Qed.

(** The example command: the links are fetched, and the run ends in one
    of the three ways. *)
Lemma cli_counts_failures_and_sets_status_witness :
  (repack_links = []
   ∧ cli_run
     = ((getDownloadLinks cli_env repack_url HOST_PREFIX empty_world).1,
        Exit 0))
  ∨ (repack_links ≠ [] ∧ false = false
     ∧ (prompt_checkbox cli_env repack_links = None
        ∧ cli_run
          = ((getDownloadLinks cli_env repack_url HOST_PREFIX empty_world).1,
             Exit 1)
        ∨ prompt_checkbox cli_env repack_links = Some []
          ∧ cli_run
            = ((getDownloadLinks cli_env repack_url HOST_PREFIX
                  empty_world).1, Exit 0)
        ∨ ∃ selected,
            prompt_checkbox cli_env repack_links = Some selected
            ∧ selected ≠ []
            ∧ (prompt_confirm cli_env = None
               ∧ cli_run
                 = ((getDownloadLinks cli_env repack_url HOST_PREFIX
                       empty_world).1, Exit 1)
               ∨ prompt_confirm cli_env = Some false
                 ∧ cli_run
                   = ((getDownloadLinks cli_env repack_url HOST_PREFIX
                         empty_world).1, Exit 0))))
  ∨ (∃ selected w2 s f,
       repack_links ≠ []
       ∧ (false = true ∧ selected = repack_links
          ∨ false = false ∧ prompt_checkbox cli_env repack_links = Some selected
            ∧ selected ≠ [] ∧ prompt_confirm cli_env = Some true)
       ∧ process_links cli_env downloads selected (0, 0)
           (getDownloadLinks cli_env repack_url HOST_PREFIX empty_world).1
         = (w2, Ok (s, f))
       ∧ s + f = length selected
       ∧ cli_run = (w2, if 0 <? f then Exit 1 else Ok tt)
       ∧ (exit_status cli_run.2 ≠ 0%Z ↔ f ≠ 0)).
Proof.
  apply (proj2 (proj2 (proj2 (proj2
           (cli_counts_failures_and_sets_status cli_env))))
           repack_url downloads false empty_world
           (getDownloadLinks cli_env repack_url HOST_PREFIX empty_world).1
           repack_links).
  - vm_compute. reflexivity.
  - discriminate.
Defined.

(** In the example one link is downloaded and one fails: status 1. *)
Example cli_run_counts :
  ∃ w2,
    process_links cli_env downloads repack_links (0, 0)
      (getDownloadLinks cli_env repack_url HOST_PREFIX empty_world).1
    = (w2, Ok (1, 1))
    ∧ cli_run = (w2, Exit 1).
Proof. eexists. vm_compute. split; reflexivity. Qed.

(** ** More on the runs of downloadFileWithProgress *)

Lemma add_dir_other a m k : fs_key a ≠ k → add_dir a m !! k = m !! k.
Proof.
  intros Hne. unfold add_dir. destruct (m !! fs_key a); [done|].
  by rewrite lookup_insert_ne.
Qed.

Lemma add_dirs_new ds m k :
  m !! k = None → foldr add_dir m ds !! k = Some Dir →
  k ∈ fs_key <$> ds.
Proof.
  intros Hm. induction ds as [|a ds IH]; cbn [foldr fmap list_fmap]; intros H.
  - rewrite Hm in H. discriminate.
  - destruct (decide (fs_key a = k)) as [<-|Hne]; [by left|].
    right. apply IH. by rewrite add_dir_other in H.
Qed.

Lemma sample_all_received total cs : ∀ s,
  received (sample_all total s cs).2
  = (received s + Z.of_nat (length (body_bytes cs)))%Z.
Proof.
  induction cs as [|[now chunk] cs IH]; intros s.
  - simpl. lia.
  - cbn [sample_all body_bytes flat_map].
    pose proof (on_data_received total s now chunk) as Hrec.
    destruct (on_data total s now chunk) as [s1 r].
    specialize (IH s1). destruct (sample_all total s1 cs) as [rs s2].
    cbn [fst snd] in *. rewrite IH, Hrec, length_app.
    unfold body_bytes. lia.
Qed.

Section MoreDownload.

Variable env : Env.

(** X1. What is already at the destination, a regular file or a
    directory, is never touched: whatever the server sends and however the
    call ends, it is there afterwards as it was, no chunk of the body is
    read and no progress is reported; the call returns the path unless the
    directory above it cannot be made. *)
Theorem existing_destination_is_never_overwritten url outputDir onProgress
    w w' r res filename node :
  downloadFileWithProgress env url outputDir onProgress w = (w', r) →
  axios_get_stream env url = Some res →
  resolve_filename env (content_disposition res) url = Ok filename →
  fs_stat (fs w) (path_join outputDir filename) = Some node →
  fs_stat (fs w') (path_join outputDir filename) = Some node
  ∧ (r = Ok (path_join outputDir filename) ∨ r = Throw IOError)
  ∧ Forall (λ e, match e with
                 | EvData _ | EvProgress _ | EvOpen _ | EvUnlink _
                 | EvRename _ _ => False
                 | _ => True
                 end) (new_events w w').
Proof.
  intros H Hres Hname Hfile.
  pose proof (download_inv env _ _ _ _ _ _ _ _ H Hres Hname) as Hinv.
  cbv zeta in Hinv.
  set (out := path_join outputDir filename) in *.
  set (d := path_dirname out) in *.
  set (fm := foldr add_dir (fs w) (dir_chain (length d) d)) in *.
  assert (Hfm : fs_stat fm out = Some node).
  { unfold fs_stat in *.
    destruct (fs w !! fs_key out) as [n0|] eqn:E; [|done].
    destruct (add_dirs_lookup (dir_chain (length d) d) (fs w) (fs_key out))
      as [Heq|[Hn _]]; [|congruence].
    fold fm in Heq. by rewrite Heq, E. }
  destruct Hinv as [(-> & Hfs & Htr)|(Hnf & [(Hex & -> & Hfs & Htr)|(Hnone & _)])].
  - rewrite (new_events_app _ _ _ Htr). unfold fs_stat in *. rewrite Hfs.
    split_and!; [done|by right|repeat constructor].
  - rewrite <- app_assoc in Htr. rewrite (new_events_app _ _ _ Htr).
    rewrite Hfs. split_and!; [done|by left|repeat constructor].
  - congruence.
Qed.

(** X2. A call changes nothing beside its two files: every other entry
    of the file system is as it was, or is a directory that the call made
    on the way to the destination. *)
Theorem download_changes_only_its_own_paths url outputDir onProgress w w' r
    res filename k :
  downloadFileWithProgress env url outputDir onProgress w = (w', r) →
  axios_get_stream env url = Some res →
  resolve_filename env (content_disposition res) url = Ok filename →
  k ≠ fs_key (path_join outputDir filename) →
  k ≠ path_join outputDir filename ++ temp_suffix →
  fs w' !! k = fs w !! k
  ∨ (fs w !! k = None ∧ fs w' !! k = Some Dir
     ∧ k ∈ fs_key <$> dir_chain
             (length (path_dirname (path_join outputDir filename)))
             (path_dirname (path_join outputDir filename))).
Proof.
  intros H Hres Hname Hk1 Hk2.
  pose proof (download_inv env _ _ _ _ _ _ _ _ H Hres Hname) as Hinv.
  cbv zeta in Hinv.
  set (out := path_join outputDir filename) in *.
  set (temp := out ++ temp_suffix) in *.
  set (d := path_dirname out) in *.
  set (chain := dir_chain (length d) d) in *.
  set (fm := foldr add_dir (fs w) chain) in *.
  assert (Hfm : fm !! k = fs w !! k
                ∨ (fs w !! k = None ∧ fm !! k = Some Dir
                   ∧ k ∈ fs_key <$> chain)).
  { destruct (add_dirs_lookup chain (fs w) k) as [Heq|[Hn Hd]]; [by left|].
    right. split_and!; [done|done|]. by apply (add_dirs_new chain (fs w)). }
  assert (Hsame : ∀ m : gmap (list N) Node, m !! k = fm !! k →
            m !! k = fs w !! k
            ∨ (fs w !! k = None ∧ m !! k = Some Dir ∧ k ∈ fs_key <$> chain)).
  { intros m ->. exact Hfm. }
  destruct Hinv as [(_ & Hfs & _)|(_ & [(_ & _ & Hfs & _)|(_ & Hinv)])].
  - left. by rewrite Hfs.
  - apply Hsame. by rewrite Hfs.
  - destruct Hinv as [(_ & Hfs & _)|[(_ & Hfs & _)|(_ & Hinv)]].
    + apply Hsame. by rewrite Hfs.
    + apply Hsame. rewrite Hfs. by apply lookup_delete_ne.
    + destruct Hinv as [(_ & _ & Hfs & _)
                       |(_ & [(_ & Hfs & _)|(_ & _ & _ & Hfs & _)])];
        apply Hsame; rewrite Hfs.
      * by apply lookup_insert_ne.
      * by apply lookup_insert_ne.
      * rewrite lookup_insert_ne by done. by apply lookup_delete_ne.
Qed.

(** X3. A call that returns after a transfer (it did not find the file
    in place) has published exactly the bytes of this response: the
    destination holds the chunks in order, whatever an older temporary
    file held, and the temporary file is gone. *)
Theorem published_file_is_the_body url outputDir onProgress w w' p res
    filename :
  downloadFileWithProgress env url outputDir onProgress w = (w', Ok p) →
  axios_get_stream env url = Some res →
  resolve_filename env (content_disposition res) url = Ok filename →
  EvDestroy ∉ new_events w w' →
  p = path_join outputDir filename
  ∧ fs_stat (fs w') p = Some (File (body_bytes (chunks res)))
  ∧ fs_stat (fs w') (p ++ temp_suffix) = None
  ∧ stream_fails res = false.
Proof.
  intros H Hres Hname Hnd.
  pose proof (download_inv env _ _ _ _ _ _ _ _ H Hres Hname) as Hinv.
  cbv zeta in Hinv.
  set (out := path_join outputDir filename) in *.
  destruct Hinv as [(? & _)|(_ & [(_ & _ & _ & Htr)|(_ & Hinv)])];
    [discriminate| |].
  - exfalso. apply Hnd. rewrite <- app_assoc in Htr.
    rewrite (new_events_app _ _ _ Htr). set_solver.
  - destruct Hinv as [(? & _)|[(? & _)|(_ & Hinv)]]; try discriminate.
    destruct Hinv as [(_ & ? & _)|(Hsf & [(? & _)|(Hr & Hsl & _ & Hfs & _)])];
      try discriminate.
    inversion Hr; subst p. split_and!; [done| | |done].
    + unfold fs_stat. by rewrite Hfs, lookup_insert_eq, Hsl.
    + rewrite fs_stat_temp, Hfs.
      rewrite lookup_insert_ne
        by (rewrite <- (fs_key_temp out); intros Heq;
            by apply (fs_key_temp_ne out)).
      apply lookup_delete_eq.
Qed.

(** X4. A call that fails before the name of the file is known (the
    request is refused, the header does not decode, the URL does not
    parse) has made its request and nothing else: no directory is
    created and no file is touched. *)
Theorem early_failure_touches_nothing url outputDir onProgress w w' e :
  downloadFileWithProgress env url outputDir onProgress w = (w', Throw e) →
  e ≠ IOError → e ≠ StreamError →
  fs w' = fs w ∧ new_events w w' = [EvRequest url].
Proof.
  intros H He1 He2.
  destruct (download_resolved env _ _ _ _ _ _ H)
    as [(res & filename & Hres & Hname)|[_ [Hfs Htr]]].
  - pose proof (download_inv env _ _ _ _ _ _ _ _ H Hres Hname) as Hinv.
    cbv zeta in Hinv. exfalso.
    destruct Hinv as [(Hr & _)|(_ & [(_ & Hr & _)|(_ & Hinv)])];
      [by inversion Hr|discriminate|].
    destruct Hinv as [(Hr & _)|[(Hr & _)|(_ & Hinv)]];
      [by inversion Hr|by inversion Hr|].
    destruct Hinv as [(_ & Hr & _)|(_ & [(Hr & _)|(Hr & _)])];
      [by inversion Hr|by inversion Hr|discriminate].
  - split; [done|]. by apply new_events_app.
Qed.

(** X5. The byte count of the final report is the size of the published
    file: the last callback of a completed transfer carries the number of
    bytes that the destination now holds. *)
Theorem final_report_counts_the_published_bytes url outputDir w w' p res
    filename :
  downloadFileWithProgress env url outputDir true w = (w', Ok p) →
  axios_get_stream env url = Some res →
  resolve_filename env (content_disposition res) url = Ok filename →
  EvDestroy ∉ new_events w w' →
  ∃ report,
    last (new_events w w') = Some (EvProgress report)
    ∧ fs_stat (fs w') p = Some (File (body_bytes (chunks res)))
    ∧ downloadedBytes report = Z.of_nat (length (body_bytes (chunks res)))
    ∧ rateBps report = None.
Proof.
  intros H Hres Hname Hnd.
  pose proof (download_inv env _ _ _ _ _ _ _ _ H Hres Hname) as Hinv.
  cbv zeta in Hinv.
  set (out := path_join outputDir filename) in *.
  destruct Hinv as [(? & _)|(_ & [(_ & _ & _ & Htr)|(_ & Hinv)])];
    [discriminate| |].
  - exfalso. apply Hnd. rewrite <- app_assoc in Htr.
    rewrite (new_events_app _ _ _ Htr). set_solver.
  - destruct Hinv as [(? & _)|[(? & _)|(_ & Hinv)]]; try discriminate.
    destruct Hinv as [(_ & ? & _)|(Hsf & [(? & _)|(Hr & Hsl & _ & Hfs & Htr)])];
      try discriminate.
    inversion Hr; subst p.
    rewrite <- !app_assoc in Htr. apply new_events_app in Htr.
    eexists. split_and!.
    + rewrite Htr, !app_assoc. apply last_snoc.
    + unfold fs_stat. by rewrite Hfs, lookup_insert_eq, Hsl.
    + cbn [final_report downloadedBytes].
      rewrite sample_all_received. simpl. lia.
    + done.
Qed.

End MoreDownload.

Ltac not_in_list H :=
  intros H; repeat (apply elem_of_cons in H as [H|H]; [discriminate|]);
  by apply elem_of_nil in H.

Lemma existing_destination_is_never_overwritten_witness :
  fs_stat (fs game_second_run.1) (path_join downloads (u16 "game.zip"))
  = Some (File [1; 2; 3; 4; 5; 6]%N)
  ∧ (game_second_run.2 = Ok (path_join downloads (u16 "game.zip"))
     ∨ game_second_run.2 = Throw IOError)
  ∧ Forall (λ e, match e with
                 | EvData _ | EvProgress _ | EvOpen _ | EvUnlink _
                 | EvRename _ _ => False
                 | _ => True
                 end) (new_events game_first_run.1 game_second_run.1).
Proof.
  apply (existing_destination_is_never_overwritten (game_env false) game_url
           downloads true game_first_run.1 game_second_run.1
           game_second_run.2 (game_response false) (u16 "game.zip")
           (File [1; 2; 3; 4; 5; 6]%N));
    vm_compute; reflexivity.
Defined.

Lemma download_changes_only_its_own_paths_witness :
  fs game_first_run.1 !! u16 "downloads" = fs empty_world !! u16 "downloads"
  ∨ (fs empty_world !! u16 "downloads" = None
     ∧ fs game_first_run.1 !! u16 "downloads" = Some Dir
     ∧ u16 "downloads"
       ∈ fs_key <$> dir_chain
           (length (path_dirname (path_join downloads (u16 "game.zip"))))
           (path_dirname (path_join downloads (u16 "game.zip")))).
Proof.
  apply (download_changes_only_its_own_paths (game_env false) game_url
           downloads true empty_world game_first_run.1 game_first_run.2
           (game_response false) (u16 "game.zip") (u16 "downloads")).
  - vm_compute. reflexivity.
  - vm_compute. reflexivity.
  - vm_compute. reflexivity.
  - vm_compute. discriminate.
  - vm_compute. discriminate.
Defined.

Lemma published_file_is_the_body_witness :
  u16 "downloads/game.zip" = path_join downloads (u16 "game.zip")
  ∧ fs_stat (fs game_first_run.1) (u16 "downloads/game.zip")
    = Some (File (body_bytes (chunks (game_response false))))
  ∧ fs_stat (fs game_first_run.1) (u16 "downloads/game.zip" ++ temp_suffix)
    = None
  ∧ stream_fails (game_response false) = false.
Proof.
  apply (published_file_is_the_body (game_env false) game_url downloads true
           empty_world game_first_run.1 (u16 "downloads/game.zip")
           (game_response false) (u16 "game.zip")).
  - vm_compute. reflexivity.
  - vm_compute. reflexivity.
  - vm_compute. reflexivity.
  - vm_compute. not_in_list H.
Defined.

Lemma early_failure_touches_nothing_witness :
  fs game_offline_run.1 = fs empty_world
  ∧ new_events empty_world game_offline_run.1 = [EvRequest game_url].
Proof.
  apply (early_failure_touches_nothing offline_env game_url downloads true
           empty_world game_offline_run.1 AxiosError).
  - vm_compute. reflexivity.
  - discriminate.
  - discriminate.
Defined.

Lemma final_report_counts_the_published_bytes_witness :
  ∃ report,
    last (new_events empty_world game_first_run.1) = Some (EvProgress report)
    ∧ fs_stat (fs game_first_run.1) (u16 "downloads/game.zip")
      = Some (File (body_bytes (chunks (game_response false))))
    ∧ downloadedBytes report
      = Z.of_nat (length (body_bytes (chunks (game_response false))))
    ∧ rateBps report = None.
Proof.
  apply (final_report_counts_the_published_bytes (game_env false) game_url
           downloads empty_world game_first_run.1 (u16 "downloads/game.zip")
           (game_response false) (u16 "game.zip")).
  - vm_compute. reflexivity.
  - vm_compute. reflexivity.
  - vm_compute. reflexivity.
  - vm_compute. not_in_list H.
Defined.

(** ** The numbers of the reports *)


Lemma sample_all_percent total cs : ∀ s t p,
  (t, p) ∈ (sample_all total s cs).1 →
  totalBytes p = total
  ∧ percent p
    = match truthy_total total with
      | Some n => Some (inject_Z (downloadedBytes p) / inject_Z n
                        * inject_Z 100)%Q
      | None => None
      end.
Proof.
  induction cs as [|[now chunk] cs IH]; intros s t p Hp.
  - by apply elem_of_nil in Hp.
  - cbn [sample_all] in Hp.
    destruct (on_data total s now chunk) as [s1 r] eqn:E.
    specialize (IH s1 t p). destruct (sample_all total s1 cs) as [rs s2].
    cbn [fst snd] in *.
    destruct r as [p0|]; [|by apply IH].
    apply elem_of_cons in Hp as [Heq|Hp]; [|by apply IH].
    inversion Heq; subst. unfold on_data in E.
    destruct (Qle_bool _ _); inversion E; subst. done.
Qed.

(** The sign of a binary64 quotient. *)
Lemma binary_round_aux_sign prec emax s m e l :
  sign_bit (binary_round_aux prec emax s m e l) = false
  ∨ sign_bit (binary_round_aux prec emax s m e l) = s.
Proof.
  unfold binary_round_aux.
  destruct (shr_fexp prec emax m e l) as [mrs' e'].
  destruct (shr_fexp _ _ _ _ _) as [mrs'' e''].
  destruct (shr_m mrs''); [by right| |by left].
  destruct (_ <=? _)%Z; by right.
Qed.

Lemma b64_of_Z_sign z : (0 <= z)%Z → sign_bit (b64_of_Z z) = false.
Proof.
  intros Hz. unfold b64_of_Z, binary_normalize.
  destruct z as [|m|m]; [done| |lia].
  unfold binary_round. destruct (shl_align _ _ _) as [mz ez].
  by destruct (binary_round_aux_sign 53 1024 false (Z.pos mz) ez loc_Exact).
Qed.

Lemma b64_div_sign x y :
  sign_bit x = false → sign_bit y = false → sign_bit (b64_div x y) = false.
Proof.
  unfold b64_div, SFdiv.
  destruct x as [sx|sx| |sx mx ex], y as [sy|sy| |sy my ey]; simpl;
    intros Hx Hy; subst; try done.
  destruct (SFdiv_core_binary _ _ _ _ _ _) as [[mz ez] lz].
  by destruct (binary_round_aux_sign 53 1024 false mz ez lz).
Qed.

Lemma b64_to_Q_nonneg x : sign_bit x = false → (0 <= b64_to_Q x)%Q.
Proof.
  destruct x as [s|s| |s m e]; simpl; try done.
  intros Hs. subst s. destruct e as [|k|k]; unfold Qle, inject_Z; simpl; lia.
Qed.

Lemma rate_of_nonneg bytes ms :
  (0 <= bytes)%Z → (0 <= ms)%Z → (0 <= rate_of bytes ms)%Q.
Proof.
  intros Hb Hms. apply b64_to_Q_nonneg.
  apply b64_div_sign; [by apply b64_of_Z_sign|].
  apply b64_div_sign; by apply b64_of_Z_sign.
Qed.

Lemma well_paced_rate t_prev b_prev rs : 
  well_paced t_prev b_prev rs →
  ∀ t p, (t, p) ∈ rs → ∃ rate, rateBps p = Some rate ∧ (0 <= rate)%Q.
Proof.
  revert t_prev b_prev. induction rs as [|[t0 p0] rs IH];
    intros t_prev b_prev Hw t p Hp.
  - by apply elem_of_nil in Hp.
  - destruct Hw as (Hgap & Hrate & Hmono & Hrest).
    apply elem_of_cons in Hp as [Heq|Hp]; [|by eapply IH].
    inversion Heq; subst. eexists. split; [exact Hrate|].
    apply rate_of_nonneg; lia.
Qed.

Lemma percent_bounds d n :
  (0 <= d)%Z → (0 < n)%Z →
  (0 <= inject_Z d / inject_Z n * inject_Z 100)%Q
  ∧ ((inject_Z d / inject_Z n * inject_Z 100 <= inject_Z 100)%Q ↔ (d <= n)%Z).
Proof.
  intros Hd Hn. destruct n as [|n|n]; try lia.
  unfold Qle, Qdiv, Qmult, Qinv, inject_Z. simpl. split; [lia|].
  rewrite !Pos.mul_1_r. lia.
Qed.

(** X6. The numbers of a report made during the transfer: the rate is
    never negative; with a positive Content-Length the percentage is the
    bytes received over it, times 100, never negative, and at most 100
    exactly when no more bytes than announced have arrived (it is not
    clamped); without a usable Content-Length there is no percentage. *)
Theorem report_numbers_are_sound total t0 cs t p :
  (t, p) ∈ (sample_all total
              {| received := 0; lastEmit := t0; lastBytes := 0 |} cs).1 →
  (∃ rate, rateBps p = Some rate ∧ (0 <= rate)%Q)
  ∧ (0 <= downloadedBytes p <= Z.of_nat (length (body_bytes cs)))%Z
  ∧ (truthy_total total = None → percent p = None)
  ∧ (∀ n, total = Some (Num n) → (0 < n)%Z →
       ∃ q, percent p = Some q ∧ (0 <= q)%Q
            ∧ ((q <= inject_Z 100)%Q ↔ (downloadedBytes p <= n)%Z)).
Proof.
  intros Hp.
  set (s0 := {| received := 0; lastEmit := t0; lastBytes := 0 |}) in *.
  pose proof (sample_all_paced total cs s0 ltac:(simpl; lia)) as Hw.
  destruct (sample_all_bounded total cs s0) as [_ Hb].
  specialize (Hb t p Hp). rewrite sample_all_received in Hb. simpl in Hb.
  destruct (sample_all_percent total cs s0 t p Hp) as [_ Hperc].
  split; [|split; [|split]].
  - by apply (well_paced_rate _ _ _ Hw t p).
  - lia.
  - intros Hn. rewrite Hn in Hperc. exact Hperc.
  - intros n -> Hn. cbn [truthy_total] in Hperc.
    destruct (n =? 0)%Z eqn:E; [lia|].
    eexists. split; [exact Hperc|]. apply percent_bounds; lia.
Qed.

Lemma report_numbers_are_sound_witness :
  (∃ rate, rateBps game_report = Some rate ∧ (0 <= rate)%Q)
  ∧ (0 <= downloadedBytes game_report
     <= Z.of_nat (length (body_bytes three_chunks)))%Z
  ∧ (truthy_total (Some (Num 6)) = None → percent game_report = None)
  ∧ (∀ n, Some (Num 6) = Some (Num n) → (0 < n)%Z →
       ∃ q, percent game_report = Some q ∧ (0 <= q)%Q
            ∧ ((q <= inject_Z 100)%Q ↔ (downloadedBytes game_report <= n)%Z)).
Proof.
  apply (report_numbers_are_sound (Some (Num 6)) 1000 three_chunks 1300
           game_report).
  vm_compute. apply elem_of_cons. by left.
Defined.

(** ** The directory and the request of a call *)

Lemma chunk_events_no_request total cb cs : ∀ s,
  count_events is_request (chunk_events total cb s cs) = 0.
Proof.
  induction cs as [|[now chunk] cs IH]; intros s; [done|].
  cbn [chunk_events].
  change (EvData (length chunk) :: ?l) with ([EvData (length chunk)] ++ l).
  rewrite !count_events_app, IH.
  by destruct (on_data total s now chunk).2 as [p|]; [destruct cb|].
Qed.

Lemma dir_chain_head fuel d : d ∈ dir_chain fuel d.
Proof.
  destruct fuel; simpl; [by left|].
  destruct (jseq (path_dirname d) d); by left.
Qed.

Section DirectoryAndRequest.

Variable env : Env.

(** X7. The path that a call returns lies in a directory that exists
    when the call returns: the directory of the path and every directory
    above it are directories of the file system, whether the file was
    transferred or found in place. *)
Theorem returned_path_lies_in_a_directory url outputDir onProgress w w' p d :
  downloadFileWithProgress env url outputDir onProgress w = (w', Ok p) →
  d ∈ dir_chain (length (path_dirname p)) (path_dirname p) →
  fs w' !! fs_key d = Some Dir.
Proof.
  intros H Hd.
  destruct (download_resolved env _ _ _ _ _ _ H)
    as [(res & filename & Hres & Hname)|[[?|[?|?]] _]]; try discriminate.
  pose proof (download_inv env _ _ _ _ _ _ _ _ H Hres Hname) as Hinv.
  cbv zeta in Hinv.
  set (out := path_join outputDir filename) in *.
  set (chain := dir_chain (length (path_dirname out)) (path_dirname out)) in *.
  set (fm := foldr add_dir (fs w) chain) in *.
  assert (Hfm : ∀ d', d' ∈ chain →
            existsb (is_file_at (fs w)) chain = false →
            fm !! fs_key d' = Some Dir).
  { intros d' Hd' Hex. apply add_dirs_dir; [done|].
    by apply (existsb_false_elem _ _ _ Hex). }
  destruct Hinv as [(? & _)|(Hex & [(_ & Hr & Hfs & _)|(_ & Hinv)])];
    try discriminate.
  { inversion Hr; subst p. rewrite Hfs. by apply Hfm. }
  destruct Hinv as [(? & _)|[(? & _)|(Htemp & Hinv)]]; try discriminate.
  destruct Hinv as [(_ & ? & _)|(_ & [(? & _)|(Hr & _ & Hout & Hfs & _)])];
    try discriminate.
  inversion Hr; subst p. specialize (Hfm d Hd Hex). rewrite Hfs.
  rewrite lookup_insert_ne by (intros Heq; rewrite <- Heq in Hfm; congruence).
  rewrite lookup_delete_ne by (intros Heq; rewrite <- Heq in Hfm; congruence).
  done.
Qed.

Lemma download_trace url outputDir onProgress w :
  ∃ rest,
    trace (downloadFileWithProgress env url outputDir onProgress w).1
    = trace w ++ EvRequest url :: rest
    ∧ count_events is_request rest = 0.
Proof.
  destruct (downloadFileWithProgress env url outputDir onProgress w)
    as [w' r] eqn:H. cbn [fst].
  destruct (download_resolved env _ _ _ _ _ _ H)
    as [(res & filename & Hres & Hname)|[_ [_ Htr]]].
  2:{ exists []. by rewrite Htr. }
  pose proof (download_inv env _ _ _ _ _ _ _ _ H Hres Hname) as Hinv.
  cbv zeta in Hinv.
  set (out := path_join outputDir filename) in *.
  set (temp := out ++ temp_suffix) in *.
  set (chain := dir_chain (length (path_dirname out)) (path_dirname out)) in *.
  set (fm := foldr add_dir (fs w) chain) in *.
  set (stale := if bool_decide (is_Some (fm !! temp)) then [EvUnlink temp]
                else []) in *.
  set (body := chunk_events (content_length res) onProgress
                 (initial_sampler res) (chunks res)) in *.
  assert (Hstale : count_events is_request stale = 0)
    by (unfold stale; by destruct (bool_decide _)).
  assert (Hbody : count_events is_request body = 0)
    by apply chunk_events_no_request.
  destruct Hinv as [(_ & _ & Htr)|(_ & [(_ & _ & _ & Htr)|(_ & Hinv)])].
  { exists []. by rewrite Htr. }
  { eexists. rewrite Htr, <- app_assoc. split; [done|]. done. }
  destruct Hinv as [(_ & _ & Htr)|[(_ & _ & Htr)|(_ & Hinv)]].
  { eexists. rewrite Htr. split; [done|]. done. }
  { eexists. rewrite Htr, <- app_assoc. split; [done|].
    change (EvMkdir ?d :: ?l) with ([EvMkdir d] ++ l).
    by rewrite count_events_app, Hstale. }
  assert (Hstreamed : count_events is_request
            ([EvMkdir (path_dirname out)] ++ stale ++ [EvOpen temp] ++ body)
            = 0).
  { by rewrite !count_events_app, Hstale, Hbody. }
  destruct Hinv as [(_ & _ & _ & Htr)|(_ & [(_ & _ & Htr)|(_ & _ & _ & _ & Htr)])].
  - eexists. rewrite Htr, <- app_assoc. split; [done|]. exact Hstreamed.
  - eexists. rewrite Htr, <- app_assoc. split; [done|]. exact Hstreamed.
  - eexists. rewrite Htr, <- !app_assoc. split; [done|].
    change (EvMkdir ?d :: ?l) with ([EvMkdir d] ++ l).
    rewrite <- ?app_assoc.
    rewrite !count_events_app, Hstale, Hbody. simpl.
    by destruct onProgress.
Qed.

(** X8. Every call issues exactly one request, its first effect: the
    request for the given URL comes before anything else the call does,
    and no other request follows, however the call ends. *)
Theorem download_issues_one_request url outputDir onProgress w :
  ∃ rest,
    new_events w (downloadFileWithProgress env url outputDir onProgress w).1
    = EvRequest url :: rest
    ∧ count_events is_request
        (new_events w
           (downloadFileWithProgress env url outputDir onProgress w).1)
      = 1.
Proof.
  destruct (download_trace url outputDir onProgress w) as (rest & Htr & Hn).
  exists rest. rewrite (new_events_app _ _ _ Htr). split; [done|].
  change (EvRequest url :: rest) with ([EvRequest url] ++ rest).
  by rewrite count_events_app, Hn.
Qed.

End DirectoryAndRequest.

Lemma returned_path_lies_in_a_directory_witness :
  fs game_first_run.1 !! fs_key (u16 "downloads") = Some Dir.
Proof.
  apply (returned_path_lies_in_a_directory (game_env false) game_url
           downloads true empty_world game_first_run.1
           (u16 "downloads/game.zip") (u16 "downloads")).
  - vm_compute. reflexivity.
  - vm_compute. apply elem_of_cons. by left.
Defined.

(** ** Headers without an escape *)

Lemma decode_from_plain s :
  code "%" ∉ s → decode_from 0 [] s = Some s.
Proof.
  induction s as [|c s IH]; intros Hs; [done|].
  cbn [decode_from].
  destruct (c =? code "%")%N eqn:E.
  - apply N.eqb_eq in E. subst c. exfalso. apply Hs. by left.
  - rewrite IH; [done|]. intros H. apply Hs. by right.
Qed.

Lemma lit_ci_suffix p : ∀ s rest,
  lit_ci p s = Some rest → ∀ c, c ∈ rest → c ∈ s.
Proof.
  induction p as [|a p IH]; intros s rest H c Hc.
  - destruct s; simpl in H; by inversion H; subst.
  - destruct s as [|c0 s]; simpl in H; [done|].
    destruct (canonicalize a =? canonicalize c0)%N; [|done].
    right. by eapply IH.
Qed.

Lemma take_while_elem f s c : c ∈ take_while f s → c ∈ s.
Proof.
  induction s as [|c0 s IH]; simpl; [done|].
  destruct (f c0); [|by intros H; apply elem_of_nil in H].
  intros H. apply elem_of_cons in H as [->|H]; [by left|right; auto].
Qed.

Lemma utf8_re_at_elem s g c : utf8_re_at s = Some g → c ∈ g → c ∈ s.
Proof.
  unfold utf8_re_at.
  destruct (lit_ci _ s) as [rest|] eqn:E; cbn [mbind option_bind]; [|done].
  destruct (is_empty _); [done|]. intros H Hc. inversion H; subst.
  eapply lit_ci_suffix; [exact E|]. by eapply take_while_elem.
Qed.

Lemma re_search_elem {A} (f : jsstring → option A) (P : A → Prop) s :
  (∀ t r, f t = Some r → (∀ c, c ∈ t → c ∈ s) → P r) →
  ∀ r, re_search f s = Some r → P r.
Proof.
  intros Hf r. 
  assert (Hgen : ∀ t, (∀ c, c ∈ t → c ∈ s) → re_search f t = Some r → P r).
  { induction t as [|c0 t IH]; intros Hsub; cbn [re_search].
    - destruct (f []) eqn:E; [|done]. intros H. inversion H; subst. eauto.
    - destruct (f (c0 :: t)) eqn:E.
      + intros H. inversion H; subst. eauto.
      + apply IH. intros c Hc. apply Hsub. by right. }
  by apply Hgen.
Qed.

(** X9. A header without a percent sign never makes the extraction
    throw, and an extended parameter found in it is returned as it
    stands: decoding changes nothing in a value without escapes. *)
Theorem header_without_escape_never_throws cd :
  code "%" ∉ cd →
  (∃ r, extractFilenameFromContentDisposition cd = Ok r)
  ∧ (∀ g, re_search utf8_re_at cd = Some g →
       extractFilenameFromContentDisposition cd = Ok (Some g)).
Proof.
  intros Hcd.
  assert (Hdec : ∀ g, re_search utf8_re_at cd = Some g →
            g ≠ [] ∧ decode_from 0 [] g = Some g).
  { apply (re_search_elem utf8_re_at
             (λ g, g ≠ [] ∧ decode_from 0 [] g = Some g)).
    intros t g Ht Hsub. split.
    - unfold utf8_re_at in Ht.
      destruct (lit_ci _ t); cbn [mbind option_bind] in Ht; [|done].
      destruct (take_while _ _); cbn [is_empty] in Ht; [done|].
      by inversion Ht.
    - apply decode_from_plain. intros Hg. apply Hcd, Hsub.
      by eapply utf8_re_at_elem. }
  rewrite extract_cases.
  destruct (is_empty cd) eqn:Hempty.
  { split; [eauto|]. intros g Hg. destruct cd; [|done].
    cbn [re_search] in Hg. destruct (utf8_re_at []) eqn:E; [|done].
    by vm_compute in E. }
  destruct (re_search utf8_re_at cd) as [g|] eqn:Hs.
  - destruct (Hdec g eq_refl) as [Hne ->].
    destruct g; [done|]. cbn [is_empty negb]. split; [eauto|].
    intros g' Hg'. by inversion Hg'.
  - split; [|done].
    destruct (re_search filename_re_at cd) as [g|]; [|eauto].
    destruct (negb (is_empty g)); eauto.
Qed.

Lemma header_without_escape_never_throws_witness :
  (∃ r, extractFilenameFromContentDisposition plain_extended_header = Ok r)
  ∧ (∀ g, re_search utf8_re_at plain_extended_header = Some g →
       extractFilenameFromContentDisposition plain_extended_header
       = Ok (Some g)).
Proof.
  apply (header_without_escape_never_throws plain_extended_header).
  vm_compute. not_in_list H.
Defined.

(** ** The byte formatters *)

Example formatBytes_examples :
  formatBytes toFixed_decimal 0 = u16 "0.00 B"
  ∧ formatBytes toFixed_decimal 1023 = u16 "1023.00 B"
  ∧ formatBytes toFixed_decimal 1536 = u16 "1.50 KB"
  ∧ formatBytes toFixed_decimal (5000 # 300) = u16 "16.67 B"
  ∧ formatBytes toFixed_decimal 1073741824 = u16 "1.00 GB"
  ∧ formatBytes toFixed_decimal 1125899906842624 = u16 "1024.00 TB"
  ∧ fmtBytes toFixed_decimal (RFin 1023) = u16 "1023 B"
  ∧ fmtBytes toFixed_decimal (RFin 1536) = u16 "1.50 KB"
  ∧ fmtRate toFixed_decimal (Some (RFin 2048)) = u16 "2.00 KB/s"
  ∧ fmtRate toFixed_decimal (Some (RInf false)) = u16 "Infinity TB/s"
  ∧ fmtRate toFixed_decimal (Some RNaN) = [].
Proof. vm_compute. repeat split. Qed.

Lemma scale_loop_spec left : ∀ size i,
  let r := scale_loop left size i in
  i ≤ r.2 ≤ i + left
  ∧ (r.1 * inject_Z (1024 ^ Z.of_nat (r.2 - i)) == size)%Q
  ∧ (r.2 < i + left → (r.1 < 1024)%Q)
  ∧ (i < r.2 → (1 <= r.1)%Q)
  ∧ (r.2 = i → r.1 = size)
  ∧ (Qle_bool 1024 size = false → r.2 = i).
Proof.
  assert (Hstop : ∀ size i n,
    Qle_bool 1024 size = false ∨ n = 0 →
    i ≤ i ≤ i + n
    ∧ (size * inject_Z (1024 ^ Z.of_nat (i - i)) == size)%Q
    ∧ (i < i + n → (size < 1024)%Q)
    ∧ (i < i → (1 <= size)%Q)
    ∧ (i = i → size = size)
    ∧ (Qle_bool 1024 size = false → i = i)).
  { clear left. intros size i n Hwhy. rewrite Nat.sub_diag.
    split; [lia|]. split.
    { change (inject_Z (1024 ^ Z.of_nat 0)) with 1%Q. apply Qmult_1_r. }
    split.
    { intros Hl. destruct Hwhy as [E | ->]; [|lia].
      apply Qnot_le_lt. intros H. apply Qle_bool_iff in H. congruence. }
    split; [lia|]. split; done. }
  induction left as [|left IH]; intros size i; cbv zeta; cbn [scale_loop].
  { cbn [fst snd]. apply Hstop. by right. }
  destruct (Qle_bool 1024 size) eqn:E.
  2:{ cbn [fst snd].
      destruct (Hstop size i (S left) (or_introl E))
        as (H1 & H2 & H3 & H4 & H5 & _).
      exact (conj H1 (conj H2 (conj H3 (conj H4 (conj H5 (λ _, eq_refl)))))). }
  pose proof (proj1 (Qle_bool_iff _ _) E) as E'.
  specialize (IH (size / 1024)%Q (S i)). cbv zeta in IH.
  destruct (scale_loop left (size / 1024) (S i)) as [s' i'].
  cbn [fst snd] in *.
  destruct IH as ((Hlo & Hhi) & Hmul & Hlt & Hge & Heq & _).
  split; [lia|]. split.
  { replace (i' - i) with (S (i' - S i)) by lia.
    rewrite Nat2Z.inj_succ, Z.pow_succ_r by lia.
    rewrite inject_Z_mult.
    rewrite (Qmult_comm (inject_Z 1024)), Qmult_assoc, Hmul.
    change (inject_Z 1024) with 1024%Q. field. }
  split.
  { intros H. apply Hlt. lia. }
  split.
  { intros _. destruct (decide (i' = S i)) as [->|Hne].
    - rewrite (Heq eq_refl). apply Qle_shift_div_l; [done|].
      by rewrite Qmult_1_l.
    - apply Hge. lia. }
  split; [lia|congruence].
Qed.

(** X10. What formatBytes prints: the text is the number [size] with two
    decimals, a space and a unit of the table (never [undefined]); [size]
    times 1024 to the rank of the unit is the byte count; [size] is below
    1024 for every unit but TB and at least 1 for every unit but B; a
    count below 1024 is printed unscaled in B. *)
Theorem formatBytes_unit_and_scale (toFixed : Q → nat → jsstring) bytes :
  ∃ size i unit,
    units !! i = Some unit
    ∧ formatBytes toFixed bytes = toFixed size 2 ++ u16 " " ++ unit
    ∧ (size * inject_Z (1024 ^ Z.of_nat i) == bytes)%Q
    ∧ (i < 4 → (size < 1024)%Q)
    ∧ (0 < i → (1 <= size)%Q)
    ∧ (Qle_bool 1024 bytes = false → i = 0 ∧ size = bytes).
Proof.
  pose proof (scale_loop_spec (length units - 1) bytes 0) as H.
  cbv zeta in H. unfold formatBytes.
  destruct (scale_loop (length units - 1) bytes 0) as [size i].
  cbn [fst snd] in H. change (length units - 1) with 4 in H.
  destruct H as ((_ & Hi) & Hmul & Hlt & Hge & Heq & Hsmall).
  rewrite Nat.sub_0_r in Hmul.
  assert (Hunit : ∃ unit, units !! i = Some unit).
  { apply lookup_lt_is_Some. simpl. lia. }
  destruct Hunit as [unit Hunit].
  exists size, i, unit. unfold unit_at. rewrite Hunit.
  split_and!; try done.
  intros H. specialize (Hsmall H). split; [done|]. by apply Heq.
Qed.

Lemma scale_loop_real_finite left : ∀ q i,
  scale_loop_real left (RFin q) i
  = (RFin (scale_loop left q i).1, (scale_loop left q i).2).
Proof.
  induction left as [|left IH]; intros q i; [done|].
  cbn [scale_loop_real scale_loop at_least_1024 div_1024].
  destruct (Qle_bool 1024 q); [apply IH|done].
Qed.

(** X11. The two formatters of download.ts on every number, against
    formatBytes: for a finite number from 1024 on fmtBytes prints what
    formatBytes prints, below 1024 it prints the number without decimals
    in B; NaN and the infinities are printed by name, the positive
    infinity in TB. fmtRate is empty exactly for an absent rate, NaN and
    the rate 0, and is fmtBytes followed by [/s] for every other rate. *)
Theorem fmtBytes_agrees_with_formatBytes (toFixed : Q → nat → jsstring) :
  (∀ n, fmtBytes toFixed (RFin n)
        = if Qle_bool 1024 n then formatBytes toFixed n
          else toFixed n 0 ++ u16 " B")
  ∧ fmtBytes toFixed RNaN = u16 "NaN B"
  ∧ fmtBytes toFixed (RInf false) = u16 "Infinity TB"
  ∧ fmtBytes toFixed (RInf true) = u16 "-Infinity B"
  ∧ (∀ bps, fmtRate toFixed bps = []
            ↔ bps = None ∨ bps = Some RNaN
              ∨ ∃ r, bps = Some (RFin r) ∧ (r == 0)%Q)
  ∧ (∀ r, is_truthy r = true →
       fmtRate toFixed (Some r) = fmtBytes toFixed r ++ u16 "/s").
Proof.
  split_and!; try done.
  - intros n.
    pose proof (scale_loop_spec (length units - 1) n 0) as H.
    cbv zeta in H. unfold fmtBytes, formatBytes.
    rewrite scale_loop_real_finite.
    destruct (scale_loop (length units - 1) n 0) as [v i] eqn:Hs.
    cbn [fst snd toFixed_real] in *.
    destruct H as (_ & _ & _ & _ & Heq & Hsmall).
    destruct (Qle_bool 1024 n) eqn:E.
    + destruct i as [|i]; [|done]. exfalso.
      change (scale_loop (length units - 1) n 0)
        with (if Qle_bool 1024 n then scale_loop 3 (n / 1024) 1
              else (n, 0)) in Hs.
      rewrite E in Hs.
      pose proof (scale_loop_spec 3 (n / 1024)%Q 1) as H. cbv zeta in H.
      rewrite Hs in H. cbn [fst snd] in H. lia.
    + rewrite (Hsmall eq_refl) in *. by rewrite (Heq eq_refl).
  - intros [r|]; cbn [fmtRate]; [|split; [auto|done]].
    destruct (is_truthy r) eqn:E.
    + split.
      * intros H. apply app_eq_nil in H as [_ H]. done.
      * intros [H|[H|(q & H & Hq)]]; [done| |].
        -- inversion H; subst. done.
        -- inversion H; subst. cbn [is_truthy] in E.
           apply Qeq_bool_iff in Hq. by rewrite Hq in E.
    + split; [|done]. intros _.
      destruct r as [|negative|q]; [auto|done|].
      right. right. exists q. split; [done|].
      cbn [is_truthy] in E. apply negb_false_iff in E.
      by apply Qeq_bool_iff.
  - intros r Hr. cbn [fmtRate]. by rewrite Hr.
Qed.

(** ** More on the links of a page *)

Lemma first_occurrences_distinct items : ∀ seen,
  NoDup (href <$> items) →
  (∀ it, it ∈ items → href it ∉ seen) →
  first_occurrences seen items = items.
Proof.
  induction items as [|x items IH]; intros seen Hnd Hseen; [done|].
  simpl. apply NoDup_cons in Hnd as [Hx Hnd].
  case_bool_decide as Hin.
  - exfalso. by apply (Hseen x); [left|].
  - f_equal. apply IH; [done|].
    intros it Hit Hs. apply elem_of_app in Hs as [Hs|Hs].
    + by apply (Hseen it); [right|].
    + apply list_elem_of_singleton in Hs. apply Hx. rewrite <- Hs.
      apply list_elem_of_fmap. eauto.
Qed.

(** X12. Deduplicating is idempotent, and the lists that it leaves as
    they are are exactly the lists without two items of the same href. *)
Theorem dedup_links_fixed_points items :
  dedup_links (dedup_links items) = dedup_links items
  ∧ (dedup_links items = items ↔ NoDup (href <$> items)).
Proof.
  assert (Hid : ∀ l, NoDup (href <$> l) → dedup_links l = l).
  { intros l Hl. rewrite dedup_links_first_occurrences.
    apply first_occurrences_distinct; [done|].
    intros it _ H. by apply elem_of_nil in H. }
  assert (Hnd : NoDup (href <$> dedup_links items)).
  { rewrite dedup_links_first_occurrences. apply first_occurrences_NoDup. }
  split; [by apply Hid|]. split; [|apply Hid].
  intros H. by rewrite <- H.
Qed.

Lemma trim_spec s :
  ∃ pre post,
    s = pre ++ trim s ++ post
    ∧ Forall (λ c, is_space c = true) pre
    ∧ Forall (λ c, is_space c = true) post
    ∧ (∀ c, head (trim s) = Some c → is_space c = false)
    ∧ (∀ c, last (trim s) = Some c → is_space c = false).
Proof.
  unfold trim.
  pose proof (take_drop_while is_space s) as Hs.
  pose proof (take_while_Forall is_space s) as Hpre.
  set (pre := take_while is_space s) in *.
  set (t := drop_while is_space s) in *.
  pose proof (take_drop_while is_space (rev t)) as Ht.
  pose proof (take_while_Forall is_space (rev t)) as Hpost.
  set (post := take_while is_space (rev t)) in *.
  set (u := drop_while is_space (rev t)) in *.
  assert (Htu : t = rev u ++ rev post).
  { rewrite <- List.rev_app_distr, Ht. by rewrite List.rev_involutive. }
  exists pre, (rev post). split_and!.
  - by rewrite <- Htu.
  - done.
  - by apply rev_Forall.
  - intros c Hc. destruct (rev u) as [|c0 r] eqn:E; [done|].
    simpl in Hc. inversion Hc; subst c0.
    rewrite Htu in *. by apply (drop_while_head is_space s c (r ++ rev post)).
  - intros c Hc. destruct u as [|c0 u'] eqn:E.
    + done.
    + simpl in Hc. rewrite last_snoc in Hc. inversion Hc; subst c0.
      by apply (drop_while_head is_space (rev t) c u').
Qed.

Section LinkTexts.

Variable env : Env.

Lemma map_anchors_texts url anchors : ∀ mapped it,
  map_anchors env url anchors = Ok mapped →
  Some it ∈ mapped →
  ∃ a, a ∈ anchors ∧ text it = trim (textContent a).
Proof.
  induction anchors as [|a anchors IH]; intros mapped it; simpl.
  - intros H Hit. inversion H; subst. by apply elem_of_nil in Hit.
  - destruct (link_of_anchor env url a) as [o| |] eqn:Ha; [|done..].
    destruct (map_anchors env url anchors) as [its| |]; [|done..].
    intros H Hit. inversion H; subst.
    apply elem_of_cons in Hit as [Heq|Hit].
    + subst o. exists a. split; [by left|].
      unfold link_of_anchor in Ha.
      destruct (attr_href a) as [raw|]; [|done].
      destruct (is_empty raw); [done|].
      destruct (url_href env raw url); [|done]. by inversion Ha.
    + destruct (IH its it eq_refl Hit) as (a' & Ha' & Htext).
      exists a'. split; [by right|done].
Qed.

(** X13. The text of every link that getDownloadLinks returns is the
    text content of an anchor of the page without the white space at its
    two ends, and only that: it neither starts nor ends with a white
    space character, and the text content is the link text between two
    runs of white space. *)
Theorem link_texts_are_trimmed url hrefPrefix w w' links it :
  getDownloadLinks env url hrefPrefix w = (w', Ok links) →
  it ∈ links →
  ∃ data a pre post,
    axios_get_page env url = Some data
    ∧ a ∈ flat_map findAll_anchors (parseDocument env data)
    ∧ href_matches hrefPrefix a = true
    ∧ textContent a = pre ++ text it ++ post
    ∧ Forall (λ c, is_space c = true) pre
    ∧ Forall (λ c, is_space c = true) post
    ∧ (∀ c, head (text it) = Some c → is_space c = false)
    ∧ (∀ c, last (text it) = Some c → is_space c = false).
Proof.
  intros H Hit. unfold getDownloadLinks, axios_page in H.
  unfold bind, lift, ret in H. rewrite emit_eq in H.
  destruct (axios_get_page env url) as [data|]; [|done].
  destruct (map_anchors _ _ _) as [mapped| |] eqn:Hm; [|done..].
  inversion H; subst. clear H.
  rewrite dedup_links_first_occurrences in Hit.
  pose proof (first_occurrences_sublist (omap id mapped) []) as Hsub.
  apply (λ H, elem_of_sublist _ _ _ H Hsub) in Hit.
  apply list_elem_of_omap in Hit as (o & Ho & Hid). simpl in Hid. subst o.
  destruct (map_anchors_texts _ _ _ _ Hm Ho) as (a & Ha & Htext).
  apply list_elem_of_In, filter_In in Ha as [Ha Hmatch].
  apply list_elem_of_In in Ha.
  destruct (trim_spec (textContent a)) as (pre & post & Hs & Hpre & Hpost & Hh & Hl).
  exists data, a, pre, post. rewrite Htext. split_and!; done.
Qed.

End LinkTexts.

Lemma link_texts_are_trimmed_witness :
  ∃ data a pre post,
    axios_get_page repack_env repack_url = Some data
    ∧ a ∈ flat_map findAll_anchors (parseDocument repack_env data)
    ∧ href_matches HOST_PREFIX a = true
    ∧ textContent a = pre ++ u16 "Part 1" ++ post
    ∧ Forall (λ c, is_space c = true) pre
    ∧ Forall (λ c, is_space c = true) post
    ∧ (∀ c, head (u16 "Part 1") = Some c → is_space c = false)
    ∧ (∀ c, last (u16 "Part 1") = Some c → is_space c = false).
Proof.
  apply (link_texts_are_trimmed repack_env repack_url HOST_PREFIX empty_world
           (getDownloadLinks repack_env repack_url HOST_PREFIX empty_world).1
           repack_links {| href := link_a; text := u16 "Part 1" |}).
  - vm_compute. reflexivity.
  - vm_compute. apply elem_of_cons. by left.
Defined.

(** ** The link of the nested page *)

Lemma lit_spec p : ∀ s r, lit p s = Some r → s = p ++ r.
Proof.
  induction p as [|a p IH]; intros s r H.
  - destruct s; simpl in H; by inversion H.
  - destruct s as [|c s]; simpl in H; [done|].
    destruct (a =? c)%N eqn:E; [|done].
    apply N.eqb_eq in E. subst c. simpl. f_equal. by apply IH.
Qed.

Lemma re_search_at {A} (f : jsstring → option A) s : ∀ r,
  re_search f s = Some r → ∃ pre t, s = pre ++ t ∧ f t = Some r.
Proof.
  induction s as [|c s IH]; intros r; cbn [re_search].
  - destruct (f []) eqn:E; [|done]. intros H. inversion H; subst.
    by exists [], [].
  - destruct (f (c :: s)) eqn:E.
    + intros H. inversion H; subst. by exists [], (c :: s).
    + intros H. destruct (IH r H) as (pre & t & -> & Ht).
      by exists (c :: pre), t.
Qed.

Lemma window_open_at_spec s g :
  window_open_at s = Some g →
  ∃ ws1 q1 q2 ws2 post,
    s = u16 "window.open(" ++ ws1 ++ q1 :: g ++ q2 :: ws2
        ++ code ")" :: post
    ∧ Forall (λ c, is_space c = true) ws1
    ∧ Forall (λ c, is_space c = true) ws2
    ∧ is_quote q1 = true ∧ is_quote q2 = true
    ∧ g ≠ []
    ∧ Forall (λ c, is_quote c = false) g.
Proof.
  unfold window_open_at.
  destruct (lit _ s) as [r|] eqn:Hlit; cbn [mbind option_bind]; [|done].
  apply lit_spec in Hlit.
  pose proof (take_drop_while is_space r) as Hr.
  pose proof (take_while_Forall is_space r) as Hws1.
  destruct (drop_while is_space r) as [|q1 r1]; [done|].
  destruct (is_quote q1) eqn:Hq1; [|done].
  pose proof (take_drop_while (λ c, negb (is_quote c)) r1) as Hr1.
  pose proof (take_while_Forall (λ c, negb (is_quote c)) r1) as Hg.
  destruct (take_while _ r1) as [|c0 g'] eqn:Etake; cbn [is_empty]; [done|].
  destruct (drop_while (λ c, negb (is_quote c)) r1) as [|q2 r2] eqn:Edrop;
    [done|].
  apply drop_while_head in Edrop.
  pose proof (take_drop_while is_space r2) as Hr2.
  pose proof (take_while_Forall is_space r2) as Hws2.
  destruct (drop_while is_space r2) as [|c' post]; [done|].
  destruct (c' =? code ")")%N eqn:Ec; [|done].
  apply N.eqb_eq in Ec. subst c'.
  intros H. inversion H; subst g. clear H.
  exists (take_while is_space r), q1, q2, (take_while is_space r2), post.
  split_and!; try done.
  - by rewrite Hlit, Hr2, Hr1, Hr.
  - by apply negb_false_iff.
  - eapply Forall_impl; [exact Hg|]. intros c Hc. by apply negb_true_iff.
Qed.

Section NestedLink.

Variable env : Env.

(** X14. The link that getNestedDownloadLink finds is a text of the page:
    the page has a call [window.open(], white space, a quote character,
    the link, a quote character, white space and the closing parenthesis;
    the link is not empty and holds no quote character; the two quote
    characters need not be the same. Nothing is written and one request
    is made. *)
Theorem nested_link_is_quoted_in_the_page url w w' g :
  getNestedDownloadLink env url w = (w', Ok (Some g)) →
  ∃ data pre ws1 q1 q2 ws2 post,
    axios_get_page env url = Some data
    ∧ data = pre ++ u16 "window.open(" ++ ws1 ++ q1 :: g ++ q2 :: ws2
             ++ code ")" :: post
    ∧ Forall (λ c, is_space c = true) ws1
    ∧ Forall (λ c, is_space c = true) ws2
    ∧ is_quote q1 = true ∧ is_quote q2 = true
    ∧ g ≠ []
    ∧ Forall (λ c, is_quote c = false) g
    ∧ fs w' = fs w
    ∧ new_events w w' = [EvRequest url].
Proof.
  rewrite getNestedDownloadLink_eq. intros H.
  destruct (axios_get_page env url) as [data|]; [|done].
  inversion H as [[Hw Hg]]. clear H.
  apply re_search_at in Hg as (pre & t & -> & Ht).
  apply window_open_at_spec in Ht
    as (ws1 & q1 & q2 & ws2 & post & -> & H1 & H2 & H3 & H4 & H5 & H6).
  exists (pre ++ u16 "window.open(" ++ ws1 ++ q1 :: g ++ q2 :: ws2
          ++ code ")" :: post), pre, ws1, q1, q2, ws2, post.
  split_and!; try done.
  by apply new_events_app.
Qed.

End NestedLink.

Lemma nested_link_is_quoted_in_the_page_witness :
  ∃ data pre ws1 q1 q2 ws2 post,
    axios_get_page cli_env link_a = Some data
    ∧ data = pre ++ u16 "window.open(" ++ ws1 ++ q1 :: game_url ++ q2 :: ws2
             ++ code ")" :: post
    ∧ Forall (λ c, is_space c = true) ws1
    ∧ Forall (λ c, is_space c = true) ws2
    ∧ is_quote q1 = true ∧ is_quote q2 = true
    ∧ game_url ≠ []
    ∧ Forall (λ c, is_quote c = false) game_url
    ∧ fs (getNestedDownloadLink cli_env link_a empty_world).1 = fs empty_world
    ∧ new_events empty_world
        (getNestedDownloadLink cli_env link_a empty_world).1
      = [EvRequest link_a].
Proof.
  apply (nested_link_is_quoted_in_the_page cli_env link_a empty_world).
  vm_compute. reflexivity.
Defined.

(** ** More on the command *)

Section MoreCommand.

Variable env : Env.

Lemma getDownloadLinks_world url prefix w w1 r :
  getDownloadLinks env url prefix w = (w1, r) →
  fs w1 = fs w ∧ trace w1 = trace w ++ [EvRequest url].
Proof.
  unfold getDownloadLinks, axios_page, bind, lift, ret. rewrite emit_eq.
  destruct (axios_get_page env url) as [data|].
  - destruct (map_anchors _ _ _); intros H; by inversion H.
  - intros H. by inversion H.
Qed.

(** X15. The three quiet ends of downloadGame: when the page has no
    link, when the selection of the prompt is empty, and when the
    confirmation is declined, the process exits with status 0 after the
    one request for the page; no link is fetched and no file is
    touched. *)
Theorem quiet_exits_fetch_no_link url outputDir skip w w1 dLinks :
  getDownloadLinks env url HOST_PREFIX w = (w1, Ok dLinks) →
  dLinks = []
  ∨ skip = false ∧ prompt_checkbox env dLinks = Some []
  ∨ skip = false ∧ prompt_confirm env = Some false
    ∧ (∃ selected, prompt_checkbox env dLinks = Some selected) →
  downloadGame env url outputDir skip w = (w1, Exit 0)
  ∧ fs w1 = fs w
  ∧ new_events w w1 = [EvRequest url].
Proof.
  intros Hl Hwhy.
  destruct (getDownloadLinks_world _ _ _ _ _ Hl) as [Hfs Htr].
  split; [|split; [done|by apply new_events_app]].
  unfold downloadGame. unfold bind at 1. unfold try_catch. rewrite Hl.
  destruct dLinks as [|d0 dLinks]; [done|]. cbn [is_nil].
  destruct Hwhy as [?|[(-> & Hcb)|(-> & Hcf & sel & Hcb)]]; [done| |].
  - unfold bind, select_links. by rewrite Hcb.
  - unfold bind at 1. unfold select_links. rewrite Hcb.
    destruct sel as [|s0 sel]; [done|]. cbn [is_nil]. unfold ret at 1.
    unfold bind, confirm_start. cbn [negb]. by rewrite Hcf.
Qed.

(** X16. The command never ends with an exception: whatever is thrown
    inside the action is turned into the exit status 1. In particular an
    aborted prompt ends the process with status 1: the prompt for the URL
    before any request, the selection and the confirmation after the
    request for the page and before any link is fetched. *)
Theorem command_never_throws url output yes w :
  (∀ e, (action env url output yes w).2 ≠ Throw e)
  ∧ (url = None ∨ url = Some [] → prompt_input env = None →
     action env url output yes w = (w, Exit 1))
  ∧ (∀ u w1 dLinks,
       url = Some u → u ≠ [] → yes = false →
       getDownloadLinks env u HOST_PREFIX w = (w1, Ok dLinks) →
       dLinks ≠ [] →
       prompt_checkbox env dLinks = None
       ∨ prompt_confirm env = None
         ∧ (∃ selected, prompt_checkbox env dLinks = Some selected
                        ∧ selected ≠ []) →
       action env url output yes w = (w1, Exit 1)
       ∧ fs w1 = fs w ∧ new_events w w1 = [EvRequest u]).
Proof.
  split_and!.
  - intros e. unfold action, try_catch.
    by destruct (_ w) as [w' [[]|e'|n]].
  - intros Hurl Hin. unfold action, try_catch.
    destruct Hurl as [-> | ->]; cbn [is_empty negb]; by rewrite Hin.
  - intros u w1 dLinks -> Hu -> Hl Hne Hwhy.
    destruct (getDownloadLinks_world _ _ _ _ _ Hl) as [Hfs Htr].
    split; [|split; [done|by apply new_events_app]].
    unfold action, try_catch. destruct u as [|c u]; [done|].
    cbn [is_empty negb].
    unfold downloadGame. unfold bind at 1. unfold try_catch. rewrite Hl.
    destruct dLinks as [|d0 dLinks]; [done|]. cbn [is_nil].
    destruct Hwhy as [Hcb|(Hcf & sel & Hcb & Hsel)].
    + unfold bind, select_links. by rewrite Hcb.
    + unfold bind at 1. unfold select_links. rewrite Hcb.
      destruct sel as [|s0 sel]; [done|]. cbn [is_nil]. unfold ret at 1.
      unfold bind, confirm_start. cbn [negb]. by rewrite Hcf.
Qed.

Lemma process_links_trace outputDir links : ∀ counts w,
  ∃ blocks,
    trace (process_links env outputDir links counts w).1
    = trace w ++ concat blocks
    ∧ Forall2
        (λ l b,
           b = [EvRequest (href l)]
           ∨ ∃ data n rest,
               axios_get_page env (href l) = Some data
               ∧ re_search window_open_at data = Some n
               ∧ b = EvRequest (href l) :: EvRequest n :: rest
               ∧ count_events is_request rest = 0)
        links blocks.
Proof.
  induction links as [|l links IH]; intros [s f] w.
  - exists []. simpl. split; [by rewrite app_nil_r|constructor].
  - cbn [process_links]. unfold bind.
    pose proof (process_link_cases env outputDir l s f w) as Hc.
    cbv zeta in Hc.
    set (w1 := {| fs := fs w; trace := trace w ++ [EvRequest (href l)] |})
      in *.
    assert (Hone : ∀ c, ∃ blocks,
              trace (process_links env outputDir links c w1).1
              = trace w ++ concat ([EvRequest (href l)] :: blocks)
              ∧ Forall2
                  (λ l b,
                     b = [EvRequest (href l)]
                     ∨ ∃ data n rest,
                         axios_get_page env (href l) = Some data
                         ∧ re_search window_open_at data = Some n
                         ∧ b = EvRequest (href l) :: EvRequest n :: rest
                         ∧ count_events is_request rest = 0)
                  (l :: links) ([EvRequest (href l)] :: blocks)).
    { intros c. destruct (IH c w1) as (blocks & Htr & Hb).
      exists blocks. split.
      - rewrite Htr. simpl. by rewrite <- app_assoc.
      - constructor; [by left|done]. }
    destruct (axios_get_page env (href l)) as [data|] eqn:Hdata.
    2:{ rewrite Hc. destruct (Hone (s, S f)) as (blocks & ? & ?). eauto. }
    destruct (re_search window_open_at data) as [n|] eqn:Hn.
    2:{ rewrite Hc. destruct (Hone (s, S f)) as (blocks & ? & ?). eauto. }
    destruct (download_trace env n outputDir true w1) as (rest & Htr & Hcount).
    destruct (downloadFileWithProgress env n outputDir true w1)
      as [w2 r] eqn:Hd.
    cbn [fst] in Htr.
    assert (Htwo : ∀ c, ∃ blocks,
              trace (process_links env outputDir links c w2).1
              = trace w ++ concat blocks
              ∧ Forall2
                  (λ l b,
                     b = [EvRequest (href l)]
                     ∨ ∃ data n rest,
                         axios_get_page env (href l) = Some data
                         ∧ re_search window_open_at data = Some n
                         ∧ b = EvRequest (href l) :: EvRequest n :: rest
                         ∧ count_events is_request rest = 0)
                  (l :: links) blocks).
    { intros c. destruct (IH c w2) as (blocks & Htr2 & Hb).
      exists ((EvRequest (href l) :: EvRequest n :: rest) :: blocks). split.
      - rewrite Htr2, Htr. simpl. by rewrite <- !app_assoc.
      - constructor; [|done]. right. by exists data, n, rest. }
    rewrite Hc. destruct r as [p|e|k].
    + apply Htwo.
    + apply Htwo.
    + apply Htwo.
Qed.

(** X17. The requests of the loop follow the selection: the events of
    the loop are one block per selected link, in the order of the
    selection; a block starts with the request for the page of the link
    and is either that request alone, or goes on with the request for the
    link found in that page and with events that hold no further
    request. *)
Theorem loop_requests_follow_the_selection outputDir links counts w :
  ∃ blocks,
    new_events w (process_links env outputDir links counts w).1
    = concat blocks
    ∧ Forall2
        (λ l b,
           b = [EvRequest (href l)]
           ∨ ∃ data n rest,
               axios_get_page env (href l) = Some data
               ∧ re_search window_open_at data = Some n
               ∧ b = EvRequest (href l) :: EvRequest n :: rest
               ∧ count_events is_request rest = 0)
        links blocks.
Proof.
  destruct (process_links_trace outputDir links counts w)
    as (blocks & Htr & Hb).
  exists blocks. split; [by apply new_events_app|done].
Qed.

(** X18. With the flag [-y] and a URL on the command line no prompt is
    consulted: the command runs the same with any other answers to the
    three prompts, aborted ones included. *)
Theorem yes_flag_consults_no_prompt u output w answer selection go :
  u ≠ [] →
  action (with_prompts env answer selection go) (Some u) output true w
  = action env (Some u) output true w.
Proof.
  intros Hu. destruct u as [|c u]; [done|]. reflexivity.
Qed.

End MoreCommand.

Lemma quiet_exits_fetch_no_link_witness :
  downloadGame declining_env repack_url downloads false empty_world
  = ((getDownloadLinks declining_env repack_url HOST_PREFIX empty_world).1,
     Exit 0)
  ∧ fs (getDownloadLinks declining_env repack_url HOST_PREFIX empty_world).1
    = fs empty_world
  ∧ new_events empty_world
      (getDownloadLinks declining_env repack_url HOST_PREFIX empty_world).1
    = [EvRequest repack_url].
Proof.
  apply (quiet_exits_fetch_no_link declining_env repack_url downloads false
           empty_world _ repack_links).
  - vm_compute. reflexivity.
  - right. right. split_and!; [reflexivity|reflexivity|].
    by exists repack_links.
Defined.

Lemma yes_flag_consults_no_prompt_witness :
  action aborting_env (Some repack_url) downloads true empty_world
  = action cli_env (Some repack_url) downloads true empty_world.
Proof.
  apply (yes_flag_consults_no_prompt cli_env repack_url downloads empty_world
           None (λ _, None) None).
  discriminate.
Defined.

(** ** The progress bar and the prompt for the URL *)

Lemma drop_while_all f s :
  Forall (λ c, f c = true) s → drop_while f s = [].
Proof. induction 1 as [|c s Hc _ IH]; simpl; [done|]. by rewrite Hc. Qed.

Lemma trim_empty_iff s :
  trim s = [] ↔ Forall (λ c, is_space c = true) s.
Proof.
  split.
  - intros H.
    destruct (trim_spec s) as (pre & post & Hs & Hpre & Hpost & _).
    rewrite H in Hs. rewrite Hs. simpl. by apply Forall_app.
  - intros H. unfold trim. by rewrite (drop_while_all _ _ H).
Qed.

(** X19. The prompt for the URL accepts a value exactly when it has a
    character that is not white space and the URL constructor accepts it;
    a blank value is refused as missing whatever the constructor would
    say, and the value is handed on as typed, not trimmed. *)
Theorem validate_accepts_parsable_values (env : Env) value :
  (validate env value = Valid
   ↔ ¬ Forall (λ c, is_space c = true) value
     ∧ is_Some (url_pathname env value))
  ∧ (Forall (λ c, is_space c = true) value →
     validate env value = Invalid (u16 "URL is required")).
Proof.
  unfold validate. pose proof (trim_empty_iff value) as Ht.
  destruct (trim value) as [|c t] eqn:E; cbn [is_empty].
  - split; [|done]. split; [done|]. intros [Hn _]. exfalso. by apply Hn, Ht.
  - split.
    + destruct (url_pathname env value) as [p|]; split; try done.
      * intros _. split; [|eauto]. intros H. by apply Ht in H.
      * intros [_ [x Hx]]. done.
    + intros H. by apply Ht in H.
Qed.

Lemma chunk_events_progress total cs p : ∀ s,
  EvProgress p ∈ chunk_events total true s cs →
  ∃ t, (t, p) ∈ (sample_all total s cs).1.
Proof.
  intros s H.
  assert (Hf : EvProgress p ∈ List.filter is_progress
                 (chunk_events total true s cs)).
  { apply list_elem_of_In, filter_In. split; [by apply list_elem_of_In|done]. }
  rewrite chunk_events_reports in Hf.
  apply list_elem_of_fmap in Hf as ([t p'] & Heq & Hin).
  inversion Heq; subst. by exists t.
Qed.

Section ProgressBar.

Variable env : Env.
Variable toFixed : Q → nat → jsstring.

(** X20. The value given to the progress bar stays in its range from 0
    to 100 in every callback of a call, however the call ends, when the
    server sends no more bytes than the Content-Length it announced; the
    file size shown is that of the announced length. *)
Theorem bar_value_stays_in_range url outputDir w w' r res filename p :
  downloadFileWithProgress env url outputDir true w = (w', r) →
  axios_get_stream env url = Some res →
  resolve_filename env (content_disposition res) url = Ok filename →
  (∀ n, content_length res = Some (Num n) →
        (Z.of_nat (length (body_bytes (chunks res))) <= n)%Z) →
  EvProgress p ∈ new_events w w' →
  (0 <= bar_value (bar_update toFixed p) <= inject_Z 100)%Q
  ∧ totalBytes p = content_length res.
Proof.
  intros H Hres Hname Hhonest Hp.
  set (total := content_length res) in *.
  set (s0 := initial_sampler res) in *.
  assert (Hmid : ∀ t, (t, p) ∈ (sample_all total s0 (chunks res)).1 →
            (0 <= bar_value (bar_update toFixed p) <= inject_Z 100)%Q
            ∧ totalBytes p = total).
  { intros t Ht.
    destruct (sample_all_percent total (chunks res) s0 t p Ht)
      as [Htot Hperc].
    destruct (sample_all_bounded total (chunks res) s0) as [_ Hb].
    specialize (Hb t p Ht). rewrite sample_all_received in Hb.
    change (received s0) with 0%Z in Hb.
    split; [|done]. cbn [bar_update bar_value]. rewrite Hperc.
    destruct total as [[|n]|] eqn:Etot; cbn [truthy_total default]; try done.
    destruct (n =? 0)%Z eqn:E0; cbn [default]; [done|].
    specialize (Hhonest n eq_refl).
    assert (Hn : (0 < n)%Z) by lia.
    destruct (percent_bounds (downloadedBytes p) n ltac:(lia) Hn)
      as [Hlo Hhi].
    split; [done|]. apply Hhi. lia. }
  assert (Hfin : ∀ n, p = final_report total n →
            (0 <= bar_value (bar_update toFixed p) <= inject_Z 100)%Q
            ∧ totalBytes p = total).
  { intros n ->. split; [|done]. cbn [bar_update bar_value final_report percent].
    by destruct (truthy_total total). }
  pose proof (download_inv env _ _ _ _ _ _ _ _ H Hres Hname) as Hinv.
  cbv zeta in Hinv. fold total s0 in Hinv.
  set (out := path_join outputDir filename) in *.
  set (temp := out ++ temp_suffix) in *.
  set (fm := foldr add_dir (fs w) _) in *.
  destruct (bool_decide (is_Some (fm !! temp)));
    destruct Hinv as [(_ & _ & Htr)|(_ & [(_ & _ & _ & Htr)|(_ & Hinv)])];
    try destruct Hinv as [(_ & _ & Htr)|[(_ & _ & Htr)|(_ & Hinv)]];
    try destruct Hinv
      as [(_ & _ & _ & Htr)|(_ & [(_ & _ & Htr)|(_ & _ & _ & _ & Htr)])];
    unfold new_events in Hp; rewrite Htr in Hp;
    rewrite <- ?app_assoc in Hp; rewrite drop_app_length in Hp;
    repeat first
      [ apply elem_of_app in Hp as [Hp|Hp]
      | apply elem_of_cons in Hp as [Hp|Hp]
      | apply elem_of_nil in Hp; destruct Hp ];
    try discriminate;
    try (apply chunk_events_progress in Hp as [t Ht]; by apply (Hmid t));
    try (injection Hp as Hp; exact (Hfin _ Hp)).
Qed.

End ProgressBar.

Lemma bar_value_stays_in_range_witness :
  (0 <= bar_value (bar_update toFixed_decimal game_report)
   <= inject_Z 100)%Q
  ∧ totalBytes game_report = content_length (game_response false).
Proof.
  apply (bar_value_stays_in_range (game_env false) toFixed_decimal game_url
           downloads empty_world game_first_run.1 game_first_run.2
           (game_response false) (u16 "game.zip") game_report).
  - vm_compute. reflexivity.
  - vm_compute. reflexivity.
  - vm_compute. reflexivity.
  - intros n Hn. inversion Hn; subst n. vm_compute. discriminate.
  - vm_compute.
    repeat (apply elem_of_cons; first [by left|right]).
Defined.

Example bar_update_example :
  bar_update toFixed_decimal game_report
  = {| bar_value := (500 # 6)%Q;
       downloaded := u16 "5.00 B";
       fileSize := u16 "6.00 B";
       speed := u16 "16.67 B/s" |}.
Proof. vm_compute. reflexivity. Qed.

(** ** What a counted success leaves behind *)

Section CountedSuccess.

Variable env : Env.

Lemma download_ok_exists url outputDir onProgress w w' p :
  downloadFileWithProgress env url outputDir onProgress w = (w', Ok p) →
  is_Some (fs_stat (fs w') p).
Proof.
  intros H.
  destruct (download_resolved env _ _ _ _ _ _ H)
    as [(res & filename & Hres & Hname)|[[?|[?|?]] _]]; try discriminate.
  pose proof (download_inv env _ _ _ _ _ _ _ _ H Hres Hname) as Hinv.
  cbv zeta in Hinv.
  set (out := path_join outputDir filename) in *.
  destruct Hinv as [(? & _)|(_ & [(Hex & Hr & Hfs & _)|(_ & Hinv)])];
    [discriminate| |].
  - inversion Hr; subst p. by rewrite Hfs.
  - destruct Hinv as [(? & _)|[(? & _)|(_ & Hinv)]]; try discriminate.
    destruct Hinv as [(_ & ? & _)|(Hsf & [(? & _)|(Hr & Hsl & _ & Hfs & _)])];
      try discriminate.
    inversion Hr; subst p. unfold fs_stat.
    rewrite Hfs, lookup_insert_eq, Hsl. eauto.
Qed.

(** X21. A link is counted as a success only when its page was fetched,
    the page opens a link, and the download of that link returned a path;
    that path then exists in the file system. Every other turn of the loop
    leaves the success counter as it was. *)
Theorem counted_success_has_its_file outputDir dLink s f w w' s' f' :
  process_link env outputDir dLink (s, f) w = (w', Ok (s', f')) →
  (s' = S s ∧ f' = f
   ∧ ∃ data n p,
       axios_get_page env (href dLink) = Some data
       ∧ re_search window_open_at data = Some n
       ∧ downloadFileWithProgress env n outputDir true
           {| fs := fs w; trace := trace w ++ [EvRequest (href dLink)] |}
         = (w', Ok p)
       ∧ is_Some (fs_stat (fs w') p))
  ∨ (s' = s ∧ f' = S f).
Proof.
  rewrite process_link_cases. cbv zeta.
  destruct (axios_get_page env (href dLink)) as [data|] eqn:Hdata;
    [|intros H; inversion H; by right].
  destruct (re_search window_open_at data) as [n|] eqn:Hn;
    [|intros H; inversion H; by right].
  destruct (downloadFileWithProgress env n outputDir true _)
    as [w2 [p|e|k]] eqn:Hd; intros H; inversion H; subst; [|by right..].
  left. split_and!; [done|done|].
  exists data, n, p. split_and!; [done|done|done|].
  by apply (download_ok_exists _ _ _ _ _ _ Hd).
Qed.

End CountedSuccess.

Lemma counted_success_has_its_file_witness :
  (1 = 1 ∧ 0 = 0
   ∧ ∃ data n p,
       axios_get_page cli_env (href (first_link)) = Some data
       ∧ re_search window_open_at data = Some n
       ∧ downloadFileWithProgress cli_env n downloads true
           {| fs := fs empty_world;
              trace := trace empty_world ++ [EvRequest (href first_link)] |}
         = ((process_link cli_env downloads first_link (0, 0) empty_world).1,
            Ok p)
       ∧ is_Some (fs_stat
                    (fs (process_link cli_env downloads first_link (0, 0)
                           empty_world).1) p))
  ∨ (1 = 0 ∧ 0 = 1).
Proof.
  apply (counted_success_has_its_file cli_env downloads first_link 0 0
           empty_world).
  vm_compute. reflexivity.
Defined.
